(** * PawCare Hub: due dates, reminder scan, companion events, ownership
      and food lookup

    A shallow embedding of the server side of PawCare Hub
    (Express + better-sqlite3) and the properties its specification
    states about it.

    Layout: the calendar and the JavaScript [Date] operations the code
    relies on, SQL's three-valued comparisons, the tables, the scheduler
    ([services/scheduler.ts]), the routers (dogs, vaccinations, events,
    health, food, ai), then the lemmas and the theorems. *)

From Stdlib Require Import ZArith List String Ascii Bool Lia.
Import ListNotations.

#[local] Open Scope string_scope.
#[local] Open Scope list_scope.
#[local] Open Scope Z_scope.

(* ================================================================== *)
(** ** Calendar dates                                                   *)
(* ================================================================== *)

(** A calendar date as it is written in an ISO string ['YYYY-MM-DD']:
    [month] is 1-based.  Every date column of the schema holds such a
    string, and so does [toISOString().split('T')[0]]. *)
Record date : Type := mkDate { year : Z; month : Z; day : Z }.

Definition date_eqb (a b : date) : bool :=
  (year a =? year b) && (month a =? month b) && (day a =? day b).

(** SQLite compares two TEXT values bytewise.  On two zero-padded
    ['YYYY-MM-DD'] strings (years 0000..9999) that is the lexicographic
    order of (year, month, day). *)
Definition date_ltb (a b : date) : bool :=
  (year a <? year b)
  || ((year a =? year b)
      && ((month a <? month b)
          || ((month a =? month b) && (day a <? day b)))).

Definition date_leb (a b : date) : bool := date_ltb a b || date_eqb a b.

Definition date_lt (a b : date) : Prop :=
  year a < year b
  \/ (year a = year b
      /\ (month a < month b \/ (month a = month b /\ day a < day b))).

Definition date_le (a b : date) : Prop := date_lt a b \/ a = b.

Definition is_leap (y : Z) : bool :=
  ((y mod 4 =? 0) && negb (y mod 100 =? 0)) || (y mod 400 =? 0).

Definition days_in_month (y m : Z) : Z :=
  if m =? 2 then (if is_leap y then 29 else 28)
  else if (m =? 4) || (m =? 6) || (m =? 9) || (m =? 11) then 30
  else 31.

Definition valid_dateb (d : date) : bool :=
  (1 <=? month d) && (month d <=? 12)
  && (1 <=? day d) && (day d <=? days_in_month (year d) (month d)).

Definition valid_date (d : date) : Prop :=
  1 <= month d <= 12 /\ 1 <= day d <= days_in_month (year d) (month d).

(** The day after [d]. *)
Definition nextDay (d : date) : date :=
  if day d <? days_in_month (year d) (month d)
  then mkDate (year d) (month d) (day d + 1)
  else if month d <? 12
       then mkDate (year d) (month d + 1) 1
       else mkDate (year d + 1) 1 1.

(** The day before [d]. *)
Definition prevDay (d : date) : date :=
  if 1 <? day d
  then mkDate (year d) (month d) (day d - 1)
  else if 1 <? month d
       then mkDate (year d) (month d - 1)
                   (days_in_month (year d) (month d - 1))
       else mkDate (year d - 1) 12 31.

(** [n] days after [d]. *)
Definition addDays (d : date) (n : nat) : date := Nat.iter n nextDay d.

(* ================================================================== *)
(** ** JavaScript [Date]                                                *)
(* ================================================================== *)

(** A [Date] object is an instant: here the UTC calendar date and the
    milliseconds elapsed since UTC midnight. *)
Definition instant : Type := (date * Z)%type.

Definition msPerDay : Z := 86400000.
Definition msPerMinute : Z := 60000.

Definition valid_instant (i : instant) : Prop :=
  valid_date (fst i) /\ 0 <= snd i < msPerDay.

(** [a < b] on two [Date] objects compares their time values. *)
Definition instant_ltb (a b : instant) : bool :=
  date_ltb (fst a) (fst b) || (date_eqb (fst a) (fst b) && (snd a <? snd b)).

(** SQLite's [CURRENT_TIMESTAMP], the text [YYYY-MM-DD HH:MM:SS] in UTC:
    a date and the second of the day.  Texts of that shape compare as the
    pairs do. *)
Definition timestamp : Type := (date * Z)%type.

Definition CURRENT_TIMESTAMP (now : instant) : timestamp := (fst now, snd now / 1000).

Definition timestamp_leb (a b : timestamp) : bool :=
  date_ltb (fst a) (fst b) || (date_eqb (fst a) (fst b) && (snd a <=? snd b)).


(** Carry the time of day into [0, msPerDay); one day at most is
    carried, which is all a time-zone offset can ask for. *)
Definition carry (d : date) (t : Z) : instant :=
  if t <? 0 then (prevDay d, t + msPerDay)
  else if msPerDay <=? t then (nextDay d, t - msPerDay)
  else (d, t).

(** The process's time zone is a fixed offset [tz], minutes east of UTC
    (local time = UTC + tz); daylight-saving changes are not modelled.
    [LocalTime] and [UTC] are the two conversions of ECMA-262. *)
Definition LocalTime (tz : Z) (i : instant) : instant :=
  carry (fst i) (snd i + tz * msPerMinute).

Definition UTC (tz : Z) (l : instant) : instant :=
  carry (fst l) (snd l - tz * msPerMinute).

Definition valid_tz (tz : Z) : Prop := -1440 < tz < 1440.

(** [MakeDay(year, month, dt)] with a 0-based [month] and [dt >= 1]:
    months past December are carried into the year, and the result is
    the first of the month plus [dt - 1] days, so that a day past the end
    of the month runs over into the next one. *)
Definition MakeDay (y m dt : Z) : date :=
  addDays (mkDate (y + m / 12) (m mod 12 + 1) 1) (Z.to_nat (dt - 1)).

Definition getFullYear (tz : Z) (i : instant) : Z := year (fst (LocalTime tz i)).
Definition getMonth (tz : Z) (i : instant) : Z := month (fst (LocalTime tz i)) - 1.
Definition getDate (tz : Z) (i : instant) : Z := day (fst (LocalTime tz i)).

(** [new Date('YYYY-MM-DD')]: a date-only ISO string is UTC midnight. *)
Definition Date_parse (s : date) : instant := (s, 0).

(** [new Date(y, m, d)]: local midnight of that day (for a year past 99;
    the code passes the current year). *)
Definition Date_ymd (tz : Z) (y m d : Z) : instant := UTC tz (MakeDay y m d, 0).

(** [x.setDate(dt)]: the local day of the month is replaced, the local
    time of day is kept. *)
Definition setDate (tz : Z) (i : instant) (dt : Z) : instant :=
  let l := LocalTime tz i in
  UTC tz (MakeDay (year (fst l)) (month (fst l) - 1) dt, snd l).

(** [x.setFullYear(y)]: the local year is replaced, local month, day and
    time of day are kept. *)
Definition setFullYear (tz : Z) (i : instant) (y : Z) : instant :=
  let l := LocalTime tz i in
  UTC tz (MakeDay y (month (fst l) - 1) (day (fst l)), snd l).

(** [x.toISOString().split('T')[0]]: the UTC calendar date. *)
Definition toISODate (i : instant) : date := fst i.

(** [x.setMonth(m)]: the local month is replaced, local year, day and
    time of day are kept. *)
Definition setMonth (tz : Z) (i : instant) (m : Z) : instant :=
  let l := LocalTime tz i in
  UTC tz (MakeDay (year (fst l)) m (day (fst l)), snd l).

(** JavaScript truthiness of an optional string: [undefined], [null]
    and the empty string are falsy. *)
Definition truthy (o : option string) : bool :=
  match o with
  | Some s => negb (s =? "")%string
  | None => false
  end.

(** Truthiness of an optional date field of a request body: a date is
    a non-empty string, so it is truthy exactly when it is there. *)
Definition present {A : Type} (o : option A) : bool :=
  match o with Some _ => true | None => false end.

(** [x || null] on an optional string. *)
Definition or_null (o : option string) : option string :=
  if truthy o then o else None.

(** [x || dflt] on an optional string. *)
Definition or_default (o : option string) (dflt : string) : string :=
  match o with
  | Some s => if (s =? "")%string then dflt else s
  | None => dflt
  end.

(** A lead time in a request body: a JSON number or a JSON string.  Of
    the strings the model has the empty one and those that spell an
    integer, as ["0"] or ["14"]; a string that spells no number would
    stay text in the INTEGER column and is left out. *)
Inductive lead_time : Type :=
| LeadNumber (n : Z)
| LeadNumeral (n : Z)
| LeadEmpty.

(** [x || dflt] on an optional lead time, as the INTEGER column stores
    it: [undefined], [null], the number [0] and the empty string are
    falsy; every other number is kept, and so is every other string, the
    string ["0"] included, which the column's affinity turns into the
    integer it spells. *)
Definition lead_or_default (o : option lead_time) (dflt : Z) : Z :=
  match o with
  | Some (LeadNumber n) => if n =? 0 then dflt else n
  | Some (LeadNumeral n) => n
  | Some LeadEmpty => dflt
  | None => dflt
  end.

(* ================================================================== *)
(** ** SQL values and three-valued conditions                           *)
(* ================================================================== *)

(** A nullable column is an [option]; a condition evaluates to TRUE,
    FALSE or NULL ([None]), and WHERE keeps a row only on TRUE. *)
Definition sql_and (a b : option bool) : option bool :=
  match a, b with
  | Some false, _ | _, Some false => Some false
  | Some true, Some true => Some true
  | _, _ => None
  end.

Definition sql_cmp (f : date -> date -> bool) (a b : option date) : option bool :=
  match a, b with
  | Some x, Some y => Some (f x y)
  | _, _ => None
  end.

Definition sql_lt : option date -> option date -> option bool := sql_cmp date_ltb.
Definition sql_le : option date -> option date -> option bool := sql_cmp date_leb.
Definition sql_ge (a b : option date) : option bool := sql_cmp date_leb b a.

Definition sql_is_not_null {A : Type} (a : option A) : option bool :=
  Some (match a with Some _ => true | None => false end).

(** [x BETWEEN lo AND hi] is [x >= lo AND x <= hi]. *)
Definition sql_between (x lo hi : option date) : option bool :=
  sql_and (sql_ge x lo) (sql_le x hi).

Definition sql_where (c : option bool) : bool :=
  match c with Some true => true | _ => false end.

(** SQLite's [date(x)] on a text [YYYY-MM-DD]: NULL unless the month
    is 1..12 and the day is 1..31; the date goes through the day count
    and comes back normalised, so that a day past the end of the month
    runs over into the next month ([date('2024-02-30')] is
    ['2024-03-01']). *)
Definition sql_date (x : option date) : option date :=
  match x with
  | Some d =>
      if (1 <=? month d) && (month d <=? 12) && (1 <=? day d) && (day d <=? 31)
      then Some (addDays (mkDate (year d) (month d) 1) (Z.to_nat (day d - 1)))
      else None
  | None => None
  end.

(** SQLite's [date(x, '+' || n || ' days')].  The modifier is the text
    ['+n days']; for a negative [n] it reads ['+-n days'], which is not a
    modifier, and the result is NULL. *)
Definition sql_date_plus_days (x : option date) (n : Z) : option date :=
  match sql_date x with
  | Some d => if n <? 0 then None else Some (addDays d (Z.to_nat n))
  | None => None
  end.

(* ================================================================== *)
(** ** The tables ([db/init.ts])                                        *)
(* ================================================================== *)

(** Rows carry the columns that the modelled code reads or writes;
    timestamps and free-text columns no handler below looks at are left
    out of the dogs table (weight, colour, microchip, photo, notes). *)

Record dog_row : Type := mkDog {
  d_id : string;
  d_user_id : string;
  d_name : string;
  d_breed : option string;
  d_date_of_birth : option date;
  d_gender : string;
  d_adoption_date : option date
}.

Record vaccination_row : Type := mkVaccination {
  v_id : string;
  v_dog_id : string;
  v_vaccine_name : string;
  v_date_administered : date;
  v_next_due_date : option date;
  v_administered_by : option string;
  v_lot_number : option string;
  v_notes : option string;
  v_reminder_sent : bool            (* BOOLEAN DEFAULT FALSE *)
}.

Record event_row : Type := mkEvent {
  e_id : string;
  e_user_id : string;
  e_dog_id : option string;
  e_title : string;
  e_description : option string;
  e_event_type : string;
  e_event_date : date;
  e_is_recurring : bool;            (* BOOLEAN DEFAULT FALSE *)
  e_recurrence_pattern : option string;
  e_reminder_days_before : Z;       (* INTEGER DEFAULT 1 *)
  e_is_active : bool                (* BOOLEAN DEFAULT TRUE *)
}.

Record medication_row : Type := mkMedication {
  m_id : string;
  m_dog_id : string;
  m_name : string;
  m_dosage : option string;
  m_frequency : option string;
  m_start_date : date;
  m_end_date : option date;
  m_is_active : bool
}.

Record ai_query_row : Type := mkAiQuery {
  q_id : string;
  q_user_id : string;
  q_dog_id : option string;
  q_query : string;
  q_response : string;
  q_provider : string;
  q_model : string;
  q_sources : list string;
  q_created_at : timestamp
}.

Record food_row : Type := mkFood {
  f_id : string;
  f_food_name : string;
  f_category : string;
  f_is_safe : bool;
  f_safety_level : string
}.

Record store : Type := mkStore {
  dogs : list dog_row;
  vaccinations : list vaccination_row;
  events : list event_row;
  medications : list medication_row;
  ai_queries : list ai_query_row;
  food_database : list food_row
}.

Definition set_dogs (s : store) (l : list dog_row) : store :=
  mkStore l (vaccinations s) (events s) (medications s) (ai_queries s) (food_database s).
Definition set_vaccinations (s : store) (l : list vaccination_row) : store :=
  mkStore (dogs s) l (events s) (medications s) (ai_queries s) (food_database s).
Definition set_events (s : store) (l : list event_row) : store :=
  mkStore (dogs s) (vaccinations s) l (medications s) (ai_queries s) (food_database s).
Definition set_medications (s : store) (l : list medication_row) : store :=
  mkStore (dogs s) (vaccinations s) (events s) l (ai_queries s) (food_database s).
Definition set_ai_queries (s : store) (l : list ai_query_row) : store :=
  mkStore (dogs s) (vaccinations s) (events s) (medications s) l (food_database s).
Definition set_food_database (s : store) (l : list food_row) : store :=
  mkStore (dogs s) (vaccinations s) (events s) (medications s) (ai_queries s) l.

Definition str_in (x : string) (l : list string) : bool :=
  existsb (String.eqb x) l.

(** CHECK(gender IN ...) and CHECK(event_type IN ...). *)
Definition gender_ok (g : string) : bool :=
  str_in g ["male"; "female"; "unknown"].

Definition event_type_ok (t : string) : bool :=
  str_in t ["birthday"; "adoption_anniversary"; "vet_appointment";
            "grooming"; "medication"; "custom"].

Definition has_dog (s : store) (id : string) : bool :=
  existsb (fun d => (d_id d =? id)%string) (dogs s).

(** An INSERT that breaks a constraint throws; [None] is the thrown
    exception, which every handler catches into a 500 response.  The
    constraints are the primary key, the CHECK on the column and the
    foreign key to [dogs] ([foreign_keys = ON]). *)
Definition insert_dog (r : dog_row) (s : store) : option store :=
  if has_dog s (d_id r) then None
  else if negb (gender_ok (d_gender r)) then None
  else Some (set_dogs s (dogs s ++ [r])).

Definition insert_vaccination (r : vaccination_row) (s : store) : option store :=
  if existsb (fun v => (v_id v =? v_id r)%string) (vaccinations s) then None
  else if negb (has_dog s (v_dog_id r)) then None
  else Some (set_vaccinations s (vaccinations s ++ [r])).

Definition insert_event (r : event_row) (s : store) : option store :=
  if existsb (fun e => (e_id e =? e_id r)%string) (events s) then None
  else if negb (event_type_ok (e_event_type r)) then None
  else if match e_dog_id r with Some d => negb (has_dog s d) | None => false end
       then None
  else Some (set_events s (events s ++ [r])).

Definition insert_medication (r : medication_row) (s : store) : option store :=
  if existsb (fun m => (m_id m =? m_id r)%string) (medications s) then None
  else if negb (has_dog s (m_dog_id r)) then None
  else Some (set_medications s (medications s ++ [r])).

Definition insert_ai_query (r : ai_query_row) (s : store) : option store :=
  if existsb (fun q => (q_id q =? q_id r)%string) (ai_queries s) then None
  else Some (set_ai_queries s (ai_queries s ++ [r])).

(** [SELECT * FROM dogs WHERE id = ? AND user_id = ?] with [.get]. *)
Definition find_owned_dog (s : store) (id user : string) : option dog_row :=
  find (fun d => (d_id d =? id)%string && (d_user_id d =? user)%string) (dogs s).

(** [SELECT * FROM vaccinations WHERE id = ?] with [.get]. *)
Definition find_vaccination (s : store) (id : string) : option vaccination_row :=
  find (fun v => (v_id v =? id)%string) (vaccinations s).

(** [SELECT v.* FROM vaccinations v JOIN dogs d ON v.dog_id = d.id
     WHERE v.id = ? AND d.user_id = ?] with [.get]. *)
Definition find_owned_vaccination (s : store) (id user : string)
  : option vaccination_row :=
  find (fun v => (v_id v =? id)%string
                 && existsb (fun d => (d_id d =? v_dog_id v)%string
                                      && (d_user_id d =? user)%string) (dogs s))
       (vaccinations s).

(* ================================================================== *)
(** ** The reminder scheduler ([services/scheduler.ts])                 *)
(* ================================================================== *)

Record UpcomingVaccination : Type := mkUpcomingVaccination {
  uv_id : string;
  uv_dog_name : string;
  uv_vaccine_name : string;
  uv_next_due_date : option date;
  uv_user_id : string
}.

Record UpcomingEvent : Type := mkUpcomingEvent {
  ue_id : string;
  ue_title : string;
  ue_event_date : date;
  ue_dog_name : option string;
  ue_user_id : string
}.

(** One [console.log('REMINDER: ...')] line, kept as the row it was
    printed for. *)
Inductive reminder : Type :=
| VaccinationReminder (vax : UpcomingVaccination)
| EventReminder (ev : UpcomingEvent).

(** The WHERE clause of [checkVaccinationReminders]:
    [v.next_due_date <= ? AND v.next_due_date >= ? AND v.reminder_sent = 0];
    its first two conjuncts are the look-ahead window. *)
Definition due_window_cond (upper lower : date) (next_due_date : option date)
  : option bool :=
  sql_and (sql_le next_due_date (Some upper)) (sql_ge next_due_date (Some lower)).

Definition due_vaccination_cond (upper lower : date) (v : vaccination_row) : option bool :=
  sql_and (due_window_cond upper lower (v_next_due_date v))
          (Some (negb (v_reminder_sent v))).

(** [... FROM vaccinations v JOIN dogs d ON v.dog_id = d.id WHERE ...]. *)
Definition due_vaccination_query (s : store) (upper lower : date)
  : list UpcomingVaccination :=
  flat_map
    (fun v =>
       if sql_where (due_vaccination_cond upper lower v)
       then map (fun d => mkUpcomingVaccination (v_id v) (d_name d) (v_vaccine_name v)
                            (v_next_due_date v) (d_user_id d))
                (filter (fun d => (d_id d =? v_dog_id v)%string) (dogs s))
       else [])
    (vaccinations s).

Definition with_reminder_sent (v : vaccination_row) : vaccination_row :=
  mkVaccination (v_id v) (v_dog_id v) (v_vaccine_name v) (v_date_administered v)
    (v_next_due_date v) (v_administered_by v) (v_lot_number v) (v_notes v) true.

(** [UPDATE vaccinations SET reminder_sent = 1 WHERE id = ?]. *)
Definition mark_reminder_sent (id : string) (s : store) : store :=
  set_vaccinations s
    (map (fun v => if (v_id v =? id)%string then with_reminder_sent v else v)
         (vaccinations s)).

Definition checkVaccinationReminders (tz : Z) (now : instant) (s : store)
  : list reminder * store :=
  let today := now in
  let reminderDate := setDate tz today (getDate tz today + 7) in
  let upcomingVaccinations :=
    due_vaccination_query s (toISODate reminderDate) (toISODate today) in
  fold_left
    (fun acc vax =>
       (fst acc ++ [VaccinationReminder vax], mark_reminder_sent (uv_id vax) (snd acc)))
    upcomingVaccinations ([], s).

(** The WHERE clause of [checkEventReminders]:
    [e.is_active = 1 AND date(e.event_date) BETWEEN date(?)
       AND date(?, '+' || e.reminder_days_before || ' days')]. *)
Definition event_window_cond (today : date) (e : event_row) : option bool :=
  sql_and (Some (e_is_active e))
          (sql_between (sql_date (Some (e_event_date e)))
                       (sql_date (Some today))
                       (sql_date_plus_days (Some today) (e_reminder_days_before e))).

(** [... FROM events e LEFT JOIN dogs d ON e.dog_id = d.id WHERE ...]:
    an event without a matching dog still yields one row, with a NULL
    [dog_name]. *)
Definition left_join_dog_names (s : store) (dog_id : option string) : list (option string) :=
  match dog_id with
  | Some id =>
      match filter (fun d => (d_id d =? id)%string) (dogs s) with
      | [] => [None]
      | ds => map (fun d => Some (d_name d)) ds
      end
  | None => [None]
  end.

Definition event_window_query (s : store) (today : date) : list UpcomingEvent :=
  flat_map
    (fun e =>
       if sql_where (event_window_cond today e)
       then map (fun n => mkUpcomingEvent (e_id e) (e_title e) (e_event_date e) n
                            (e_user_id e))
                (left_join_dog_names s (e_dog_id e))
       else [])
    (events s).

Definition checkEventReminders (now : instant) (s : store) : list reminder :=
  let today := now in
  map EventReminder (event_window_query s (toISODate today)).

(** The body of the daily cron job of [initScheduler]. *)
Definition dailyScan (tz : Z) (now : instant) (s : store) : list reminder * store :=
  let r := checkVaccinationReminders tz now s in
  (fst r ++ checkEventReminders now (snd r), snd r).

(* ================================================================== *)
(** ** Due-date classification                                          *)
(* ================================================================== *)

(** The code has no classifier function: an item's class is which query
    returns it.  [overdue_cond] is the WHERE clause of the overdue
    queries ([vaccinations/upcoming], [vaccinations/dog/:dogId],
    [health/summary]): [next_due_date < ? AND next_due_date IS NOT NULL];
    [window_cond] is the window of the event scan with the lead time
    [w]. *)
Definition overdue_cond (today : date) (target : option date) : option bool :=
  sql_and (sql_lt target (Some today)) (sql_is_not_null target).

Definition window_cond (today : date) (w : Z) (target : option date) : option bool :=
  sql_between (sql_date target) (sql_date (Some today))
              (sql_date_plus_days (Some today) w).

Inductive classification : Type :=
| overdue
| due_within_window
| not_due
| no_target.

(** The class of an item, read off the two conditions. *)
Definition classify (today : date) (target : option date) (window_days : Z)
  : classification :=
  match target with
  | None => no_target
  | Some _ =>
      if sql_where (overdue_cond today target) then overdue
      else if sql_where (window_cond today window_days target) then due_within_window
      else not_due
  end.

(* ================================================================== *)
(** ** HTTP responses                                                   *)
(* ================================================================== *)

(** The JSON bodies the modelled handlers send. *)
Inductive json : Type :=
| JError (error : string)
| JMessage (message : string)
| JDog (dog : dog_row)
| JDogCreated (message : string) (dog : option dog_row)
| JVaccinationList (all upcoming overdue : list vaccination_row) (total : nat)
| JVaccination (message : string) (vaccination : option vaccination_row)
| JUpcomingVaccinations (upcoming overdue : list (vaccination_row * string))
| JEvents (evs : list event_row)
| JEvent (message : string) (event : option event_row)
| JMedication (message : string) (medication : option medication_row)
| JFoodResults (results : list food_row) (query : string)
| JAnswer (answer : string) (sources : list string) (provider model : string)
| JHistory (history : list (ai_query_row * option string)).

Record response : Type := mkResponse { status : Z; body : json }.

(** Insertion sort for ORDER BY: stable, [leb] is the column order. *)
Fixpoint insert_sorted {A : Type} (leb : A -> A -> bool) (x : A) (l : list A) : list A :=
  match l with
  | [] => [x]
  | y :: l' => if leb x y then x :: l else y :: insert_sorted leb x l'
  end.

Definition order_by {A : Type} (leb : A -> A -> bool) (l : list A) : list A :=
  fold_right (insert_sorted leb) [] l.

(** [LIMIT n]: a negative [n] is no limit. *)
Definition sql_limit {A : Type} (n : Z) (l : list A) : list A :=
  if n <? 0 then l else firstn (Z.to_nat n) l.

(** Column order on a nullable date: NULL sorts first. *)
Definition opt_date_leb (a b : option date) : bool :=
  match a, b with
  | None, _ => true
  | Some _, None => false
  | Some x, Some y => date_leb x y
  end.

(* ================================================================== *)
(** ** Vaccinations router ([routes/vaccinations.ts])                   *)
(* ================================================================== *)

(** The body of a vaccination request.  A field that is [None] is
    missing or [null]; a date field that is there holds a date (other
    text, the empty string included, is outside the model). *)
Record vaccination_request : Type := mkVaccinationRequest {
  vq_dog_id : option string;
  vq_vaccine_name : option string;
  vq_date_administered : option date;
  vq_next_due_date : option date;
  vq_administered_by : option string;
  vq_lot_number : option string;
  vq_notes : option string
}.

(** [GET /api/vaccinations/dog/:dogId]. *)
Definition get_dog_vaccinations (user dogId : string) (now : instant) (s : store)
  : response :=
  match find_owned_dog s dogId user with
  | None => mkResponse 404 (JError "Dog not found")
  | Some _ =>
      let mine := filter (fun v => (v_dog_id v =? dogId)%string) (vaccinations s) in
      let all :=
        order_by (fun a b => date_leb (v_date_administered b) (v_date_administered a))
                 mine in
      let today := toISODate now in
      let by_due := fun a b => opt_date_leb (v_next_due_date a) (v_next_due_date b) in
      let upcoming :=
        order_by by_due
          (filter (fun v => sql_where (sql_ge (v_next_due_date v) (Some today))) mine) in
      let overdue_rows :=
        order_by by_due
          (filter (fun v => sql_where (overdue_cond today (v_next_due_date v))) mine) in
      mkResponse 200 (JVaccinationList all upcoming overdue_rows (List.length all))
  end.

(** [POST /api/vaccinations].  [id] and [event_id] are what the two
    calls of [uuidv4()] return. *)
Definition post_vaccination (id event_id : string) (user : string)
    (rq : vaccination_request) (s : store) : response * store :=
  let bad_request :=
    (mkResponse 400 (JError "dog_id, vaccine_name, and date_administered are required"), s) in
  if negb (truthy (vq_dog_id rq)) || negb (truthy (vq_vaccine_name rq))
     || negb (present (vq_date_administered rq))
  then bad_request
  else
  match vq_dog_id rq, vq_vaccine_name rq, vq_date_administered rq with
  | Some dog_id, Some vaccine_name, Some date_administered =>
      (* Verify dog belongs to user *)
      match find_owned_dog s dog_id user with
      | None => (mkResponse 404 (JError "Dog not found"), s)
      | Some _ =>
          let row := mkVaccination id dog_id vaccine_name date_administered
                       (vq_next_due_date rq) (or_null (vq_administered_by rq))
                       (or_null (vq_lot_number rq)) (or_null (vq_notes rq)) false in
          match insert_vaccination row s with
          | None => (mkResponse 500 (JError "Failed to add vaccination"), s)
          | Some s1 =>
              (* Create reminder event if next_due_date is set *)
              let created :=
                match vq_next_due_date rq with
                | Some next_due_date =>
                    insert_event
                      (mkEvent event_id user (Some dog_id)
                         (vaccine_name ++ " Vaccination Due")
                         (Some "Vaccination reminder for your dog")
                         "vet_appointment" next_due_date false None 14 true) s1
                | None => Some s1
                end in
              match created with
              | None => (mkResponse 500 (JError "Failed to add vaccination"), s1)
              | Some s2 =>
                  (mkResponse 201 (JVaccination "Vaccination recorded"
                                     (find_vaccination s2 id)), s2)
              end
          end
      end
  | _, _, _ => bad_request
  end.

Definition coalesce {A : Type} (x : option A) (old : A) : A :=
  match x with Some v => v | None => old end.

Definition coalesce_opt {A : Type} (x old : option A) : option A :=
  match x with Some v => Some v | None => old end.

(** The SET clause of [PUT /api/vaccinations/:id]: six COALESCE'd
    columns; [reminder_sent] is not among them. *)
Definition update_vaccination (rq : vaccination_request) (v : vaccination_row)
  : vaccination_row :=
  mkVaccination (v_id v) (v_dog_id v)
    (coalesce (vq_vaccine_name rq) (v_vaccine_name v))
    (coalesce (vq_date_administered rq) (v_date_administered v))
    (coalesce_opt (vq_next_due_date rq) (v_next_due_date v))
    (coalesce_opt (vq_administered_by rq) (v_administered_by v))
    (coalesce_opt (vq_lot_number rq) (v_lot_number v))
    (coalesce_opt (vq_notes rq) (v_notes v))
    (v_reminder_sent v).

(** [PUT /api/vaccinations/:id]. *)
Definition put_vaccination (user id : string) (rq : vaccination_request) (s : store)
  : response * store :=
  match find_owned_vaccination s id user with
  | None => (mkResponse 404 (JError "Vaccination record not found"), s)
  | Some _ =>
      let s1 := set_vaccinations s
                  (map (fun v => if (v_id v =? id)%string
                                 then update_vaccination rq v else v)
                       (vaccinations s)) in
      (mkResponse 200 (JVaccination "Vaccination updated" (find_vaccination s1 id)), s1)
  end.

(** [DELETE /api/vaccinations/:id]. *)
Definition delete_vaccination (user id : string) (s : store) : response * store :=
  match find_owned_vaccination s id user with
  | None => (mkResponse 404 (JError "Vaccination record not found"), s)
  | Some _ =>
      (mkResponse 200 (JMessage "Vaccination record deleted"),
       set_vaccinations s
         (filter (fun v => negb (v_id v =? id)%string) (vaccinations s)))
  end.

(** The two queries of [GET /api/vaccinations/upcoming], before
    ORDER BY: [vaccinations v JOIN dogs d ON v.dog_id = d.id
    WHERE d.user_id = ? AND ...]. *)
Definition user_vaccinations_where (s : store) (user : string)
    (cond : vaccination_row -> option bool) : list (vaccination_row * string) :=
  flat_map
    (fun v =>
       map (fun d => (v, d_name d))
           (filter (fun d => (d_id d =? v_dog_id v)%string
                             && sql_where (sql_and (Some (d_user_id d =? user)%string)
                                                   (cond v)))
                   (dogs s)))
    (vaccinations s).

Definition by_next_due (a b : vaccination_row * string) : bool :=
  opt_date_leb (v_next_due_date (fst a)) (v_next_due_date (fst b)).

(** [GET /api/vaccinations/upcoming]. *)
Definition get_upcoming_vaccinations (tz : Z) (user : string) (now : instant)
    (s : store) : response :=
  let today := toISODate now in
  let threeMonths := setMonth tz now (getMonth tz now + 3) in
  let upcoming :=
    order_by by_next_due
      (user_vaccinations_where s user
         (fun v => sql_and (sql_ge (v_next_due_date v) (Some today))
                           (sql_le (v_next_due_date v) (Some (toISODate threeMonths))))) in
  let overdue_rows :=
    order_by by_next_due
      (user_vaccinations_where s user
         (fun v => overdue_cond today (v_next_due_date v))) in
  mkResponse 200 (JUpcomingVaccinations upcoming overdue_rows).

(* ================================================================== *)
(** ** Dogs router ([routes/dogs.ts])                                   *)
(* ================================================================== *)

Record dog_request : Type := mkDogRequest {
  dq_name : option string;
  dq_breed : option string;
  dq_date_of_birth : option date;
  dq_gender : option string;
  dq_adoption_date : option date
}.

(** [GET /api/dogs/:id] (the allergy, condition and weight lists that
    decorate the dog are not modelled). *)
Definition get_dog (user id : string) (s : store) : response :=
  match find_owned_dog s id user with
  | None => mkResponse 404 (JError "Dog not found")
  | Some dog => mkResponse 200 (JDog dog)
  end.

(** The date computed for the birthday event and, by the same lines
    again, for the adoption anniversary event:
    [[
      const birthDate = new Date(date_of_birth);
      const thisYearBirthday =
        new Date(new Date().getFullYear(), birthDate.getMonth(), birthDate.getDate());
      if (thisYearBirthday < new Date()) {
        thisYearBirthday.setFullYear(thisYearBirthday.getFullYear() + 1);
      }
      ... thisYearBirthday.toISOString().split('T')[0]
    ]]
    The clock reads of one request are one instant [now]. *)
Definition anniversary_date (tz : Z) (now : instant) (source : date) : date :=
  let birthDate := Date_parse source in
  let thisYearBirthday :=
    Date_ymd tz (getFullYear tz now) (getMonth tz birthDate) (getDate tz birthDate) in
  let rolled :=
    if instant_ltb thisYearBirthday now
    then setFullYear tz thisYearBirthday (getFullYear tz thisYearBirthday + 1)
    else thisYearBirthday in
  toISODate rolled.

Definition birthday_event (id user dogId name : string) (event_date : date) : event_row :=
  mkEvent id user (Some dogId) (name ++ "'s Birthday") None "birthday"
          event_date true (Some "yearly") 7 true.

Definition anniversary_event (id user dogId name : string) (event_date : date) : event_row :=
  mkEvent id user (Some dogId) (name ++ "'s Gotcha Day") None "adoption_anniversary"
          event_date true (Some "yearly") 7 true.

Definition insert_if_some {A : Type} (x : option A) (mk : A -> event_row) (s : store)
  : option store :=
  match x with
  | Some a => insert_event (mk a) s
  | None => Some s
  end.

(** [POST /api/dogs] for a request without allergies, health
    conditions and weight (their tables are not modelled).  [dogId],
    [birthdayId] and [anniversaryId] are what [uuidv4()] returns. *)
Definition post_dog (dogId birthdayId anniversaryId : string) (tz : Z)
    (user : string) (now : instant) (rq : dog_request) (s : store)
  : response * store :=
  let failed := mkResponse 500 (JError "Failed to create dog profile") in
  match dq_name rq with
  | Some name =>
      if negb (truthy (Some name))
      then (mkResponse 400 (JError "Dog name is required"), s)
      else
      match insert_dog (mkDog dogId user name (or_null (dq_breed rq))
                          (dq_date_of_birth rq) (or_default (dq_gender rq) "unknown")
                          (dq_adoption_date rq)) s with
      | None => (failed, s)
      | Some s1 =>
          (* Create birthday event if date_of_birth provided *)
          match insert_if_some (dq_date_of_birth rq)
                  (fun b => birthday_event birthdayId user dogId name
                              (anniversary_date tz now b)) s1 with
          | None => (failed, s1)
          | Some s2 =>
              (* Create adoption anniversary event if adoption_date provided *)
              match insert_if_some (dq_adoption_date rq)
                      (fun a => anniversary_event anniversaryId user dogId name
                                  (anniversary_date tz now a)) s2 with
              | None => (failed, s2)
              | Some s3 =>
                  (mkResponse 201
                     (JDogCreated "Dog profile created"
                        (find (fun d => (d_id d =? dogId)%string) (dogs s3))), s3)
              end
          end
      end
  | None => (mkResponse 400 (JError "Dog name is required"), s)
  end.

(** The SET clause of [PUT /api/dogs/:id], on the modelled columns. *)
Definition update_dog (rq : dog_request) (d : dog_row) : dog_row :=
  mkDog (d_id d) (d_user_id d)
    (coalesce (dq_name rq) (d_name d))
    (coalesce_opt (dq_breed rq) (d_breed d))
    (coalesce_opt (dq_date_of_birth rq) (d_date_of_birth d))
    (coalesce (dq_gender rq) (d_gender d))
    (coalesce_opt (dq_adoption_date rq) (d_adoption_date d)).

(** [PUT /api/dogs/:id] for a request without a weight.  An UPDATE that
    breaks CHECK(gender IN ...) throws and changes nothing. *)
Definition put_dog (user id : string) (rq : dog_request) (s : store)
  : response * store :=
  match find_owned_dog s id user with
  | None => (mkResponse 404 (JError "Dog not found"), s)
  | Some dog =>
      if negb (gender_ok (coalesce (dq_gender rq) (d_gender dog)))
      then (mkResponse 500 (JError "Failed to update dog profile"), s)
      else
        let s1 := set_dogs s
                    (map (fun d => if (d_id d =? id)%string then update_dog rq d else d)
                         (dogs s)) in
        (mkResponse 200
           (JDogCreated "Dog profile updated"
              (find (fun d => (d_id d =? id)%string) (dogs s1))), s1)
  end.

(** [DELETE FROM dogs WHERE id = ?] with the foreign keys of the
    schema: vaccinations and medications go with the dog (ON DELETE
    CASCADE), events keep their row and lose the reference (ON DELETE SET
    NULL); [ai_queries.dog_id] is not a foreign key. *)
Definition delete_dog_cascade (id : string) (s : store) : store :=
  mkStore
    (filter (fun d => negb (d_id d =? id)%string) (dogs s))
    (filter (fun v => negb (v_dog_id v =? id)%string) (vaccinations s))
    (map (fun e =>
            match e_dog_id e with
            | Some d =>
                if (d =? id)%string
                then mkEvent (e_id e) (e_user_id e) None (e_title e) (e_description e)
                       (e_event_type e) (e_event_date e) (e_is_recurring e)
                       (e_recurrence_pattern e) (e_reminder_days_before e) (e_is_active e)
                else e
            | None => e
            end)
         (events s))
    (filter (fun m => negb (m_dog_id m =? id)%string) (medications s))
    (ai_queries s)
    (food_database s).

(** [DELETE /api/dogs/:id]. *)
Definition delete_dog (user id : string) (s : store) : response * store :=
  match find_owned_dog s id user with
  | None => (mkResponse 404 (JError "Dog not found"), s)
  | Some _ => (mkResponse 200 (JMessage "Dog profile deleted"), delete_dog_cascade id s)
  end.

(* ================================================================== *)
(** ** Events router ([routes/events.ts])                               *)
(* ================================================================== *)

Record event_request : Type := mkEventRequest {
  eq_dog_id : option string;
  eq_title : option string;
  eq_description : option string;
  eq_event_type : option string;
  eq_event_date : option date;
  eq_is_recurring : bool;
  eq_recurrence_pattern : option string;
  eq_reminder_days_before : option lead_time
}.

(** The row [POST /api/events] binds to its INSERT. *)
Definition event_of_request (id user title : string) (event_date : date)
    (rq : event_request) : event_row :=
  mkEvent id user (or_null (eq_dog_id rq)) title (or_null (eq_description rq))
    (or_default (eq_event_type rq) "custom") event_date
    (if eq_is_recurring rq then true else false)
    (or_null (eq_recurrence_pattern rq))
    (lead_or_default (eq_reminder_days_before rq) 1)
    true.    (* is_active: the column default *)

(** [POST /api/events]. *)
Definition post_event (id : string) (user : string) (rq : event_request) (s : store)
  : response * store :=
  let bad_request := (mkResponse 400 (JError "Title and event_date are required"), s) in
  if negb (truthy (eq_title rq)) || negb (present (eq_event_date rq))
  then bad_request
  else
  match eq_title rq, eq_event_date rq with
  | Some title, Some event_date =>
      (* Verify dog belongs to user if dog_id provided *)
      if truthy (eq_dog_id rq)
         && negb (present (find_owned_dog s (or_default (eq_dog_id rq) "") user))
      then (mkResponse 404 (JError "Dog not found"), s)
      else
      match insert_event (event_of_request id user title event_date rq) s with
      | None => (mkResponse 500 (JError "Failed to create event"), s)
      | Some s1 =>
          (mkResponse 201
             (JEvent "Event created" (find (fun e => (e_id e =? id)%string) (events s1))),
           s1)
      end
  | _, _ => bad_request
  end.

(** [GET /api/events/dog/:dogId]. *)
Definition get_dog_events (user dogId : string) (s : store) : response :=
  match find_owned_dog s dogId user with
  | None => mkResponse 404 (JError "Dog not found")
  | Some _ =>
      mkResponse 200
        (JEvents
           (order_by (fun a b => date_leb (e_event_date a) (e_event_date b))
              (filter (fun e => match e_dog_id e with
                                | Some d => (d =? dogId)%string
                                | None => false
                                end)
                      (events s))))
  end.

Record event_update : Type := mkEventUpdate {
  eu_title : option string;
  eu_description : option string;
  eu_event_type : option string;
  eu_event_date : option date;
  eu_is_recurring : option bool;
  eu_recurrence_pattern : option string;
  eu_reminder_days_before : option Z;
  eu_is_active : option bool
}.

(** The SET clause of [PUT /api/events/:id]. *)
Definition update_event (rq : event_update) (e : event_row) : event_row :=
  mkEvent (e_id e) (e_user_id e) (e_dog_id e)
    (coalesce (eu_title rq) (e_title e))
    (coalesce_opt (eu_description rq) (e_description e))
    (coalesce (eu_event_type rq) (e_event_type e))
    (coalesce (eu_event_date rq) (e_event_date e))
    (coalesce (eu_is_recurring rq) (e_is_recurring e))
    (coalesce_opt (eu_recurrence_pattern rq) (e_recurrence_pattern e))
    (coalesce (eu_reminder_days_before rq) (e_reminder_days_before e))
    (coalesce (eu_is_active rq) (e_is_active e)).

(** [SELECT * FROM events WHERE id = ? AND user_id = ?] with [.get]. *)
Definition find_owned_event (s : store) (id user : string) : option event_row :=
  find (fun e => (e_id e =? id)%string && (e_user_id e =? user)%string) (events s).

(** [PUT /api/events/:id].  An UPDATE that breaks CHECK(event_type IN
    ...) throws and changes nothing. *)
Definition put_event (user id : string) (rq : event_update) (s : store)
  : response * store :=
  match find_owned_event s id user with
  | None => (mkResponse 404 (JError "Event not found"), s)
  | Some old =>
      if negb (event_type_ok (coalesce (eu_event_type rq) (e_event_type old)))
      then (mkResponse 500 (JError "Failed to update event"), s)
      else
        let s1 := set_events s
                    (map (fun e => if (e_id e =? id)%string then update_event rq e else e)
                         (events s)) in
        (mkResponse 200
           (JEvent "Event updated" (find (fun e => (e_id e =? id)%string) (events s1))),
         s1)
  end.

(** [DELETE /api/events/:id]. *)
Definition delete_event (user id : string) (s : store) : response * store :=
  match find_owned_event s id user with
  | None => (mkResponse 404 (JError "Event not found"), s)
  | Some _ =>
      (mkResponse 200 (JMessage "Event deleted"),
       set_events s (filter (fun e => negb (e_id e =? id)%string) (events s)))
  end.

(* ================================================================== *)
(** ** Health router ([routes/health.ts])                               *)
(* ================================================================== *)

Record medication_request : Type := mkMedicationRequest {
  mq_dog_id : option string;
  mq_name : option string;
  mq_dosage : option string;
  mq_frequency : option string;
  mq_start_date : option date;
  mq_end_date : option date
}.

(** The reminder event [POST /api/health/medication] creates when the
    medication has a frequency; its [reminder_days_before] is 0. *)
Definition medication_event (id user dog_id name : string) (dosage : option string)
    (start_date : date) (frequency : string) : event_row :=
  mkEvent id user (Some dog_id)
    ("Give " ++ name ++ " medication")
    (Some ("Dosage: " ++ or_default dosage "As prescribed" ++ ". Frequency: " ++ frequency)%string)
    "medication" start_date true (Some frequency) 0 true.

(** [POST /api/health/medication]. *)
Definition post_medication (id event_id : string) (user : string)
    (rq : medication_request) (s : store) : response * store :=
  let bad_request :=
    (mkResponse 400 (JError "dog_id, name, and start_date are required"), s) in
  let failed := mkResponse 500 (JError "Failed to add medication") in
  if negb (truthy (mq_dog_id rq)) || negb (truthy (mq_name rq))
     || negb (present (mq_start_date rq))
  then bad_request
  else
  match mq_dog_id rq, mq_name rq, mq_start_date rq with
  | Some dog_id, Some name, Some start_date =>
      match find_owned_dog s dog_id user with
      | None => (mkResponse 404 (JError "Dog not found"), s)
      | Some _ =>
          match insert_medication
                  (mkMedication id dog_id name (or_null (mq_dosage rq))
                     (or_null (mq_frequency rq)) start_date (mq_end_date rq) true) s with
          | None => (failed, s)
          | Some s1 =>
              (* Create reminder event for medication if it has frequency *)
              match insert_if_some (or_null (mq_frequency rq))
                      (medication_event event_id user dog_id name (mq_dosage rq) start_date)
                      s1 with
              | None => (failed, s1)
              | Some s2 =>
                  (mkResponse 201
                     (JMedication "Medication added"
                        (find (fun m => (m_id m =? id)%string) (medications s2))), s2)
              end
          end
      end
  | _, _, _ => bad_request
  end.

(** The overdue count of [GET /api/health/summary] for one dog:
    [SELECT COUNT( * ) FROM vaccinations WHERE dog_id = ?
       AND next_due_date < date('now') AND next_due_date IS NOT NULL]. *)
Definition overdue_vaccination_count (s : store) (dog_id : string) (now : instant) : nat :=
  List.length
    (filter (fun v => (v_dog_id v =? dog_id)%string
                      && sql_where (overdue_cond (toISODate now) (v_next_due_date v)))
            (vaccinations s)).

(* ================================================================== *)
(** ** Food database ([db/init.ts], [routes/food.ts])                   *)
(* ================================================================== *)

Definition is_upper (c : ascii) : bool :=
  (65 <=? nat_of_ascii c)%nat && (nat_of_ascii c <=? 90)%nat.

Definition lower_ascii (c : ascii) : ascii :=
  if is_upper c then ascii_of_nat (nat_of_ascii c + 32) else c.

(** SQL [LOWER] and JavaScript [toLowerCase], on ASCII text. *)
Fixpoint LOWER (s : string) : string :=
  match s with
  | EmptyString => EmptyString
  | String c s' => String (lower_ascii c) (LOWER s')
  end.

(** SQLite's LIKE: [%] matches any run of characters, [_] any one
    character, and letters match without regard to ASCII case. *)
Fixpoint like_match (p : list ascii) (s : list ascii) {struct p} : bool :=
  match p with
  | [] => match s with [] => true | _ :: _ => false end
  | c :: p' =>
      if Ascii.eqb c "%"
      then (fix any_suffix (s0 : list ascii) : bool :=
              like_match p' s0
              || match s0 with
                 | [] => false
                 | _ :: s1 => any_suffix s1
                 end) s
      else match s with
           | [] => false
           | x :: s' =>
               (Ascii.eqb c "_" || Ascii.eqb (lower_ascii c) (lower_ascii x))
               && like_match p' s'
           end
  end.

Definition sql_like (value pattern : string) : bool :=
  like_match (list_ascii_of_string pattern) (list_ascii_of_string value).

(** An entry of [foodData] (the columns kept in [food_row]). *)
Record food_seed : Type := mkSeed {
  food_name : string;
  category : string;
  is_safe : bool;
  safety_level : string
}.

Definition foodData : list food_seed :=
  [ mkSeed "Carrots" "vegetable" true "safe";
    mkSeed "Blueberries" "fruit" true "safe";
    mkSeed "Chicken" "protein" true "safe";
    mkSeed "Peanut Butter" "other" true "safe_in_moderation";
    mkSeed "Pumpkin" "vegetable" true "safe";
    mkSeed "Sweet Potato" "vegetable" true "safe";
    mkSeed "Apples" "fruit" true "safe";
    mkSeed "Salmon" "protein" true "safe";
    mkSeed "Rice" "grain" true "safe";
    mkSeed "Watermelon" "fruit" true "safe";
    mkSeed "Green Beans" "vegetable" true "safe";
    mkSeed "Eggs" "protein" true "safe";
    mkSeed "Chocolate" "toxic" false "toxic";
    mkSeed "Grapes" "toxic" false "dangerous";
    mkSeed "Raisins" "toxic" false "dangerous";
    mkSeed "Onions" "toxic" false "toxic";
    mkSeed "Garlic" "toxic" false "toxic";
    mkSeed "Xylitol" "toxic" false "dangerous";
    mkSeed "Alcohol" "toxic" false "dangerous";
    mkSeed "Avocado" "toxic" false "toxic";
    mkSeed "Macadamia Nuts" "toxic" false "toxic";
    mkSeed "Caffeine" "toxic" false "toxic";
    mkSeed "Raw Yeast Dough" "toxic" false "dangerous";
    mkSeed "Cooked Bones" "toxic" false "dangerous" ].

Definition is_space (c : ascii) : bool :=
  let n := nat_of_ascii c in
  (n =? 32)%nat || ((9 <=? n)%nat && (n <=? 13)%nat).

(** [replace(/\s+/g, '-')]: every run of white space becomes one
    hyphen. *)
Fixpoint hyphenate (in_run : bool) (s : string) : string :=
  match s with
  | EmptyString => EmptyString
  | String c s' =>
      if is_space c
      then (if in_run then hyphenate true s' else String "-" (hyphenate true s'))
      else String c (hyphenate false s')
  end.

Definition food_id (name : string) : string := hyphenate false (LOWER name).

Definition safety_level_ok (l : string) : bool :=
  str_in l ["safe"; "safe_in_moderation"; "toxic"; "dangerous"; "varies"].

(** [INSERT OR IGNORE INTO food_database ...]: a row that breaks the
    primary key, the UNIQUE on [food_name] or the CHECK is skipped. *)
Definition insert_or_ignore_food (r : food_row) (s : store) : store :=
  if existsb (fun f => (f_id f =? f_id r)%string || (f_food_name f =? f_food_name r)%string)
             (food_database s)
     || negb (safety_level_ok (f_safety_level r))
  then s
  else set_food_database s (food_database s ++ [r]).

Definition populateFoodDatabase (s : store) : store :=
  fold_left
    (fun acc food =>
       insert_or_ignore_food
         (mkFood (food_id (food_name food)) (food_name food) (category food)
                 (is_safe food) (safety_level food)) acc)
    foodData s.

Definition empty_store : store := mkStore [] [] [] [] [] [].

(** The database right after [initDatabase] on a fresh file. *)
Definition seeded_store : store := populateFoodDatabase empty_store.

(** [GET /api/food/search?q=...]. *)
Definition food_search (q : option string) (s : store) : response :=
  match q with
  | Some q =>
      if negb (truthy (Some q))
      then mkResponse 400 (JError "Search query is required")
      else
        let pattern := ("%" ++ q ++ "%")%string in
        let foods :=
          order_by (fun a b => String.leb (f_food_name a) (f_food_name b))
            (filter (fun f => sql_like (LOWER (f_food_name f)) (LOWER pattern)
                              || sql_like (LOWER (f_category f)) (LOWER pattern))
                    (food_database s)) in
        mkResponse 200 (JFoodResults foods q)
  | None => mkResponse 400 (JError "Search query is required")
  end.

(* ================================================================== *)
(** ** AI router ([routes/ai.ts])                                       *)
(* ================================================================== *)

Record ai_answer : Type := mkAnswer {
  answer : string;
  sources : list string;
  provider : string;
  model : string
}.

Record ask_request : Type := mkAskRequest {
  aq_question : option string;
  aq_dog_id : option string;
  aq_provider : option string
}.

(** [aiService.askQuestion(question, provider, dogContext)], an external
    provider: [None] is a thrown error.  The dog context the handler
    builds (name, breed, age, conditions) is a function of the caller's
    own dog row, here handed over as it is. *)
Definition ai_service : Type :=
  string -> option string -> option dog_row -> option ai_answer.

(** [POST /api/ai/ask]. *)
Definition ai_ask (ask : ai_service) (id : string) (user : string) (now : instant)
    (rq : ask_request) (s : store) : response * store :=
  match aq_question rq with
  | Some question =>
      if negb (truthy (Some question))
      then (mkResponse 400 (JError "Question is required"), s)
      else
        (* Get dog context if dog_id provided *)
        let dogContext :=
          if truthy (aq_dog_id rq)
          then find_owned_dog s (or_default (aq_dog_id rq) "") user
          else None in
        match ask question (aq_provider rq) dogContext with
        | None => (mkResponse 500 (JError "Failed to process AI query"), s)
        | Some r =>
            (* Save query history *)
            match insert_ai_query
                    (mkAiQuery id user (or_null (aq_dog_id rq)) question
                       (answer r) (provider r) (model r) (sources r)
                       (CURRENT_TIMESTAMP now)) s with
            | None => (mkResponse 500 (JError "Failed to process AI query"), s)
            | Some s1 =>
                (mkResponse 200 (JAnswer (answer r) (sources r) (provider r) (model r)), s1)
            end
        end
  | None => (mkResponse 400 (JError "Question is required"), s)
  end.

(** [GET /api/ai/history?limit=..&dog_id=..]:
    [SELECT q.*, d.name as dog_name FROM ai_queries q
       LEFT JOIN dogs d ON q.dog_id = d.id
       WHERE q.user_id = ? [AND q.dog_id = ?]
       ORDER BY q.created_at DESC LIMIT ?].
    [limit] is [Number(req.query.limit)] for a query parameter that
    spells an integer.  [created_at] has whole seconds; rows of the same
    second come in the order of the table, as SQLite's sorter leaves
    them. *)
Definition ai_history (user : string) (dog_id : option string) (limit : option Z)
    (s : store) : response :=
  let mine :=
    filter (fun q =>
              (q_user_id q =? user)%string
              && (if truthy dog_id
                  then match q_dog_id q with
                       | Some d => (d =? or_default dog_id "")%string
                       | None => false
                       end
                  else true))
           (ai_queries s) in
  let joined :=
    flat_map (fun q => map (fun n => (q, n)) (left_join_dog_names s (q_dog_id q))) mine in
  let newest_first :=
    order_by (fun a b => timestamp_leb (q_created_at (fst b)) (q_created_at (fst a)))
             joined in
  mkResponse 200
    (JHistory (sql_limit (match limit with Some n => n | None => 20 end) newest_first)).

(* ================================================================== *)
(** ** The server as a state machine                                    *)
(* ================================================================== *)

(** The requests that write to the dogs, vaccinations, events,
    medications and query-log tables, and the daily scan; the remaining
    routes read, or write to tables that are not modelled.  Each request
    carries the authenticated user, its body and the identifiers
    [uuidv4()] hands out while it is served. *)
Inductive operation : Type :=
| OpPostDog (dogId birthdayId anniversaryId user : string) (now : instant)
            (rq : dog_request)
| OpPutDog (user id : string) (rq : dog_request)
| OpDeleteDog (user id : string)
| OpPostVaccination (id event_id user : string) (rq : vaccination_request)
| OpPutVaccination (user id : string) (rq : vaccination_request)
| OpDeleteVaccination (user id : string)
| OpPostEvent (id user : string) (rq : event_request)
| OpPutEvent (user id : string) (rq : event_update)
| OpDeleteEvent (user id : string)
| OpPostMedication (id event_id user : string) (rq : medication_request)
| OpAsk (ask : ai_service) (id user : string) (now : instant) (rq : ask_request)
| OpDailyScan (now : instant).

Definition step (tz : Z) (s : store) (op : operation) : store :=
  match op with
  | OpPostDog dogId birthdayId anniversaryId user now rq =>
      snd (post_dog dogId birthdayId anniversaryId tz user now rq s)
  | OpPutDog user id rq => snd (put_dog user id rq s)
  | OpDeleteDog user id => snd (delete_dog user id s)
  | OpPostVaccination id event_id user rq => snd (post_vaccination id event_id user rq s)
  | OpPutVaccination user id rq => snd (put_vaccination user id rq s)
  | OpDeleteVaccination user id => snd (delete_vaccination user id s)
  | OpPostEvent id user rq => snd (post_event id user rq s)
  | OpPutEvent user id rq => snd (put_event user id rq s)
  | OpDeleteEvent user id => snd (delete_event user id s)
  | OpPostMedication id event_id user rq => snd (post_medication id event_id user rq s)
  | OpAsk ask id user now rq => snd (ai_ask ask id user now rq s)
  | OpDailyScan now => snd (dailyScan tz now s)
  end.

(** The states a run goes through, the first one included. *)
Fixpoint trace (tz : Z) (s : store) (ops : list operation) : list store :=
  match ops with
  | [] => [s]
  | op :: ops' => s :: trace tz (step tz s op) ops'
  end.

(** The [reminder_sent] column of the vaccination [id], if the row is
    there. *)
Definition flag_in (l : list vaccination_row) (id : string) : option bool :=
  option_map v_reminder_sent (find (fun v => (v_id v =? id)%string) l).

Definition reminder_flag (s : store) (id : string) : option bool :=
  flag_in (vaccinations s) id.

(** The vaccination ids a list of reminders was printed for. *)
Definition reminded_ids (l : list reminder) : list string :=
  flat_map (fun r => match r with
                     | VaccinationReminder vax => [uv_id vax]
                     | EventReminder _ => []
                     end) l.

(** The event ids a list of reminders was printed for. *)
Definition reminded_event_ids (l : list reminder) : list string :=
  flat_map (fun r => match r with
                     | VaccinationReminder _ => []
                     | EventReminder ev => [ue_id ev]
                     end) l.

(** The two situations a caller cannot tell apart: the dog [dogId]
    is there but belongs to someone else, and there is no such dog. *)
Definition dog_of_another_user (s : store) (user dogId : string) : Prop :=
  (exists d, In d (dogs s) /\ d_id d = dogId)
  /\ forall d, In d (dogs s) -> d_id d = dogId -> d_user_id d <> user.

Definition no_such_dog (s : store) (dogId : string) : Prop :=
  forall d, In d (dogs s) -> d_id d <> dogId.

(** The answer of every route that looks a dog up and does not find it
    among the caller's. *)
Definition dog_not_found : response := mkResponse 404 (JError "Dog not found").

(** Primary keys are unique. *)
Definition primary_keys_ok (s : store) : Prop :=
  NoDup (map d_id (dogs s)) /\ NoDup (map v_id (vaccinations s))
  /\ NoDup (map e_id (events s)).

(* ================================================================== *)
(** ** A small database for the examples                                *)
(* ================================================================== *)

Definition rex : dog_row :=
  mkDog "dog-1" "alice" "Rex" None (Some (mkDate 2020 1 10)) "male" None.

Definition rabies_shot : vaccination_row :=
  mkVaccination "vax-1" "dog-1" "Rabies" (mkDate 2023 1 20) (Some (mkDate 2024 1 20))
    None None None false.

Definition pill_event : event_row :=
  medication_event "ev-1" "alice" "dog-1" "Apoquel" None (mkDate 2024 1 15) "daily".

Definition example_store : store :=
  mkStore [rex] [rabies_shot] [pill_event] [] [] [].

(** 15 January 2024, 09:00 UTC: the hour of the cron job. *)
Definition example_now : instant := (mkDate 2024 1 15, 32400000).

(** The owner moves the due date of the vaccination to March. *)
Definition move_due_date : vaccination_request :=
  mkVaccinationRequest None None None (Some (mkDate 2024 3 1)) None None None.

Definition booster_request : vaccination_request :=
  mkVaccinationRequest (Some "dog-1") (Some "DHPP") (Some (mkDate 2024 1 15))
    (Some (mkDate 2025 1 15)) None None None.

Definition booster_request_no_due_date : vaccination_request :=
  mkVaccinationRequest (Some "dog-1") (Some "DHPP") (Some (mkDate 2024 1 15))
    None None None None.



Definition pill_request : medication_request :=
  mkMedicationRequest (Some "dog-1") (Some "Apoquel") None (Some "daily")
    (Some (mkDate 2024 1 15)) None.

Definition new_dog_request (born adopted : option date) : dog_request :=
  mkDogRequest (Some "Bella") None born None adopted.

(** Two worlds for the caller ["bob"]: in the first ["dog-1"] is
    Alice's dog, in the second there is no such dog. *)
Definition world_with_foreign_dog : store := mkStore [rex] [] [] [] [] [].
Definition world_without_dog : store := empty_store.

Definition canned_answer : ai_service :=
  fun _ _ _ => Some (mkAnswer "Ask your vet." ["AKC"] "anthropic" "claude").

Definition bob_question : ask_request :=
  mkAskRequest (Some "Is rice safe?") (Some "dog-1") None.
(* ================================================================== *)
(** ** Further routes and helpers                                       *)
(* ================================================================== *)

(** What the handlers below send: a status code with the payload of
    the route, or an error body. *)
Inductive reply (A : Type) : Type :=
| Sent (code : Z) (payload : A)
| Refused (code : Z) (error : string).

Arguments Sent {A} code payload.
Arguments Refused {A} code error.

(** The days in the [k] calendar months that start with month index
    [m0] (0 is January, and an index past 11 runs into the next year)
    of the year [y]. *)
Fixpoint days_of_months (y m0 : Z) (k : nat) : nat :=
  match k with
  | O => O
  | S k' => (Z.to_nat (days_in_month (y + m0 / 12) (m0 mod 12 + 1))
             + days_of_months y (m0 + 1) k')%nat
  end.

(** The first query of [getUpcomingReminders], before ORDER BY. *)
Definition upcoming_vaccination_rows (s : store) (userId : string)
    (lower upper : date) : list UpcomingVaccination :=
  flat_map
    (fun v =>
       map (fun d => mkUpcomingVaccination (v_id v) (d_name d) (v_vaccine_name v)
                       (v_next_due_date v) (d_user_id d))
           (filter (fun d => (d_id d =? v_dog_id v)%string
                             && sql_where
                                  (sql_and (Some (d_user_id d =? userId)%string)
                                     (sql_and (sql_ge (v_next_due_date v) (Some lower))
                                              (sql_le (v_next_due_date v) (Some upper)))))
                   (dogs s)))
    (vaccinations s).

(** [... FROM events e LEFT JOIN dogs d ON e.dog_id = d.id WHERE ...]
    for a condition on the event alone, with the [dog_name] column. *)
Definition joined_events (s : store) (cond : event_row -> bool)
  : list (event_row * option string) :=
  flat_map
    (fun e => if cond e
              then map (fun n => (e, n)) (left_join_dog_names s (e_dog_id e))
              else [])
    (events s).

(** [e.user_id = ? AND e.is_active = 1 AND e.event_date >= ?
     AND e.event_date <= ?]. *)
Definition active_between (user : string) (lower upper : date) (e : event_row) : bool :=
  (e_user_id e =? user)%string && e_is_active e
  && date_leb lower (e_event_date e) && date_leb (e_event_date e) upper.

Definition by_event_date (a b : event_row * option string) : bool :=
  date_leb (e_event_date (fst a)) (e_event_date (fst b)).

(** [getUpcomingReminders(userId)] of the scheduler. *)
Definition getUpcomingReminders (tz : Z) (userId : string) (now : instant) (s : store)
  : list UpcomingVaccination * list UpcomingEvent :=
  let today := now in
  let nextMonth := setMonth tz today (getMonth tz today + 1) in
  let vaccinations :=
    order_by (fun a b => opt_date_leb (uv_next_due_date a) (uv_next_due_date b))
      (upcoming_vaccination_rows s userId (toISODate today) (toISODate nextMonth)) in
  let events :=
    map (fun p => mkUpcomingEvent (e_id (fst p)) (e_title (fst p))
                    (e_event_date (fst p)) (snd p) (e_user_id (fst p)))
        (order_by by_event_date
           (joined_events s
              (active_between userId (toISODate today) (toISODate nextMonth)))) in
  (vaccinations, events).

(** [GET /api/events/upcoming]: the pair is the [upcoming] and the
    [today] list of the body. *)
Definition get_upcoming_events (tz : Z) (user : string) (now : instant) (s : store)
  : list (event_row * option string) * list (event_row * option string) :=
  let today := toISODate now in
  let nextMonth := setDate tz now (getDate tz now + 30) in
  let events :=
    order_by by_event_date
      (joined_events s (active_between user today (toISODate nextMonth))) in
  (* Also get today's events *)
  let todayEvents :=
    joined_events s
      (fun e => (e_user_id e =? user)%string && e_is_active e
                && sql_where (sql_cmp date_eqb (sql_date (Some (e_event_date e)))
                                               (sql_date (Some today)))) in
  (events, todayEvents).

(** [GET /api/dogs] (without the allergy and condition lists):
    [SELECT * FROM dogs WHERE user_id = ? ORDER BY name ASC]. *)
Definition list_dogs (user : string) (s : store) : list dog_row :=
  order_by (fun a b => String.leb (d_name a) (d_name b))
    (filter (fun d => (d_user_id d =? user)%string) (dogs s)).

(** [SELECT m.* FROM medications m JOIN dogs d ON m.dog_id = d.id
     WHERE m.id = ? AND d.user_id = ?] with [.get]. *)
Definition find_owned_medication (s : store) (id user : string)
  : option medication_row :=
  find (fun m => (m_id m =? id)%string
                 && existsb (fun d => (d_id d =? m_dog_id m)%string
                                      && (d_user_id d =? user)%string) (dogs s))
       (medications s).

(** [ORDER BY is_active DESC, start_date DESC]. *)
Definition by_active_then_start (a b : medication_row) : bool :=
  if Bool.eqb (m_is_active a) (m_is_active b)
  then date_leb (m_start_date b) (m_start_date a)
  else m_is_active a.

(** [GET /api/health/medications/dog/:dogId]: the payload is
    [medications], [active] and [inactive]. *)
Definition get_dog_medications (user dogId : string) (s : store)
  : reply (list medication_row * list medication_row * list medication_row) :=
  match find_owned_dog s dogId user with
  | None => Refused 404 "Dog not found"
  | Some _ =>
      let medications :=
        order_by by_active_then_start
          (filter (fun m => (m_dog_id m =? dogId)%string) (medications s)) in
      let active := filter (fun m => m_is_active m) medications in
      let inactive := filter (fun m => negb (m_is_active m)) medications in
      Sent 200 (medications, active, inactive)
  end.

Record medication_update : Type := mkMedicationUpdate {
  mu_name : option string;
  mu_dosage : option string;
  mu_frequency : option string;
  mu_start_date : option date;
  mu_end_date : option date;
  mu_is_active : option bool
}.

(** The SET clause of [PUT /api/health/medication/:id], on the
    modelled columns. *)
Definition update_medication (rq : medication_update) (m : medication_row)
  : medication_row :=
  mkMedication (m_id m) (m_dog_id m)
    (coalesce (mu_name rq) (m_name m))
    (coalesce_opt (mu_dosage rq) (m_dosage m))
    (coalesce_opt (mu_frequency rq) (m_frequency m))
    (coalesce (mu_start_date rq) (m_start_date m))
    (coalesce_opt (mu_end_date rq) (m_end_date m))
    (coalesce (mu_is_active rq) (m_is_active m)).

(** [PUT /api/health/medication/:id]. *)
Definition put_medication (user id : string) (rq : medication_update) (s : store)
  : reply (option medication_row) * store :=
  match find_owned_medication s id user with
  | None => (Refused 404 "Medication not found", s)
  | Some _ =>
      let s1 := set_medications s
                  (map (fun m => if (m_id m =? id)%string
                                 then update_medication rq m else m)
                       (medications s)) in
      (Sent 200 (find (fun m => (m_id m =? id)%string) (medications s1)), s1)
  end.

(** [DELETE /api/health/medication/:id]. *)
Definition delete_medication (user id : string) (s : store)
  : reply string * store :=
  match find_owned_medication s id user with
  | None => (Refused 404 "Medication not found", s)
  | Some _ =>
      (Sent 200 "Medication deleted",
       set_medications s
         (filter (fun m => negb (m_id m =? id)%string) (medications s)))
  end.

(** [GET /api/food/:foodName] and the look-up of
    [GET /api/ai/food-check/:foodName]:
    [SELECT * FROM food_database WHERE LOWER(food_name) = LOWER(?)]
    with [.get]. *)
Definition find_food_by_name (s : store) (foodName : string) : option food_row :=
  find (fun f => (LOWER (f_food_name f) =? LOWER foodName)%string) (food_database s).

Definition get_food (foodName : string) (s : store) : reply food_row :=
  match find_food_by_name s foodName with
  | None => Refused 404 "Food not found in database"
  | Some food => Sent 200 food
  end.

(** [foods.map(f => ({ ...f, is_safe: b }))]. *)
Definition with_is_safe (b : bool) (f : food_row) : food_row :=
  mkFood (f_id f) (f_food_name f) (f_category f) b (f_safety_level f).

Definition by_food_name (a b : food_row) : bool :=
  String.leb (f_food_name a) (f_food_name b).

(** [ORDER BY safety_level DESC, food_name ASC]. *)
Definition by_level_desc_then_name (a b : food_row) : bool :=
  if (f_safety_level a =? f_safety_level b)%string
  then String.leb (f_food_name a) (f_food_name b)
  else String.ltb (f_safety_level b) (f_safety_level a).

(** [GET /api/food/safe]. *)
Definition get_safe_foods (s : store) : list food_row :=
  map (with_is_safe true)
      (order_by by_food_name (filter (fun f => f_is_safe f) (food_database s))).

(** [GET /api/food/toxic]. *)
Definition get_toxic_foods (s : store) : list food_row :=
  map (with_is_safe false)
      (order_by by_level_desc_then_name
         (filter (fun f => negb (f_is_safe f)) (food_database s))).

(** The body of [POST /api/food], on the modelled columns; a field that
    is [None] is missing from the body. *)
Record food_request : Type := mkFoodRequest {
  fq_food_name : option string;
  fq_category : option string;
  fq_is_safe : option bool;
  fq_safety_level : option string
}.

(** A plain INSERT into [food_database]: it throws on the primary key,
    on UNIQUE([food_name]) and on the CHECK of [safety_level]. *)
Definition insert_food (r : food_row) (s : store) : option store :=
  if existsb (fun f => (f_id f =? f_id r)%string || (f_food_name f =? f_food_name r)%string)
             (food_database s)
     || negb (safety_level_ok (f_safety_level r))
  then None
  else Some (set_food_database s (food_database s ++ [r])).

(** [POST /api/food]: the payload is [message] and [id]. *)
Definition post_food (rq : food_request) (s : store)
  : reply (string * string) * store :=
  let bad_request :=
    (Refused 400 "food_name, is_safe, and safety_level are required", s) in
  if negb (truthy (fq_food_name rq)) || negb (present (fq_is_safe rq))
     || negb (truthy (fq_safety_level rq))
  then bad_request
  else
  match fq_food_name rq, fq_is_safe rq, fq_safety_level rq with
  | Some name, Some safe, Some level =>
      let id := food_id name in
      (* Check if food already exists *)
      if existsb (fun f => (f_id f =? id)%string) (food_database s)
      then (Refused 409 "Food already exists in database", s)
      else
        match insert_food
                (mkFood id name (or_default (fq_category rq) "other")
                        (if safe then true else false) level) s with
        | None => (Refused 500 "Failed to add food", s)
        | Some s1 => (Sent 201 ("Food added to database", id), s1)
        end
  | _, _, _ => bad_request
  end.

(** Every row got its id from its name, as both writers of the table
    compute it. *)
Definition food_ids_derived (s : store) : Prop :=
  forall f, In f (food_database s) -> f_id f = food_id (f_food_name f).

(** The two bodies of [GET /api/ai/food-check/:foodName]. *)
Inductive food_verdict : Type :=
| FromDatabase (food : string) (safe : bool) (level : string)
| FromAI (food ai_response : string) (cited : list string) (by_provider : string).

(** [GET /api/ai/food-check/:foodName]; a question without a provider
    and without a dog goes to the service when the table has no row. *)
Definition food_check (ask : ai_service) (foodName : string) (s : store)
  : reply food_verdict :=
  (* First check our database *)
  match find_food_by_name s foodName with
  | Some dbFood =>
      Sent 200 (FromDatabase foodName (f_is_safe dbFood) (f_safety_level dbFood))
  | None =>
      (* If not in database, ask AI *)
      match ask ("Is " ++ foodName
                 ++ " safe for dogs to eat? Please provide a brief, direct answer with safety information and sources.")%string
                None None with
      | None => Refused 500 "Failed to check food safety"
      | Some r => Sent 200 (FromAI foodName (answer r) (sources r) (provider r))
      end
  end.

(** The two clients of [AIService]: each is there when its API key
    is. *)
Record AIService : Type := mkAIService {
  openai : bool;
  anthropic : bool
}.

Inductive client : Type := OpenAI | Anthropic.

(** The provider [askQuestion] hands the prompt to; [None] is the
    thrown [No AI provider configured].  [default_provider] is
    [process.env.DEFAULT_AI_PROVIDER]. *)
Definition askQuestion_provider (this : AIService)
    (requested default_provider : option string) : option client :=
  let selectedProvider :=
    or_default requested (or_default default_provider "anthropic") in
  if (selectedProvider =? "openai")%string && openai this then Some OpenAI
  else if (selectedProvider =? "anthropic")%string && anthropic this then Some Anthropic
  else if anthropic this then Some Anthropic
  else if openai this then Some OpenAI
  else None.

Definition getAvailableProviders (this : AIService) : list client :=
  (if openai this then [OpenAI] else []) ++ (if anthropic this then [Anthropic] else []).

(** The authenticated user of a request; the daily scan has none. *)
Definition caller (op : operation) : option string :=
  match op with
  | OpPostDog _ _ _ user _ _ => Some user
  | OpPutDog user _ _ => Some user
  | OpDeleteDog user _ => Some user
  | OpPostVaccination _ _ user _ => Some user
  | OpPutVaccination user _ _ => Some user
  | OpDeleteVaccination user _ => Some user
  | OpPostEvent _ user _ => Some user
  | OpPutEvent user _ _ => Some user
  | OpDeleteEvent user _ => Some user
  | OpPostMedication _ _ user _ => Some user
  | OpAsk _ _ user _ _ => Some user
  | OpDailyScan _ => None
  end.

(** A row of another user: the dog is not [user]'s, the vaccination
    and the medication hang on no dog of [user], the event is not
    [user]'s and hangs on no dog of [user]. *)
Definition foreign_dog (user : string) (d : dog_row) : Prop :=
  d_user_id d <> user.

Definition on_foreign_dog (s : store) (user dog_id : string) : Prop :=
  forall d, In d (dogs s) -> d_id d = dog_id -> d_user_id d <> user.

Definition foreign_event (s : store) (user : string) (e : event_row) : Prop :=
  e_user_id e <> user
  /\ forall dog_id, e_dog_id e = Some dog_id -> on_foreign_dog s user dog_id.

(** The rows of the other users are still there, as they were. *)
Definition others_rows_kept (user : string) (s s' : store) : Prop :=
  (forall d, In d (dogs s) -> foreign_dog user d -> In d (dogs s'))
  /\ (forall v, In v (vaccinations s) -> on_foreign_dog s user (v_dog_id v) ->
                In v (vaccinations s'))
  /\ (forall m, In m (medications s) -> on_foreign_dog s user (m_dog_id m) ->
                In m (medications s'))
  /\ (forall e, In e (events s) -> foreign_event s user e -> In e (events s'))
  /\ (forall q, In q (ai_queries s) -> In q (ai_queries s')).

(** Every table of [s'] is the table of [s] with rows appended. *)
Definition grows (s s' : store) : Prop :=
  (exists l, dogs s' = dogs s ++ l)
  /\ (exists l, vaccinations s' = vaccinations s ++ l)
  /\ (exists l, events s' = events s ++ l)
  /\ (exists l, medications s' = medications s ++ l)
  /\ (exists l, ai_queries s' = ai_queries s ++ l)
  /\ food_database s' = food_database s.

(** No inactive medication comes before an active one. *)
Fixpoint actives_first (l : list medication_row) : Prop :=
  match l with
  | [] => True
  | x :: l' =>
      (m_is_active x = false -> Forall (fun y => m_is_active y = false) l')
      /\ actives_first l'
  end.

(** The condition under which [INSERT OR IGNORE] skips the row. *)
Definition food_row_ignored (r : food_row) (s : store) : bool :=
  existsb (fun f => (f_id f =? f_id r)%string || (f_food_name f =? f_food_name r)%string)
          (food_database s)
  || negb (safety_level_ok (f_safety_level r)).

(** The row [populateFoodDatabase] binds for an entry of [foodData]. *)
Definition seed_row (food : food_seed) : food_row :=
  mkFood (food_id (food_name food)) (food_name food) (category food)
         (is_safe food) (safety_level food).

(** [b] occurs in [a] as a run of consecutive characters. *)
Definition contains (a b : string) : Prop :=
  exists pre suf : string, a = (pre ++ b ++ suf)%string.

(** The text has none of the two wildcards of LIKE. *)
Definition no_wildcard (q : string) : Prop :=
  forall c, In c (list_ascii_of_string q) -> c <> "%"%char /\ c <> "_"%char.

(** No row points at a dog that is not there (the foreign keys of the
    schema). *)
Definition references_ok (s : store) : Prop :=
  (forall v, In v (vaccinations s) -> has_dog s (v_dog_id v) = true)
  /\ (forall m, In m (medications s) -> has_dog s (m_dog_id m) = true)
  /\ (forall e d, In e (events s) -> e_dog_id e = Some d -> has_dog s d = true).

(** The constraints of the schema on the modelled tables. *)
Definition consistent (s : store) : Prop :=
  primary_keys_ok s
  /\ NoDup (map m_id (medications s)) /\ NoDup (map q_id (ai_queries s))
  /\ references_ok s.

(* ================================================================== *)
(** * Lemmas                                                            *)
(* ================================================================== *)

(** ** The calendar *)

Lemma date_eta (d : date) : mkDate (year d) (month d) (day d) = d.
Proof. destruct d; reflexivity. Qed.

Lemma date_ext (a b : date) :
  year a = year b -> month a = month b -> day a = day b -> a = b.
Proof. destruct a, b; simpl; intros; subst; reflexivity. Qed.

Lemma date_eqb_eq (a b : date) : date_eqb a b = true <-> a = b.
Proof.
  unfold date_eqb. rewrite !andb_true_iff, !Z.eqb_eq. split.
  - intros [[Hy Hm] Hd]. now apply date_ext.
  - intros ->. auto.
Qed.

Lemma date_ltb_lt (a b : date) : date_ltb a b = true <-> date_lt a b.
Proof.
  unfold date_ltb, date_lt.
  rewrite !orb_true_iff, !andb_true_iff, !orb_true_iff, !andb_true_iff,
    !Z.ltb_lt, !Z.eqb_eq.
  tauto.
Qed.

Lemma date_leb_le (a b : date) : date_leb a b = true <-> date_le a b.
Proof.
  unfold date_leb, date_le. now rewrite orb_true_iff, date_ltb_lt, date_eqb_eq.
Qed.

Lemma date_le_refl (a : date) : date_le a a.
Proof. now right. Qed.

Lemma date_lt_trans (a b c : date) : date_lt a b -> date_lt b c -> date_lt a c.
Proof. unfold date_lt. lia. Qed.

Lemma date_lt_irrefl (a : date) : ~ date_lt a a.
Proof. unfold date_lt. lia. Qed.

Lemma date_le_trans (a b c : date) : date_le a b -> date_le b c -> date_le a c.
Proof.
  intros [H1 | ->] [H2 | ->]; [left|left|left|right];
    eauto using date_lt_trans.
Qed.

Lemma date_lt_le_trans (a b c : date) : date_lt a b -> date_le b c -> date_lt a c.
Proof. intros H1 [H2 | ->]; eauto using date_lt_trans. Qed.

Lemma date_le_lt_trans (a b c : date) : date_le a b -> date_lt b c -> date_lt a c.
Proof. intros [H1 | ->] H2; eauto using date_lt_trans. Qed.

Lemma date_lt_not_le (a b : date) : date_lt a b -> ~ date_le b a.
Proof.
  intros H [H' | ->].
  - exact (date_lt_irrefl _ (date_lt_trans _ _ _ H H')).
  - exact (date_lt_irrefl _ H).
Qed.

Lemma date_ltb_false_le (a b : date) : date_ltb a b = false <-> date_le b a.
Proof.
  rewrite <- not_true_iff_false, date_ltb_lt. unfold date_le, date_lt. split.
  - intros H.
    destruct (Z.eq_dec (year a) (year b)), (Z.eq_dec (month a) (month b)),
      (Z.eq_dec (day a) (day b)); try (left; lia).
    right. symmetry. now apply date_ext.
  - intros [H | ->]; lia.
Qed.

Lemma date_leb_false_lt (a b : date) : date_leb a b = false <-> date_lt b a.
Proof.
  rewrite <- not_true_iff_false, date_leb_le. unfold date_le, date_lt. split.
  - intros H.
    destruct (Z.eq_dec (year a) (year b)), (Z.eq_dec (month a) (month b)),
      (Z.eq_dec (day a) (day b)); try lia.
    exfalso. apply H. right. now apply date_ext.
  - intros H [H' | ->]; lia.
Qed.

Lemma valid_dateb_valid (d : date) : valid_dateb d = true <-> valid_date d.
Proof.
  unfold valid_dateb, valid_date.
  rewrite !andb_true_iff, !Z.leb_le. tauto.
Qed.

Lemma days_in_month_bounds (y m : Z) : 28 <= days_in_month y m <= 31.
Proof.
  unfold days_in_month.
  destruct (m =? 2); [destruct (is_leap y); lia|].
  destruct ((m =? 4) || (m =? 6) || (m =? 9) || (m =? 11)); lia.
Qed.

Lemma days_in_december (y : Z) : days_in_month y 12 = 31.
Proof. reflexivity. Qed.

Lemma valid_nextDay (d : date) : valid_date d -> valid_date (nextDay d).
Proof.
  unfold valid_date, nextDay. intros [Hm Hd].
  destruct (Z.ltb_spec (day d) (days_in_month (year d) (month d))); simpl.
  - lia.
  - destruct (Z.ltb_spec (month d) 12); simpl.
    + pose proof (days_in_month_bounds (year d) (month d + 1)). lia.
    + pose proof (days_in_month_bounds (year d + 1) 1). lia.
Qed.

Lemma valid_prevDay (d : date) : valid_date d -> valid_date (prevDay d).
Proof.
  unfold valid_date, prevDay. intros [Hm Hd].
  destruct (Z.ltb_spec 1 (day d)); simpl.
  - lia.
  - destruct (Z.ltb_spec 1 (month d)); simpl.
    + pose proof (days_in_month_bounds (year d) (month d - 1)). lia.
    + rewrite days_in_december. lia.
Qed.

Lemma lt_nextDay (d : date) : valid_date d -> date_lt d (nextDay d).
Proof.
  unfold valid_date, nextDay, date_lt. intros [Hm Hd].
  destruct (Z.ltb_spec (day d) (days_in_month (year d) (month d))); simpl.
  - lia.
  - destruct (Z.ltb_spec (month d) 12); simpl; lia.
Qed.

Lemma prevDay_nextDay (d : date) : valid_date d -> prevDay (nextDay d) = d.
Proof.
  unfold valid_date, nextDay, prevDay. intros [Hm Hd].
  destruct (Z.ltb_spec (day d) (days_in_month (year d) (month d))); simpl.
  - destruct (Z.ltb_spec 1 (day d + 1)); [|lia].
    apply date_ext; simpl; lia.
  - destruct (Z.ltb_spec (month d) 12); simpl.
    + destruct (Z.ltb_spec 1 (month d + 1)); [|lia].
      apply date_ext; simpl; try lia.
      replace (month d + 1 - 1) with (month d) by lia. lia.
    + apply date_ext; simpl; try lia.
      assert (month d = 12) as E by lia. rewrite E in *.
      rewrite days_in_december in *. lia.
Qed.

Lemma nextDay_prevDay (d : date) : valid_date d -> nextDay (prevDay d) = d.
Proof.
  unfold valid_date, nextDay, prevDay. intros [Hm Hd].
  destruct (Z.ltb_spec 1 (day d)); simpl.
  - destruct (Z.ltb_spec (day d - 1) (days_in_month (year d) (month d))); [|lia].
    apply date_ext; simpl; lia.
  - destruct (Z.ltb_spec 1 (month d)); simpl.
    + rewrite Z.ltb_irrefl.
      destruct (Z.ltb_spec (month d - 1) 12); [|lia].
      apply date_ext; simpl; lia.
    + apply date_ext; simpl; lia.
Qed.

Lemma lt_prevDay (d : date) : valid_date d -> date_lt (prevDay d) d.
Proof.
  intros H. rewrite <- (nextDay_prevDay d H) at 2.
  apply lt_nextDay, valid_prevDay, H.
Qed.

Lemma addDays_S (d : date) (n : nat) : addDays d (S n) = nextDay (addDays d n).
Proof. reflexivity. Qed.

Lemma addDays_nextDay (d : date) (n : nat) :
  addDays (nextDay d) n = nextDay (addDays d n).
Proof.
  induction n as [|n IH]; [reflexivity|].
  now rewrite !addDays_S, IH.
Qed.

Lemma addDays_add (d : date) (n m : nat) :
  addDays d (n + m) = addDays (addDays d n) m.
Proof.
  induction n as [|n IH]; [reflexivity|].
  now rewrite Nat.add_succ_l, !addDays_S, IH, addDays_nextDay.
Qed.

Lemma valid_addDays (d : date) (n : nat) : valid_date d -> valid_date (addDays d n).
Proof.
  intros H. induction n as [|n IH]; [exact H|].
  rewrite addDays_S. now apply valid_nextDay.
Qed.

Lemma le_addDays (d : date) (n : nat) : valid_date d -> date_le d (addDays d n).
Proof.
  intros H. induction n as [|n IH]; [apply date_le_refl|].
  rewrite addDays_S. left.
  eapply date_le_lt_trans; [exact IH|].
  apply lt_nextDay, valid_addDays, H.
Qed.

Lemma lt_addDays (d : date) (n m : nat) :
  valid_date d -> (n < m)%nat -> date_lt (addDays d n) (addDays d m).
Proof.
  intros H Hnm.
  replace m with (n + S (m - S n))%nat by lia.
  rewrite addDays_add, addDays_S.
  eapply date_le_lt_trans.
  - apply (le_addDays (addDays d n) (m - S n)), valid_addDays, H.
  - apply lt_nextDay, valid_addDays, valid_addDays, H.
Qed.

Lemma addDays_le_mono (d : date) (n m : nat) :
  valid_date d -> (n <= m)%nat -> date_le (addDays d n) (addDays d m).
Proof.
  intros H Hnm. destruct (Nat.eq_dec n m) as [->|Hne].
  - apply date_le_refl.
  - left. apply lt_addDays; [exact H | lia].
Qed.

(** Inside a month, adding days only moves the day field. *)
Lemma addDays_first_of_month (y m : Z) (k : nat) :
  Z.of_nat k < days_in_month y m ->
  addDays (mkDate y m 1) k = mkDate y m (1 + Z.of_nat k).
Proof.
  induction k as [|k IH]; intros Hk; [reflexivity|].
  rewrite addDays_S, IH by lia.
  unfold nextDay; cbn [year month day].
  destruct (Z.ltb_spec (1 + Z.of_nat k) (days_in_month y m)); [|lia].
  f_equal. lia.
Qed.

(** From here on days are added through the lemmas above, not by
    unfolding the iteration. *)
#[global] Opaque addDays.

Lemma addDays_0 (d : date) : addDays d 0 = d.
Proof. vm_compute. reflexivity. Qed.

Lemma month_index (m : Z) :
  1 <= m <= 12 -> (m - 1) / 12 = 0 /\ (m - 1) mod 12 + 1 = m.
Proof.
  intros H. split.
  - apply Z.div_small. lia.
  - rewrite Z.mod_small; lia.
Qed.

(** [MakeDay] on the fields of a valid date, with [k] more days. *)
Lemma MakeDay_valid (d : date) (k : Z) :
  valid_date d -> 0 <= k ->
  MakeDay (year d) (month d - 1) (day d + k) = addDays d (Z.to_nat k).
Proof.
  intros [Hm Hd] Hk. unfold MakeDay.
  destruct (month_index (month d) Hm) as [-> ->].
  rewrite Z.add_0_r.
  replace (Z.to_nat (day d + k - 1)) with (Z.to_nat (day d - 1) + Z.to_nat k)%nat by lia.
  rewrite addDays_add, addDays_first_of_month by lia.
  f_equal. apply date_ext; cbn [year month day]; lia.
Qed.

(** ** Time zones *)

Lemma valid_carry (d : date) (t : Z) :
  valid_date d -> - msPerDay <= t < 2 * msPerDay -> valid_instant (carry d t).
Proof.
  unfold carry, valid_instant, msPerDay. intros Hd Ht.
  destruct (Z.ltb_spec t 0); simpl.
  - split; [now apply valid_prevDay | lia].
  - destruct (Z.leb_spec 86400000 t); simpl.
    + split; [now apply valid_nextDay | lia].
    + split; [exact Hd | lia].
Qed.

Lemma valid_LocalTime (tz : Z) (i : instant) :
  valid_tz tz -> valid_instant i -> valid_instant (LocalTime tz i).
Proof.
  unfold valid_tz, valid_instant, LocalTime. intros Htz [Hd Ht].
  apply valid_carry; [exact Hd|]. unfold msPerDay, msPerMinute in *. lia.
Qed.

(** Moving the local calendar day by [k] days moves the UTC calendar day
    by [k] days and keeps the time of day, whatever the offset. *)
Lemma UTC_addDays_LocalTime (tz : Z) (i : instant) (k : nat) :
  valid_tz tz -> valid_instant i ->
  UTC tz (addDays (fst (LocalTime tz i)) k, snd (LocalTime tz i))
  = (addDays (fst i) k, snd i).
Proof.
  unfold valid_tz, valid_instant, UTC, LocalTime. destruct i as [d t].
  cbn [fst snd]. intros Htz [Hd Ht].
  unfold carry, msPerDay, msPerMinute in *.
  destruct (Z.ltb_spec (t + tz * 60000) 0); cbn [fst snd].
  - destruct (Z.ltb_spec (t + tz * 60000 + 86400000 - tz * 60000) 0); [lia|].
    destruct (Z.leb_spec 86400000 (t + tz * 60000 + 86400000 - tz * 60000)); [|lia].
    rewrite <- addDays_nextDay, nextDay_prevDay by exact Hd.
    f_equal. lia.
  - destruct (Z.leb_spec 86400000 (t + tz * 60000)); cbn [fst snd].
    + destruct (Z.ltb_spec (t + tz * 60000 - 86400000 - tz * 60000) 0); [|lia].
      rewrite addDays_nextDay, prevDay_nextDay by (apply valid_addDays, Hd).
      f_equal. lia.
    + destruct (Z.ltb_spec (t + tz * 60000 - tz * 60000) 0); [lia|].
      destruct (Z.leb_spec 86400000 (t + tz * 60000 - tz * 60000)); [lia|].
      f_equal. lia.
Qed.

(** [reminderDate.setDate(reminderDate.getDate() + k)] is [k] calendar
    days later, at the same time of day. *)
Lemma setDate_getDate_plus (tz : Z) (i : instant) (k : Z) :
  valid_tz tz -> valid_instant i -> 0 <= k ->
  setDate tz i (getDate tz i + k) = (addDays (fst i) (Z.to_nat k), snd i).
Proof.
  intros Htz Hi Hk. unfold setDate, getDate.
  rewrite MakeDay_valid by (auto; apply (valid_LocalTime tz i Htz Hi)).
  now apply UTC_addDays_LocalTime.
Qed.

(** ** SQL conditions *)

Lemma sql_date_valid (d : date) : valid_date d -> sql_date (Some d) = Some d.
Proof.
  intros [Hm Hd]. unfold sql_date.
  pose proof (days_in_month_bounds (year d) (month d)).
  destruct (Z.leb_spec 1 (month d)); [|lia].
  destruct (Z.leb_spec (month d) 12); [|lia].
  destruct (Z.leb_spec 1 (day d)); [|lia].
  destruct (Z.leb_spec (day d) 31); [|lia].
  cbn [andb]. rewrite addDays_first_of_month by lia. f_equal.
  apply date_ext; cbn [year month day]; lia.
Qed.

(** What [date(x)] gives is a date of the calendar, on or after the
    date as it is written, and the written date itself when that is in
    the calendar. *)
Lemma sql_date_normalised (t t' : date) :
  sql_date (Some t) = Some t' ->
  valid_date t' /\ date_le t t' /\ (valid_date t -> t' = t).
Proof.
  intros H. split; [|split].
  - unfold sql_date in H.
    destruct (Z.leb_spec 1 (month t)); [|discriminate].
    destruct (Z.leb_spec (month t) 12); [|discriminate].
    destruct (_ && _) in H; [|discriminate]. injection H as <-.
    apply valid_addDays. split; cbn [year month day]; [lia|].
    pose proof (days_in_month_bounds (year t) (month t)). lia.
  - unfold sql_date in H.
    destruct (Z.leb_spec 1 (month t)) as [Hm1|]; [|discriminate].
    destruct (Z.leb_spec (month t) 12) as [Hm2|]; [|discriminate].
    destruct (Z.leb_spec 1 (day t)) as [Hd1|]; [|discriminate].
    destruct (Z.leb_spec (day t) 31) as [Hd2|]; [|discriminate].
    cbn [andb] in H. injection H as <-.
    pose proof (days_in_month_bounds (year t) (month t)) as Hb.
    set (n := days_in_month (year t) (month t)) in *.
    destruct (Z.le_gt_cases (day t) n) as [Hin | Hout].
    + rewrite addDays_first_of_month by (fold n; lia). right.
      apply date_ext; cbn [year month day]; lia.
    + left.
      replace (Z.to_nat (day t - 1))
        with (S (Z.to_nat (n - 1)) + Z.to_nat (day t - 1 - n))%nat by lia.
      rewrite addDays_add, addDays_S, addDays_first_of_month by (fold n; lia).
      eapply date_lt_le_trans; [|apply le_addDays].
      * unfold nextDay, date_lt; cbn [year month day]. fold n.
        replace (1 + Z.of_nat (Z.to_nat (n - 1))) with n by lia.
        rewrite Z.ltb_irrefl.
        destruct (Z.ltb_spec (month t) 12); cbn [year month day]; lia.
      * assert (V : valid_date (mkDate (year t) (month t) n)).
        { split; cbn [year month day]; [lia | fold n; lia]. }
        apply valid_nextDay in V. revert V.
        replace (1 + Z.of_nat (Z.to_nat (n - 1))) with n by lia. trivial.
  - intros V. rewrite (sql_date_valid t V) in H. congruence.
Qed.

Lemma sql_date_plus_days_Some (x : option date) (d : date) (w : Z) :
  sql_date x = Some d -> 0 <= w ->
  sql_date_plus_days x w = Some (addDays d (Z.to_nat w)).
Proof.
  intros H Hw. unfold sql_date_plus_days. rewrite H.
  destruct (Z.ltb_spec w 0); [lia | reflexivity].
Qed.

Lemma sql_date_plus_days_valid (d : date) (w : Z) :
  valid_date d -> 0 <= w ->
  sql_date_plus_days (Some d) w = Some (addDays d (Z.to_nat w)).
Proof.
  intros Hv Hw. apply sql_date_plus_days_Some; [apply sql_date_valid; exact Hv | exact Hw].
Qed.

Lemma sql_date_plus_days_negative (x : option date) (w : Z) :
  w < 0 -> sql_date_plus_days x w = None.
Proof.
  intros Hw. unfold sql_date_plus_days. destruct (sql_date x); [|reflexivity].
  destruct (Z.ltb_spec w 0); [reflexivity | lia].
Qed.

Lemma sql_where_Some (b : bool) : sql_where (Some b) = b.
Proof. now destruct b. Qed.

Lemma sql_where_and (a b : option bool) :
  sql_where (sql_and a b) = true <-> sql_where a = true /\ sql_where b = true.
Proof. destruct a as [[|]|], b as [[|]|]; simpl; intuition congruence. Qed.

Lemma sql_where_le (a : option date) (b : date) :
  sql_where (sql_le a (Some b)) = true <-> exists x, a = Some x /\ date_le x b.
Proof.
  destruct a as [x|]; simpl.
  - destruct (date_leb x b) eqn:E.
    + apply date_leb_le in E. split; [eauto | reflexivity].
    + split; [discriminate|]. intros (y & [= <-] & H).
      apply date_leb_le in H. congruence.
  - split; [discriminate | intros (y & [=] & _)].
Qed.

Lemma sql_where_ge (a : option date) (b : date) :
  sql_where (sql_ge a (Some b)) = true <-> exists x, a = Some x /\ date_le b x.
Proof.
  destruct a as [x|]; simpl.
  - destruct (date_leb b x) eqn:E.
    + apply date_leb_le in E. split; [eauto | reflexivity].
    + split; [discriminate|]. intros (y & [= <-] & H).
      apply date_leb_le in H. congruence.
  - split; [discriminate | intros (y & [=] & _)].
Qed.

Lemma overdue_cond_spec (today : date) (target : option date) :
  sql_where (overdue_cond today target) = true
  <-> exists t, target = Some t /\ date_lt t today.
Proof.
  unfold overdue_cond. destruct target as [t|]; simpl.
  - destruct (date_ltb t today) eqn:E; simpl.
    + apply date_ltb_lt in E. split; [eauto | reflexivity].
    + split; [discriminate|]. intros (y & [= <-] & H).
      apply date_ltb_lt in H. congruence.
  - split; [discriminate | intros (y & [=] & _)].
Qed.


Lemma window_cond_negative (today : date) (w : Z) (target : option date) :
  w < 0 -> sql_where (window_cond today w target) = false.
Proof.
  intros Hw. unfold window_cond, sql_between.
  rewrite sql_date_plus_days_negative by exact Hw.
  destruct (sql_ge (sql_date target) (sql_date (Some today))) as [[|]|],
    (sql_date target); reflexivity.
Qed.

(** The window condition in full: the lead time must not be negative,
    the target must be a date SQLite accepts, and the date it is read as
    must lie in the window. *)
Lemma window_cond_iff (today t : date) (w : Z) :
  valid_date today ->
  (sql_where (window_cond today w (Some t)) = true
   <-> 0 <= w /\ exists t', sql_date (Some t) = Some t'
                            /\ date_le today t'
                            /\ date_le t' (addDays today (Z.to_nat w))).
Proof.
  intros Hv. destruct (Z.lt_ge_cases w 0) as [Hneg | Hpos].
  - rewrite window_cond_negative by exact Hneg. split; [discriminate | lia].
  - unfold window_cond, sql_between.
    rewrite (sql_date_plus_days_valid today w Hv) by lia.
    rewrite (sql_date_valid today Hv).
    rewrite sql_where_and, sql_where_ge, sql_where_le. split.
    + intros [(x & Hx & H1) (y & Hy & H2)]. rewrite Hx in Hy. injection Hy as <-.
      split; [lia|]. exists x. auto.
    + intros (_ & t' & Ht & H1 & H2). split; exists t'; auto.
Qed.

Lemma due_window_cond_spec (upper lower : date) (next_due_date : option date) :
  sql_where (due_window_cond upper lower next_due_date) = true
  <-> exists nd, next_due_date = Some nd /\ date_le lower nd /\ date_le nd upper.
Proof.
  unfold due_window_cond. rewrite sql_where_and, sql_where_le, sql_where_ge. split.
  - intros [(x & Hx & H1) (y & Hy & H2)].
    exists x. rewrite Hx in Hy. injection Hy as <-. auto.
  - intros (nd & Hnd & H1 & H2). split; exists nd; auto.
Qed.

Lemma due_vaccination_cond_spec (upper lower : date) (v : vaccination_row) :
  sql_where (due_vaccination_cond upper lower v) = true
  <-> v_reminder_sent v = false
      /\ exists nd, v_next_due_date v = Some nd /\ date_le lower nd /\ date_le nd upper.
Proof.
  unfold due_vaccination_cond.
  rewrite sql_where_and, due_window_cond_spec, sql_where_Some.
  destruct (v_reminder_sent v); simpl; intuition congruence.
Qed.

(** ** The classifier *)

Lemma classify_overdue_iff (today : date) (target : option date) (w : Z) :
  classify today target w = overdue
  <-> exists t, target = Some t /\ date_lt t today.
Proof.
  rewrite <- overdue_cond_spec. unfold classify.
  destruct target as [t|].
  - destruct (sql_where (overdue_cond today (Some t))).
    + tauto.
    + destruct (sql_where (window_cond today w (Some t))); split; discriminate.
  - simpl. split; discriminate.
Qed.



(** ** Lists and keys *)

Lemma str_in_In (x : string) (l : list string) : str_in x l = true <-> In x l.
Proof.
  unfold str_in. rewrite existsb_exists. split.
  - intros (y & Hy & E). apply String.eqb_eq in E. now subst.
  - intros H. exists x. split; [exact H | apply String.eqb_refl].
Qed.

Lemma key_injective {A : Type} (key : A -> string) (l : list A) (a b : A) :
  NoDup (map key l) -> In a l -> In b l -> key a = key b -> a = b.
Proof.
  induction l as [|x l IH]; simpl; [tauto|].
  intros Hnd Ha Hb E. apply NoDup_cons_iff in Hnd as [Hx Hnd].
  destruct Ha as [<-|Ha], Hb as [<-|Hb]; auto.
  - exfalso. apply Hx. rewrite E. now apply in_map.
  - exfalso. apply Hx. rewrite <- E. now apply in_map.
Qed.

Lemma filter_key_at_most_one {A : Type} (key : A -> string) (l : list A) (x : string) :
  NoDup (map key l) ->
  (List.length (filter (fun a => (key a =? x)%string) l) <= 1)%nat.
Proof.
  induction l as [|a l IH]; simpl; [lia|].
  intros Hnd. apply NoDup_cons_iff in Hnd as [Ha Hnd].
  destruct (String.eqb_spec (key a) x) as [E|E]; [|auto].
  simpl. replace (filter (fun a0 => (key a0 =? x)%string) l) with (@nil A); [simpl; lia|].
  symmetry. destruct (filter _ l) as [|b r] eqn:F; [reflexivity|].
  exfalso. assert (In b (filter (fun a0 => (key a0 =? x)%string) l)) as Hb
    by (rewrite F; now left).
  apply filter_In in Hb as [Hb Hk]. apply String.eqb_eq in Hk.
  apply Ha. rewrite E, <- Hk. now apply in_map.
Qed.

Lemma find_key_map {A : Type} (key : A -> string) (g : A -> A) (l : list A) (x : string) :
  (forall a, key (g a) = key a) ->
  find (fun a => (key a =? x)%string) (map g l)
  = option_map g (find (fun a => (key a =? x)%string) l).
Proof.
  intros Hg. induction l as [|a l IH]; simpl; [reflexivity|].
  rewrite Hg. destruct (key a =? x)%string; [reflexivity | exact IH].
Qed.

Lemma find_key_In {A : Type} (key : A -> string) (l : list A) (a : A) :
  In a l -> exists b, find (fun c => (key c =? key a)%string) l = Some b /\ key b = key a.
Proof.
  intros Ha. destruct (find (fun c => (key c =? key a)%string) l) as [b|] eqn:F.
  - exists b. split; [reflexivity|].
    apply find_some in F as [_ E]. now apply String.eqb_eq in E.
  - pose proof (find_none _ _ F a Ha) as E. simpl in E.
    rewrite String.eqb_refl in E. discriminate.
Qed.

Lemma insert_sorted_In {A : Type} (leb : A -> A -> bool) (x y : A) (l : list A) :
  In y (insert_sorted leb x l) <-> y = x \/ In y l.
Proof.
  induction l as [|z l IH]; simpl.
  - intuition.
  - destruct (leb x z); simpl; [intuition|]. rewrite IH. intuition.
Qed.

Lemma order_by_In {A : Type} (leb : A -> A -> bool) (y : A) (l : list A) :
  In y (order_by leb l) <-> In y l.
Proof.
  unfold order_by. induction l as [|x l IH]; simpl; [tauto|].
  rewrite insert_sorted_In, IH. intuition.
Qed.

(** ** The scheduler *)

Lemma scan_fold (l : list UpcomingVaccination) (acc : list reminder) (s : store) :
  fold_left
    (fun a vax =>
       (fst a ++ [VaccinationReminder vax], mark_reminder_sent (uv_id vax) (snd a)))
    l (acc, s)
  = (acc ++ map VaccinationReminder l,
     fold_left (fun s0 vax => mark_reminder_sent (uv_id vax) s0) l s).
Proof.
  revert acc s. induction l as [|x l IH]; intros acc s; simpl.
  - now rewrite app_nil_r.
  - rewrite IH, <- app_assoc. reflexivity.
Qed.

Lemma id_with_reminder_sent (v : vaccination_row) : v_id (with_reminder_sent v) = v_id v.
Proof. reflexivity. Qed.

Lemma mark_fold_vaccinations (l : list UpcomingVaccination) (s : store) :
  vaccinations (fold_left (fun s0 vax => mark_reminder_sent (uv_id vax) s0) l s)
  = map (fun v => if str_in (v_id v) (map uv_id l) then with_reminder_sent v else v)
        (vaccinations s).
Proof.
  revert s. induction l as [|x l IH]; intros s; simpl.
  - symmetry. erewrite map_ext; [apply map_id|]. reflexivity.
  - rewrite IH. unfold mark_reminder_sent at 1. simpl. rewrite map_map.
    apply map_ext. intros v. unfold str_in. cbn [map existsb].
    destruct (v_id v =? uv_id x)%string eqn:E; cbn [orb].
    + rewrite id_with_reminder_sent.
      destruct (existsb (String.eqb (v_id v)) (map uv_id l)); reflexivity.
    + reflexivity.
Qed.

Lemma mark_fold_others (l : list UpcomingVaccination) (s : store) :
  let s' := fold_left (fun s0 vax => mark_reminder_sent (uv_id vax) s0) l s in
  dogs s' = dogs s /\ events s' = events s /\ medications s' = medications s
  /\ ai_queries s' = ai_queries s /\ food_database s' = food_database s.
Proof.
  revert s. induction l as [|x l IH]; intros s; simpl; [tauto|].
  destruct (IH (mark_reminder_sent (uv_id x) s)) as (H1 & H2 & H3 & H4 & H5).
  simpl in *. now rewrite H1, H2, H3, H4, H5.
Qed.

Lemma reminded_ids_app (a b : list reminder) :
  reminded_ids (a ++ b) = reminded_ids a ++ reminded_ids b.
Proof. apply flat_map_app. Qed.

Lemma reminded_ids_vaccinations (l : list UpcomingVaccination) :
  reminded_ids (map VaccinationReminder l) = map uv_id l.
Proof. induction l as [|x l IH]; simpl; [reflexivity | now rewrite IH]. Qed.

Lemma reminded_ids_events (l : list UpcomingEvent) :
  reminded_ids (map EventReminder l) = [].
Proof. induction l as [|x l IH]; simpl; [reflexivity | exact IH]. Qed.

Lemma reminded_event_ids_app (a b : list reminder) :
  reminded_event_ids (a ++ b) = reminded_event_ids a ++ reminded_event_ids b.
Proof. apply flat_map_app. Qed.

Lemma reminded_event_ids_vaccinations (l : list UpcomingVaccination) :
  reminded_event_ids (map VaccinationReminder l) = [].
Proof. induction l as [|x l IH]; simpl; [reflexivity | exact IH]. Qed.

Lemma reminded_event_ids_events (l : list UpcomingEvent) :
  reminded_event_ids (map EventReminder l) = map ue_id l.
Proof. induction l as [|x l IH]; simpl; [reflexivity | now rewrite IH]. Qed.

Lemma scan_log (tz : Z) (now : instant) (s : store) :
  fst (checkVaccinationReminders tz now s)
  = map VaccinationReminder
      (due_vaccination_query s (toISODate (setDate tz now (getDate tz now + 7)))
                             (toISODate now)).
Proof. unfold checkVaccinationReminders. now rewrite scan_fold. Qed.

Lemma scan_vaccinations (tz : Z) (now : instant) (s : store) :
  vaccinations (snd (checkVaccinationReminders tz now s))
  = map (fun v =>
           if str_in (v_id v) (reminded_ids (fst (checkVaccinationReminders tz now s)))
           then with_reminder_sent v else v)
        (vaccinations s).
Proof.
  rewrite scan_log, reminded_ids_vaccinations.
  unfold checkVaccinationReminders. rewrite scan_fold. simpl.
  apply mark_fold_vaccinations.
Qed.

Lemma scan_others (tz : Z) (now : instant) (s : store) :
  let s' := snd (checkVaccinationReminders tz now s) in
  dogs s' = dogs s /\ events s' = events s /\ medications s' = medications s
  /\ ai_queries s' = ai_queries s /\ food_database s' = food_database s.
Proof.
  unfold checkVaccinationReminders. rewrite scan_fold. simpl.
  apply mark_fold_others.
Qed.

Lemma In_due_vaccination_query (s : store) (upper lower : date) (r : UpcomingVaccination) :
  In r (due_vaccination_query s upper lower)
  <-> exists v d,
        In v (vaccinations s) /\ In d (dogs s) /\ d_id d = v_dog_id v
        /\ sql_where (due_vaccination_cond upper lower v) = true
        /\ r = mkUpcomingVaccination (v_id v) (d_name d) (v_vaccine_name v)
                 (v_next_due_date v) (d_user_id d).
Proof.
  unfold due_vaccination_query. rewrite in_flat_map. split.
  - intros (v & Hv & Hr).
    destruct (sql_where (due_vaccination_cond upper lower v)) eqn:C; [|destruct Hr].
    apply in_map_iff in Hr as (d & <- & Hd). apply filter_In in Hd as [Hd E].
    apply String.eqb_eq in E. exists v, d. auto.
  - intros (v & d & Hv & Hd & E & C & ->). exists v. split; [exact Hv|].
    rewrite C. apply in_map_iff. exists d. split; [reflexivity|].
    apply filter_In. split; [exact Hd | now apply String.eqb_eq].
Qed.

Lemma due_vaccination_query_ids_NoDup (s : store) (upper lower : date) :
  NoDup (map d_id (dogs s)) -> NoDup (map v_id (vaccinations s)) ->
  NoDup (map uv_id (due_vaccination_query s upper lower)).
Proof.
  intros Hd. unfold due_vaccination_query.
  induction (vaccinations s) as [|v vs IH]; simpl; intros Hv; [constructor|].
  apply NoDup_cons_iff in Hv as [Hv Hvs]. rewrite map_app.
  apply NoDup_app.
  - destruct (sql_where (due_vaccination_cond upper lower v)); [|constructor].
    pose proof (filter_key_at_most_one d_id (dogs s) (v_dog_id v) Hd) as L.
    destruct (filter (fun d => (d_id d =? v_dog_id v)%string) (dogs s)) as [|a [|b r]];
      simpl in *; [constructor | | lia].
    constructor; [intros [] | constructor].
  - exact (IH Hvs).
  - intros a Ha Hb. apply Hv.
    assert (a = v_id v) as ->.
    { destruct (sql_where (due_vaccination_cond upper lower v)); [|destruct Ha].
      rewrite map_map in Ha. apply in_map_iff in Ha as (d & <- & _). reflexivity. }
    apply in_map_iff in Hb as (r & <- & Hr). apply in_flat_map in Hr as (v' & Hv' & Hr).
    destruct (sql_where (due_vaccination_cond upper lower v')); [|destruct Hr].
    apply in_map_iff in Hr as (d & <- & _). simpl. now apply in_map.
Qed.

Lemma In_event_window_query (s : store) (today : date) (r : UpcomingEvent) :
  In r (event_window_query s today)
  <-> exists e n,
        In e (events s) /\ sql_where (event_window_cond today e) = true
        /\ In n (left_join_dog_names s (e_dog_id e))
        /\ r = mkUpcomingEvent (e_id e) (e_title e) (e_event_date e) n (e_user_id e).
Proof.
  unfold event_window_query. rewrite in_flat_map. split.
  - intros (e & He & Hr).
    destruct (sql_where (event_window_cond today e)) eqn:C; [|destruct Hr].
    apply in_map_iff in Hr as (n & <- & Hn). exists e, n. auto.
  - intros (e & n & He & C & Hn & ->). exists e. split; [exact He|].
    rewrite C. apply in_map_iff. exists n. auto.
Qed.

Lemma left_join_dog_names_inhabited (s : store) (x : option string) :
  exists n, In n (left_join_dog_names s x).
Proof.
  unfold left_join_dog_names. destruct x as [id|]; [|exists None; now left].
  destruct (filter (fun d => (d_id d =? id)%string) (dogs s)) as [|d ds].
  - exists None. now left.
  - exists (Some (d_name d)). now left.
Qed.

Lemma left_join_dog_names_same_dogs (s s' : store) (x : option string) :
  dogs s' = dogs s -> left_join_dog_names s' x = left_join_dog_names s x.
Proof. intros E. unfold left_join_dog_names. now rewrite E. Qed.

Lemma event_window_cond_unfold (today : date) (e : event_row) :
  sql_where (event_window_cond today e) = true
  <-> e_is_active e = true
      /\ sql_where (window_cond today (e_reminder_days_before e) (Some (e_event_date e)))
         = true.
Proof.
  unfold event_window_cond, window_cond. rewrite sql_where_and. simpl.
  destruct (e_is_active e); intuition congruence.
Qed.

Lemma event_in_window_reminded (now : instant) (s : store) (e : event_row) :
  In e (events s) -> sql_where (event_window_cond (toISODate now) e) = true ->
  In (e_id e) (reminded_event_ids (checkEventReminders now s))
  /\ exists n, In (EventReminder (mkUpcomingEvent (e_id e) (e_title e) (e_event_date e)
                                    n (e_user_id e)))
                  (checkEventReminders now s).
Proof.
  intros He C. unfold checkEventReminders.
  destruct (left_join_dog_names_inhabited s (e_dog_id e)) as (n & Hn).
  assert (In (mkUpcomingEvent (e_id e) (e_title e) (e_event_date e) n (e_user_id e))
             (event_window_query s (toISODate now))) as Hin.
  { apply In_event_window_query. exists e, n. auto. }
  split.
  - rewrite reminded_event_ids_events. apply in_map_iff.
    eexists. split; [|exact Hin]. reflexivity.
  - exists n. apply in_map_iff. eexists. split; [reflexivity | exact Hin].
Qed.

Lemma date_le_antisym (a b : date) : date_le a b -> date_le b a -> a = b.
Proof.
  intros [H1 | ->] H2; [|reflexivity].
  exfalso. exact (date_lt_not_le _ _ H1 H2).
Qed.

Ltac calendar_facts :=
  unfold valid_instant, valid_date, valid_tz, msPerDay; cbn; lia.

(* ================================================================== *)
(** * Theorems                                                          *)
(* ================================================================== *)



(** C2.  An item is overdue exactly when it has a target date and that
    date is strictly before today: the day before [today] is overdue,
    [today] itself is not, and a missing target is [no_target], never
    overdue.  The overdue list of [GET /api/vaccinations/upcoming] and
    the overdue count of [GET /api/health/summary] select by that
    condition. *)
Theorem overdue_iff_target_before_today (today : date) (target : option date) (w : Z)
    (tz : Z) (user : string) (now : instant) (s : store) :
  (classify today target w = overdue
   <-> exists t, target = Some t /\ date_lt t today)
  /\ (valid_date today -> classify today (Some (prevDay today)) w = overdue)
  /\ classify today (Some today) w <> overdue
  /\ classify today None w = no_target
  /\ (forall up od r,
        body (get_upcoming_vaccinations tz user now s) = JUpcomingVaccinations up od ->
        (In r od
         <-> exists d t, In (fst r) (vaccinations s) /\ In d (dogs s)
                         /\ d_id d = v_dog_id (fst r) /\ d_user_id d = user
                         /\ snd r = d_name d
                         /\ v_next_due_date (fst r) = Some t
                         /\ date_lt t (toISODate now)))
  /\ (forall dog_id,
        overdue_vaccination_count s dog_id now
        = List.length
            (filter (fun v => (v_dog_id v =? dog_id)%string
                              && match v_next_due_date v with
                                 | Some t => date_ltb t (toISODate now)
                                 | None => false
                                 end)
                    (vaccinations s))).
Proof.
  split; [apply classify_overdue_iff|].
  split; [intros Hv; apply classify_overdue_iff; eauto using lt_prevDay|].
  split.
  { intros H. apply classify_overdue_iff in H as (t & [= <-] & Ht).
    exact (date_lt_irrefl _ Ht). }
  split; [reflexivity|].
  split.
  - intros up od r [= _ <-]. rewrite order_by_In.
    unfold user_vaccinations_where. rewrite in_flat_map. split.
    + intros (v & Hv & Hr). apply in_map_iff in Hr as (d & <- & Hd).
      apply filter_In in Hd as [Hd C]. apply andb_true_iff in C as [E C].
      apply String.eqb_eq in E. apply sql_where_and in C as [U C].
      rewrite sql_where_Some in U. apply String.eqb_eq in U. apply overdue_cond_spec in C as (t & Ht & Hlt).
      exists d, t. simpl. auto 10.
    + intros (d & t & Hv & Hd & E & U & N & Ht & Hlt). exists (fst r).
      split; [exact Hv|]. apply in_map_iff. exists d. split.
      * destruct r; simpl in *; congruence.
      * apply filter_In. split; [exact Hd|]. apply andb_true_iff. split.
        -- now apply String.eqb_eq.
        -- apply sql_where_and. split.
           ++ rewrite sql_where_Some. now apply String.eqb_eq.
           ++ apply overdue_cond_spec. eauto.
  - intros dog_id. unfold overdue_vaccination_count. f_equal.
    apply filter_ext. intros v. f_equal.
    unfold overdue_cond. destruct (v_next_due_date v) as [t|]; simpl; [|reflexivity].
    destruct (date_ltb t (toISODate now)); reflexivity.
Qed.

Lemma overdue_iff_target_before_today_witness :
  classify (mkDate 2024 1 15) (Some (mkDate 2024 1 14)) 7 = overdue
  /\ classify (mkDate 2024 3 1) (Some (mkDate 2024 2 29)) 7 = overdue.
Proof.
  split.
  - apply (overdue_iff_target_before_today (mkDate 2024 1 15) None 7 0 "alice"
             example_now example_store). calendar_facts.
  - apply (overdue_iff_target_before_today (mkDate 2024 3 1) None 7 0 "alice"
             example_now example_store). calendar_facts.
Defined.




(** ** Two runs of the scan *)

Lemma checkEventReminders_same (now : instant) (s s' : store) :
  events s' = events s -> dogs s' = dogs s ->
  checkEventReminders now s' = checkEventReminders now s.
Proof.
  intros He Hd. unfold checkEventReminders, event_window_query. rewrite He. f_equal.
  apply flat_map_ext. intros e.
  now rewrite (left_join_dog_names_same_dogs s s').
Qed.

Lemma dailyScan_events (tz : Z) (now : instant) (s : store) :
  checkEventReminders now (snd (checkVaccinationReminders tz now s))
  = checkEventReminders now s.
Proof.
  destruct (scan_others tz now s) as (Hd & He & _).
  now apply checkEventReminders_same.
Qed.

Lemma dailyScan_reminded_ids (tz : Z) (now : instant) (s : store) :
  reminded_ids (fst (dailyScan tz now s))
  = reminded_ids (fst (checkVaccinationReminders tz now s)).
Proof.
  unfold dailyScan. cbn [fst]. rewrite reminded_ids_app.
  unfold checkEventReminders. rewrite reminded_ids_events. apply app_nil_r.
Qed.

Lemma dailyScan_reminded_event_ids (tz : Z) (now : instant) (s : store) :
  reminded_event_ids (fst (dailyScan tz now s))
  = reminded_event_ids (checkEventReminders now s).
Proof.
  unfold dailyScan. cbn [fst].
  rewrite reminded_event_ids_app, scan_log, reminded_event_ids_vaccinations.
  now rewrite dailyScan_events.
Qed.

Lemma scan_keeps_ids (tz : Z) (now : instant) (s : store) :
  map v_id (vaccinations (snd (checkVaccinationReminders tz now s)))
  = map v_id (vaccinations s).
Proof.
  rewrite scan_vaccinations, map_map. apply map_ext. intros v.
  destruct (str_in _ _); reflexivity.
Qed.

Lemma scan_keeps_primary_keys (tz : Z) (now : instant) (s : store) :
  primary_keys_ok s -> primary_keys_ok (snd (checkVaccinationReminders tz now s)).
Proof.
  unfold primary_keys_ok. intros (Hd & Hv & He).
  destruct (scan_others tz now s) as (Ed & Ee & _).
  now rewrite Ed, Ee, scan_keeps_ids.
Qed.

Lemma reminded_has_row (tz : Z) (now : instant) (s : store) (id : string) :
  In id (reminded_ids (fst (checkVaccinationReminders tz now s))) ->
  exists v, In v (vaccinations s) /\ v_id v = id /\ v_reminder_sent v = false.
Proof.
  rewrite scan_log, reminded_ids_vaccinations. intros H.
  apply in_map_iff in H as (r & <- & Hr).
  apply In_due_vaccination_query in Hr as (v & d & Hv & _ & _ & C & ->).
  apply due_vaccination_cond_spec in C as [F _]. exists v. auto.
Qed.

Lemma reminded_is_flagged (tz : Z) (now : instant) (s : store) (id : string) :
  In id (reminded_ids (fst (checkVaccinationReminders tz now s))) ->
  reminder_flag (snd (checkVaccinationReminders tz now s)) id = Some true.
Proof.
  intros Hin. destruct (reminded_has_row _ _ _ _ Hin) as (v & Hv & <- & _).
  unfold reminder_flag, flag_in. rewrite scan_vaccinations.
  rewrite (find_key_map v_id) by (intros a; destruct (str_in _ _); reflexivity).
  destruct (find_key_In v_id _ _ Hv) as (b & -> & Eb). simpl.
  rewrite Eb. apply str_in_In in Hin. now rewrite Hin.
Qed.

Lemma flagged_not_reminded (tz : Z) (now : instant) (s : store) (id : string) :
  NoDup (map v_id (vaccinations s)) ->
  reminder_flag s id = Some true ->
  ~ In id (reminded_ids (fst (checkVaccinationReminders tz now s))).
Proof.
  intros Hnd Hflag Hin. destruct (reminded_has_row _ _ _ _ Hin) as (v & Hv & E & F).
  unfold reminder_flag, flag_in in Hflag.
  destruct (find _ _) as [v'|] eqn:Hf; [|discriminate].
  apply find_some in Hf as [Hv' E']. apply String.eqb_eq in E'.
  assert (v = v') as <- by (apply (key_injective v_id (vaccinations s)); congruence).
  simpl in Hflag. congruence.
Qed.

(** C3.  Two runs of the daily job in succession: every vaccination
    the first run prints a reminder for has [reminder_sent] set after
    it; the second run prints none for a vaccination whose flag is set; so
    over both runs a vaccination gets one reminder at most.  An active
    event that is inside its window at both runs is printed by both, and
    on the same day the event reminders of the two runs are the same
    list. *)
Theorem scan_twice_reminds_once (tz : Z) (now1 now2 : instant) (s : store) :
  primary_keys_ok s ->
  let r1 := dailyScan tz now1 s in
  let r2 := dailyScan tz now2 (snd r1) in
  (forall id, In id (reminded_ids (fst r1)) -> reminder_flag (snd r1) id = Some true)
  /\ (forall id, reminder_flag (snd r1) id = Some true ->
                 ~ In id (reminded_ids (fst r2)))
  /\ (forall id,
        (count_occ string_dec (reminded_ids (fst r1) ++ reminded_ids (fst r2)) id <= 1)%nat)
  /\ (forall e, In e (events s) ->
        sql_where (event_window_cond (toISODate now1) e) = true ->
        sql_where (event_window_cond (toISODate now2) e) = true ->
        In (e_id e) (reminded_event_ids (fst r1))
        /\ In (e_id e) (reminded_event_ids (fst r2)))
  /\ (toISODate now1 = toISODate now2 ->
      checkEventReminders now2 (snd r1) = checkEventReminders now1 s).
Proof.
  intros Hpk r1 r2.
  pose proof (scan_keeps_primary_keys tz now1 s Hpk) as Hpk1.
  assert (snd r1 = snd (checkVaccinationReminders tz now1 s)) as E1 by reflexivity.
  destruct (scan_others tz now1 s) as (Ed & Ee & _).
  assert (forall id, In id (reminded_ids (fst r1)) -> reminder_flag (snd r1) id = Some true)
    as Ha.
  { intros id. unfold r1. rewrite dailyScan_reminded_ids. apply reminded_is_flagged. }
  assert (forall id, reminder_flag (snd r1) id = Some true ->
                     ~ In id (reminded_ids (fst r2))) as Hb.
  { intros id Hf. unfold r2. rewrite dailyScan_reminded_ids.
    apply flagged_not_reminded; [rewrite E1; apply Hpk1 | exact Hf]. }
  split; [exact Ha|]. split; [exact Hb|]. split; [|split].
  - apply NoDup_count_occ. apply NoDup_app.
    + unfold r1. rewrite dailyScan_reminded_ids, scan_log, reminded_ids_vaccinations.
      apply due_vaccination_query_ids_NoDup; apply Hpk.
    + unfold r2. rewrite dailyScan_reminded_ids, scan_log, reminded_ids_vaccinations.
      apply due_vaccination_query_ids_NoDup; rewrite E1; apply Hpk1.
    + intros id H1. apply Hb, Ha, H1.
  - intros e He C1 C2. split.
    + unfold r1. rewrite dailyScan_reminded_event_ids.
      now apply event_in_window_reminded.
    + unfold r2. rewrite dailyScan_reminded_event_ids.
      apply event_in_window_reminded; [|exact C2]. rewrite E1, Ee. exact He.
  - intros Eday. rewrite E1.
    rewrite (checkEventReminders_same now2 s) by assumption.
    unfold checkEventReminders. now rewrite Eday.
Qed.

Lemma scan_twice_reminds_once_witness :
  let r1 := dailyScan 0 example_now example_store in
  let r2 := dailyScan 0 example_now (snd r1) in
  reminded_ids (fst r1) = ["vax-1"]
  /\ reminder_flag (snd r1) "vax-1" = Some true
  /\ reminded_ids (fst r2) = []
  /\ reminded_event_ids (fst r1) = ["ev-1"]
  /\ reminded_event_ids (fst r2) = ["ev-1"].
Proof.
  assert (primary_keys_ok example_store) as Hpk.
  { unfold primary_keys_ok. simpl.
    repeat split; (constructor; [intros [] | constructor]). }
  destruct (scan_twice_reminds_once 0 example_now example_now example_store Hpk)
    as (H1 & _).
  intros r1 r2. split; [vm_compute; reflexivity|].
  split; [|repeat split; vm_compute; reflexivity].
  apply H1. vm_compute. now left.
Defined.

(** ** Frames of the INSERTs *)

Lemma insert_dog_frame (r : dog_row) (s s' : store) :
  insert_dog r s = Some s' ->
  dogs s' = dogs s ++ [r] /\ vaccinations s' = vaccinations s /\ events s' = events s
  /\ has_dog s (d_id r) = false.
Proof.
  unfold insert_dog. destruct (has_dog s (d_id r)); [discriminate|].
  destruct (negb _); [discriminate|]. intros [= <-]. auto.
Qed.

Lemma insert_vaccination_frame (r : vaccination_row) (s s' : store) :
  insert_vaccination r s = Some s' ->
  dogs s' = dogs s /\ vaccinations s' = vaccinations s ++ [r] /\ events s' = events s
  /\ existsb (fun v => (v_id v =? v_id r)%string) (vaccinations s) = false.
Proof.
  unfold insert_vaccination. destruct (existsb _ _); [discriminate|].
  destruct (negb _); [discriminate|]. intros [= <-]. auto.
Qed.

Lemma insert_event_frame (r : event_row) (s s' : store) :
  insert_event r s = Some s' ->
  dogs s' = dogs s /\ vaccinations s' = vaccinations s /\ events s' = events s ++ [r]
  /\ existsb (fun e => (e_id e =? e_id r)%string) (events s) = false.
Proof.
  unfold insert_event. destruct (existsb _ _); [discriminate|].
  destruct (negb _); [discriminate|].
  destruct (match e_dog_id r with Some _ => _ | None => _ end); [discriminate|].
  intros [= <-]. auto.
Qed.

Lemma insert_if_some_frame {A : Type} (x : option A) (mk : A -> event_row) (s s' : store) :
  insert_if_some x mk s = Some s' ->
  dogs s' = dogs s /\ vaccinations s' = vaccinations s
  /\ events s' = events s ++ match x with Some a => [mk a] | None => [] end.
Proof.
  unfold insert_if_some. destruct x as [a|].
  - intros H. apply insert_event_frame in H. tauto.
  - intros [= <-]. now rewrite app_nil_r.
Qed.

Lemma insert_medication_frame (r : medication_row) (s s' : store) :
  insert_medication r s = Some s' ->
  dogs s' = dogs s /\ vaccinations s' = vaccinations s /\ events s' = events s.
Proof.
  unfold insert_medication. destruct (existsb _ _); [discriminate|].
  destruct (negb _); [discriminate|]. intros [= <-]. auto.
Qed.

Lemma insert_ai_query_frame (r : ai_query_row) (s s' : store) :
  insert_ai_query r s = Some s' ->
  dogs s' = dogs s /\ vaccinations s' = vaccinations s /\ events s' = events s
  /\ ai_queries s' = ai_queries s ++ [r].
Proof.
  unfold insert_ai_query. destruct (existsb _ _); [discriminate|].
  intros [= <-]. auto.
Qed.

(** ** What a step does to the vaccinations table *)

(** A step leaves the table as it is up to an update that keeps ids and
    set flags, removes rows, or appends one row under a new id. *)
Inductive table_change (old new : list vaccination_row) : Prop :=
| Updated (g : vaccination_row -> vaccination_row) :
    (forall v, v_id (g v) = v_id v) ->
    (forall v, v_reminder_sent v = true -> v_reminder_sent (g v) = true) ->
    new = map g old -> table_change old new
| Removed (f : vaccination_row -> bool) :
    new = filter f old -> table_change old new
| Appended (r : vaccination_row) :
    existsb (fun v => (v_id v =? v_id r)%string) old = false ->
    new = old ++ [r] -> table_change old new.

Lemma table_unchanged (l : list vaccination_row) : table_change l l.
Proof.
  apply (Updated l l (fun v => v)); auto. symmetry. apply map_id.
Qed.

Lemma post_dog_vaccinations (dogId birthdayId anniversaryId : string) (tz : Z)
    (user : string) (now : instant) (rq : dog_request) (s : store) :
  vaccinations (snd (post_dog dogId birthdayId anniversaryId tz user now rq s))
  = vaccinations s.
Proof.
  unfold post_dog. destruct (dq_name rq) as [name|]; [|reflexivity].
  destruct (negb (truthy (Some name))); [reflexivity|].
  destruct (insert_dog _ s) as [s1|] eqn:E1; [|reflexivity].
  apply insert_dog_frame in E1 as (_ & V1 & _).
  destruct (insert_if_some (dq_date_of_birth rq) _ s1) as [s2|] eqn:E2; [|exact V1].
  apply insert_if_some_frame in E2 as (_ & V2 & _).
  destruct (insert_if_some (dq_adoption_date rq) _ s2) as [s3|] eqn:E3;
    [|simpl; congruence].
  apply insert_if_some_frame in E3 as (_ & V3 & _). simpl. congruence.
Qed.

Lemma post_event_vaccinations (id user : string) (rq : event_request) (s : store) :
  vaccinations (snd (post_event id user rq s)) = vaccinations s.
Proof.
  unfold post_event. destruct (_ || _); [reflexivity|].
  destruct (eq_title rq) as [title|]; [|reflexivity].
  destruct (eq_event_date rq) as [event_date|]; [|reflexivity].
  destruct (_ && _); [reflexivity|].
  destruct (insert_event _ s) as [s1|] eqn:E1; [|reflexivity].
  apply insert_event_frame in E1. simpl. tauto.
Qed.

Lemma post_medication_vaccinations (id event_id user : string) (rq : medication_request)
    (s : store) :
  vaccinations (snd (post_medication id event_id user rq s)) = vaccinations s.
Proof.
  unfold post_medication. destruct (_ || _); [reflexivity|].
  destruct (mq_dog_id rq) as [dog_id|]; [|reflexivity].
  destruct (mq_name rq) as [name|]; [|reflexivity].
  destruct (mq_start_date rq) as [start_date|]; [|reflexivity].
  destruct (find_owned_dog s dog_id user); [|reflexivity].
  destruct (insert_medication _ s) as [s1|] eqn:E1; [|reflexivity].
  apply insert_medication_frame in E1 as (_ & V1 & _).
  destruct (insert_if_some _ _ s1) as [s2|] eqn:E2; [|exact V1].
  apply insert_if_some_frame in E2 as (_ & V2 & _). simpl. congruence.
Qed.

Lemma ai_ask_vaccinations (ask : ai_service) (id user : string) (now : instant)
    (rq : ask_request) (s : store) :
  vaccinations (snd (ai_ask ask id user now rq s)) = vaccinations s.
Proof.
  unfold ai_ask. destruct (aq_question rq) as [question|]; [|reflexivity].
  destruct (negb _); [reflexivity|].
  destruct (ask _ _ _) as [r|]; [|reflexivity].
  destruct (insert_ai_query _ s) as [s1|] eqn:E1; [|reflexivity].
  apply insert_ai_query_frame in E1. simpl. tauto.
Qed.

Lemma post_vaccination_table (id event_id user : string) (rq : vaccination_request)
    (s : store) :
  table_change (vaccinations s) (vaccinations (snd (post_vaccination id event_id user rq s))).
Proof.
  unfold post_vaccination. destruct (_ || _); [apply table_unchanged|].
  destruct (vq_dog_id rq) as [dog_id|]; [|apply table_unchanged].
  destruct (vq_vaccine_name rq) as [vaccine_name|]; [|apply table_unchanged].
  destruct (vq_date_administered rq) as [date_administered|]; [|apply table_unchanged].
  destruct (find_owned_dog s dog_id user); [|apply table_unchanged].
  destruct (insert_vaccination _ s) as [s1|] eqn:E1; [|apply table_unchanged].
  apply insert_vaccination_frame in E1 as (_ & V1 & _ & F1).
  assert (table_change (vaccinations s) (vaccinations s1)) as T
    by (eapply Appended; [exact F1 | exact V1]).
  destruct (vq_next_due_date rq) as [nd|]; [|exact T].
  destruct (insert_event _ s1) as [s2|] eqn:E2; [|exact T].
  apply insert_event_frame in E2 as (_ & V2 & _). simpl. now rewrite V2.
Qed.

Lemma put_vaccination_vaccinations (user id : string) (rq : vaccination_request) (s : store) :
  vaccinations (snd (put_vaccination user id rq s))
  = vaccinations s
    \/ vaccinations (snd (put_vaccination user id rq s))
       = map (fun v => if (v_id v =? id)%string then update_vaccination rq v else v)
             (vaccinations s).
Proof.
  unfold put_vaccination. destruct (find_owned_vaccination s id user); auto.
Qed.

Lemma step_table (tz : Z) (s : store) (op : operation) :
  table_change (vaccinations s) (vaccinations (step tz s op)).
Proof.
  destruct op; cbn [step].
  - rewrite post_dog_vaccinations. apply table_unchanged.
  - unfold put_dog. destruct (find_owned_dog s id user); [|apply table_unchanged].
    destruct (negb _); apply table_unchanged.
  - unfold delete_dog. destruct (find_owned_dog s id); [|apply table_unchanged].
    eapply Removed. reflexivity.
  - apply post_vaccination_table.
  - destruct (put_vaccination_vaccinations user id rq s) as [-> | ->];
      [apply table_unchanged|].
    apply (Updated _ _ (fun v => if (v_id v =? id)%string
                                 then update_vaccination rq v else v));
      [| |reflexivity]; intros v; destruct (v_id v =? id)%string; auto.
  - unfold delete_vaccination. destruct (find_owned_vaccination s id user);
      [|apply table_unchanged].
    eapply Removed. reflexivity.
  - rewrite post_event_vaccinations. apply table_unchanged.
  - unfold put_event. destruct (find_owned_event s id user); [|apply table_unchanged].
    destruct (negb _); apply table_unchanged.
  - unfold delete_event. destruct (find_owned_event s id user); apply table_unchanged.
  - rewrite post_medication_vaccinations. apply table_unchanged.
  - rewrite ai_ask_vaccinations. apply table_unchanged.
  - unfold dailyScan. cbn [snd]. rewrite scan_vaccinations.
    apply (Updated _ _
             (fun v =>
                if str_in (v_id v)
                     (reminded_ids (fst (checkVaccinationReminders tz now s)))
                then with_reminder_sent v else v));
      [| |reflexivity]; intros v; destruct (str_in _ _); auto.
Qed.

Lemma NoDup_map_filter {A : Type} (key : A -> string) (f : A -> bool) (l : list A) :
  NoDup (map key l) -> NoDup (map key (filter f l)).
Proof.
  induction l as [|a l IH]; simpl; intros H; [constructor|].
  apply NoDup_cons_iff in H as [Ha H]. destruct (f a); simpl; [|auto].
  constructor; [|auto]. intros Hin. apply Ha.
  apply in_map_iff in Hin as (b & E & Hb). apply filter_In in Hb as [Hb _].
  rewrite <- E. now apply in_map.
Qed.

Lemma find_key_filter {A : Type} (key : A -> string) (f : A -> bool) (l : list A)
    (x : string) (a : A) :
  NoDup (map key l) ->
  find (fun c => (key c =? x)%string) l = Some a ->
  find (fun c => (key c =? x)%string) (filter f l) = if f a then Some a else None.
Proof.
  induction l as [|b l IH]; simpl; [discriminate|].
  intros Hnd. apply NoDup_cons_iff in Hnd as [Hb Hnd].
  destruct (String.eqb_spec (key b) x) as [E|E].
  - intros [= ->]. destruct (f a) eqn:F; simpl.
    + destruct (String.eqb_spec (key a) x); [reflexivity | contradiction].
    + destruct (find _ (filter f l)) as [c|] eqn:Hc; [|reflexivity].
      exfalso. apply find_some in Hc as [Hc Ec]. apply String.eqb_eq in Ec.
      apply filter_In in Hc as [Hc _]. apply Hb. rewrite E, <- Ec. now apply in_map.
  - intros Hf. destruct (f b); simpl; [|auto].
    destruct (String.eqb_spec (key b) x); [contradiction | auto].
Qed.

Lemma find_app_Some {A : Type} (p : A -> bool) (l l' : list A) (a : A) :
  find p l = Some a -> find p (l ++ l') = Some a.
Proof.
  induction l as [|b l IH]; simpl; [discriminate|].
  destruct (p b); auto.
Qed.

Lemma table_change_NoDup (old new : list vaccination_row) :
  table_change old new -> NoDup (map v_id old) -> NoDup (map v_id new).
Proof.
  intros [g Hid _ -> | f -> | r Hr ->] Hnd.
  - rewrite map_map. erewrite map_ext; [exact Hnd|]. exact Hid.
  - now apply NoDup_map_filter.
  - rewrite map_app. apply NoDup_app; [exact Hnd | constructor; [intros []|constructor] |].
    intros a Ha [<-|[]]. apply in_map_iff in Ha as (v & E & Hv).
    assert (existsb (fun v0 => (v_id v0 =? v_id r)%string) old = true) as C.
    { apply existsb_exists. exists v. split; [exact Hv | now apply String.eqb_eq]. }
    congruence.
Qed.

Lemma table_change_flag (old new : list vaccination_row) (id : string) :
  table_change old new -> NoDup (map v_id old) ->
  flag_in old id = Some true ->
  flag_in new id = Some true \/ flag_in new id = None.
Proof.
  unfold flag_in. intros T Hnd Hf.
  destruct (find (fun v => (v_id v =? id)%string) old) as [v|] eqn:F; [|discriminate].
  injection Hf as Hf.
  destruct T as [g Hid Hkeep -> | f -> | r Hr ->].
  - left. rewrite (find_key_map v_id g old id Hid), F. simpl. now rewrite Hkeep.
  - rewrite (find_key_filter v_id f old id v Hnd F).
    destruct (f v); simpl; [left; now rewrite Hf | now right].
  - left. rewrite (find_app_Some _ _ _ _ F). simpl. now rewrite Hf.
Qed.

Lemma step_keeps_ids_unique (tz : Z) (s : store) (op : operation) :
  NoDup (map v_id (vaccinations s)) -> NoDup (map v_id (vaccinations (step tz s op))).
Proof. apply table_change_NoDup, step_table. Qed.

Lemma step_flag (tz : Z) (s : store) (op : operation) (id : string) :
  NoDup (map v_id (vaccinations s)) -> reminder_flag s id = Some true ->
  reminder_flag (step tz s op) id = Some true \/ reminder_flag (step tz s op) id = None.
Proof. apply table_change_flag, step_table. Qed.

Lemma trace_head (tz : Z) (s : store) (ops : list operation) :
  exists rest, trace tz s ops = s :: rest.
Proof. destruct ops; simpl; eauto. Qed.

Lemma put_vaccination_flag (user id : string) (rq : vaccination_request) (s : store)
    (id0 : string) :
  reminder_flag (snd (put_vaccination user id rq s)) id0 = reminder_flag s id0.
Proof.
  unfold reminder_flag, flag_in.
  destruct (put_vaccination_vaccinations user id rq s) as [-> | ->]; [reflexivity|].
  rewrite (find_key_map v_id)
    by (intros v; destruct (v_id v =? id)%string; reflexivity).
  destruct (find _ (vaccinations s)) as [v|]; [|reflexivity]. simpl.
  destruct (v_id v =? id)%string; reflexivity.
Qed.

(** C5.  The reminder flag only goes up.  From a state where the
    vaccination [id] has [reminder_sent] set, any request or scan leaves
    it set or removes the row; along every sequence of requests and
    scans the flag stays set for as long as the row is there.  The scan
    keeps a set flag, and [PUT /api/vaccinations/:id] leaves the flag of
    every row as it finds it. *)
Theorem reminder_flag_one_way (tz : Z) (s : store) (ops : list operation) (id : string) :
  NoDup (map v_id (vaccinations s)) ->
  reminder_flag s id = Some true ->
  (forall op, reminder_flag (step tz s op) id = Some true
              \/ reminder_flag (step tz s op) id = None)
  /\ (Forall (fun s' => reminder_flag s' id <> None) (trace tz s ops) ->
      Forall (fun s' => reminder_flag s' id = Some true) (trace tz s ops))
  /\ (forall now, reminder_flag (snd (dailyScan tz now s)) id = Some true)
  /\ (forall user id' rq id0,
        reminder_flag (snd (put_vaccination user id' rq s)) id0 = reminder_flag s id0).
Proof.
  intros Hnd Hf. split; [intros op; now apply step_flag|]. split; [|split].
  - revert s Hnd Hf. induction ops as [|op ops IH]; intros s Hnd Hf Hall; simpl in *.
    + constructor; [exact Hf | constructor].
    + constructor; [exact Hf|]. apply Forall_inv_tail in Hall.
      apply IH; [now apply step_keeps_ids_unique | | exact Hall].
      destruct (step_flag tz s op id Hnd Hf) as [H | H]; [exact H|].
      destruct (trace_head tz (step tz s op) ops) as (rest & E).
      rewrite E in Hall. apply Forall_inv in Hall. contradiction.
  - intros now. change (snd (dailyScan tz now s)) with (step tz s (OpDailyScan now)).
    unfold reminder_flag, flag_in.
    change (vaccinations (step tz s (OpDailyScan now)))
      with (vaccinations (snd (checkVaccinationReminders tz now s))).
    rewrite scan_vaccinations.
    rewrite (find_key_map v_id) by (intros v; destruct (str_in _ _); reflexivity).
    unfold reminder_flag, flag_in in Hf.
    destruct (find _ (vaccinations s)) as [v|]; [|discriminate].
    simpl in *. injection Hf as Hf. destruct (str_in _ _); [reflexivity | now rewrite Hf].
  - intros user id' rq id0. apply put_vaccination_flag.
Qed.

Lemma reminder_flag_one_way_witness :
  let s := snd (dailyScan 0 example_now example_store) in
  let ops := [OpPutVaccination "alice" "vax-1" move_due_date;
              OpDailyScan (mkDate 2024 2 28, 32400000);
              OpPostVaccination "vax-2" "ev-2" "alice" booster_request] in
  Forall (fun s' => reminder_flag s' "vax-1" = Some true) (trace 0 s ops).
Proof.
  intros s ops.
  apply (reminder_flag_one_way 0 s ops "vax-1").
  - vm_compute. constructor; [intros [] | constructor].
  - vm_compute. reflexivity.
  - vm_compute. repeat constructor; discriminate.
Defined.

Lemma owned_dog_exists (s : store) (id user : string) (d : dog_row) :
  find_owned_dog s id user = Some d -> has_dog s id = true.
Proof.
  intros F. apply find_some in F as [Hd C]. apply andb_true_iff in C as [C _].
  unfold has_dog. apply existsb_exists. exists d. auto.
Qed.

Lemma post_vaccination_succeeds (id event_id user dog_id name : string)
    (administered : date) (d : dog_row) (rq : vaccination_request) (s : store) :
  vq_dog_id rq = Some dog_id -> dog_id <> "" ->
  vq_vaccine_name rq = Some name -> name <> "" ->
  vq_date_administered rq = Some administered ->
  find_owned_dog s dog_id user = Some d ->
  existsb (fun v => (v_id v =? id)%string) (vaccinations s) = false ->
  existsb (fun e => (e_id e =? event_id)%string) (events s) = false ->
  status (fst (post_vaccination id event_id user rq s)) = 201.
Proof.
  intros E1 N1 E2 N2 E3 F Hv He. unfold post_vaccination.
  rewrite E1, E2, E3, F. unfold truthy.
  destruct (String.eqb_spec dog_id ""); [contradiction|].
  destruct (String.eqb_spec name ""); [contradiction|]. cbn [negb orb present].
  unfold insert_vaccination. cbn [v_id v_dog_id]. rewrite Hv.
  rewrite (owned_dog_exists s dog_id user d F). cbn [negb].
  destruct (vq_next_due_date rq) as [nd|]; [|reflexivity].
  unfold insert_event. cbn [e_id e_event_type e_dog_id events set_vaccinations].
  rewrite He. change (event_type_ok "vet_appointment") with true. cbn [negb].
  change (has_dog (set_vaccinations s _) dog_id) with (has_dog s dog_id).
  rewrite (owned_dog_exists s dog_id user d F). reflexivity.
Qed.

(** C6.  [POST /api/vaccinations] with its required fields, for a dog
    of the caller and with fresh identifiers, answers 201.  A 201 answer
    has appended the vaccination row, with [reminder_sent] unset, and has
    appended a companion event exactly when the request has a
    [next_due_date]: then one event of type ['vet_appointment'], with
    [reminder_days_before] 14 and the request's [next_due_date] as its
    date; without a [next_due_date] the events table is left as it
    was. *)
Theorem post_vaccination_companion_event (id event_id user : string)
    (rq : vaccination_request) (s s' : store) (resp : response) :
  post_vaccination id event_id user rq s = (resp, s') ->
  (forall dog_id name administered d,
     vq_dog_id rq = Some dog_id -> dog_id <> "" ->
     vq_vaccine_name rq = Some name -> name <> "" ->
     vq_date_administered rq = Some administered ->
     find_owned_dog s dog_id user = Some d ->
     existsb (fun v => (v_id v =? id)%string) (vaccinations s) = false ->
     existsb (fun e => (e_id e =? event_id)%string) (events s) = false ->
     status resp = 201)
  /\ (status resp = 201 ->
      (exists v, vaccinations s' = vaccinations s ++ [v]
                 /\ v_id v = id /\ vq_dog_id rq = Some (v_dog_id v)
                 /\ v_next_due_date v = vq_next_due_date rq
                 /\ v_reminder_sent v = false)
      /\ (forall next_due_date, vq_next_due_date rq = Some next_due_date ->
            exists e, events s' = events s ++ [e]
                      /\ e_id e = event_id /\ e_user_id e = user
                      /\ vq_dog_id rq = e_dog_id e
                      /\ e_event_type e = "vet_appointment"
                      /\ e_reminder_days_before e = 14
                      /\ e_event_date e = next_due_date)
      /\ (vq_next_due_date rq = None -> events s' = events s)
      /\ ((exists e, events s' = events s ++ [e]) <-> vq_next_due_date rq <> None)).
Proof.
  intros Hpost. split.
  { intros dog_id name administered d E1 N1 E2 N2 E3 F Hv He.
    pose proof (post_vaccination_succeeds id event_id user dog_id name administered d
                  rq s E1 N1 E2 N2 E3 F Hv He) as H.
    now rewrite Hpost in H. }
  revert Hpost.
  unfold post_vaccination. destruct (_ || _); [intros [= <- <-]; discriminate|].
  destruct (vq_dog_id rq) as [dog_id|]; [|intros [= <- <-]; discriminate].
  destruct (vq_vaccine_name rq) as [vaccine_name|]; [|intros [= <- <-]; discriminate].
  destruct (vq_date_administered rq) as [date_administered|];
    [|intros [= <- <-]; discriminate].
  destruct (find_owned_dog s dog_id user); [|intros [= <- <-]; discriminate].
  destruct (insert_vaccination _ s) as [s1|] eqn:E1; [|intros [= <- <-]; discriminate].
  apply insert_vaccination_frame in E1 as (_ & V1 & Ev1 & _).
  destruct (vq_next_due_date rq) as [nd|].
  - destruct (insert_event _ s1) as [s2|] eqn:E2; [|intros [= <- <-]; discriminate].
    apply insert_event_frame in E2 as (_ & V2 & Ev2 & _).
    intros [= <- <-] _. rewrite V2, V1, Ev2, Ev1.
    split; [eexists; split; [reflexivity|]; simpl; auto|].
    split; [intros ? [= <-]; eexists; split; [reflexivity|]; simpl; auto 10|].
    split; [discriminate|].
    split; [discriminate | intros _; eauto].
  - intros [= <- <-] _. rewrite V1, Ev1.
    split; [eexists; split; [reflexivity|]; simpl; auto|].
    split; [discriminate|]. split; [reflexivity|].
    split; [|intros H; now contradiction H].
    intros (e & He). exfalso.
    apply (f_equal (@List.length event_row)) in He.
    rewrite length_app in He. simpl in He. lia.
Qed.

Lemma post_vaccination_companion_event_witness :
  (exists e, events (snd (post_vaccination "vax-2" "ev-2" "alice" booster_request
                            example_store))
             = events example_store ++ [e]
             /\ e_id e = "ev-2" /\ e_user_id e = "alice"
             /\ vq_dog_id booster_request = e_dog_id e
             /\ e_event_type e = "vet_appointment"
             /\ e_reminder_days_before e = 14
             /\ e_event_date e = mkDate 2025 1 15)
  /\ events (snd (post_vaccination "vax-2" "ev-2" "alice" booster_request_no_due_date
                    example_store))
     = events example_store.
Proof.
  split.
  - destruct (post_vaccination "vax-2" "ev-2" "alice" booster_request example_store)
      as [resp s'] eqn:E.
    destruct (post_vaccination_companion_event _ _ _ _ _ _ _ E) as [Hok Heff].
    apply Heff; [|reflexivity].
    apply (Hok "dog-1" "DHPP" (mkDate 2024 1 15) rex);
      solve [reflexivity | discriminate].
  - destruct (post_vaccination "vax-2" "ev-2" "alice" booster_request_no_due_date
                example_store) as [resp s'] eqn:E.
    destruct (post_vaccination_companion_event _ _ _ _ _ _ _ E) as [Hok Heff].
    apply Heff; [|reflexivity].
    apply (Hok "dog-1" "DHPP" (mkDate 2024 1 15) rex);
      solve [reflexivity | discriminate].
Defined.



(** ** The anniversary date *)

Lemma carry_in_range (d : date) (t : Z) : 0 <= t < msPerDay -> carry d t = (d, t).
Proof.
  unfold carry, msPerDay. intros Ht.
  destruct (Z.ltb_spec t 0); [lia|].
  destruct (Z.leb_spec 86400000 t); [lia | reflexivity].
Qed.

Lemma LocalTime_utc (d : date) (t : Z) : 0 <= t < msPerDay -> LocalTime 0 (d, t) = (d, t).
Proof.
  intros Ht. unfold LocalTime. cbn [fst snd].
  rewrite Z.mul_0_l, Z.add_0_r. now apply carry_in_range.
Qed.

Lemma UTC_utc (d : date) (t : Z) : 0 <= t < msPerDay -> UTC 0 (d, t) = (d, t).
Proof.
  intros Ht. unfold UTC. cbn [fst snd].
  rewrite Z.mul_0_l, Z.sub_0_r. now apply carry_in_range.
Qed.

Lemma days_in_month_year (y y' m : Z) : m <> 2 -> days_in_month y m = days_in_month y' m.
Proof.
  intros Hm. unfold days_in_month. destruct (Z.eqb_spec m 2); [contradiction | reflexivity].
Qed.

Lemma days_in_february (y : Z) : days_in_month y 2 = if is_leap y then 29 else 28.
Proof. reflexivity. Qed.

(** The month and day of a valid date put into the year [Y]: the same
    month and day, but 29 February in a common year comes out as
    1 March. *)
Lemma MakeDay_in_year (Y : Z) (src : date) :
  valid_date src ->
  let c := MakeDay Y (month src - 1) (day src) in
  valid_date c /\ year c = Y
  /\ ((month c = month src /\ day c = day src)
      \/ (month src = 2 /\ day src = 29 /\ is_leap Y = false
          /\ month c = 3 /\ day c = 1)).
Proof.
  intros [Hm Hd] c. unfold MakeDay in c.
  destruct (month_index (month src) Hm) as [E1 E2].
  assert (c = addDays (mkDate Y (month src) 1) (Z.to_nat (day src - 1))) as ->.
  { unfold c. now rewrite E1, E2, Z.add_0_r. }
  destruct (Z.le_gt_cases (day src) (days_in_month Y (month src))) as [Hle | Hgt].
  - rewrite addDays_first_of_month by lia.
    replace (1 + Z.of_nat (Z.to_nat (day src - 1))) with (day src) by lia.
    unfold valid_date. cbn [year month day].
    split; [split; lia|]. split; [reflexivity|]. left. split; reflexivity.
  - assert (month src = 2) as M.
    { destruct (Z.eq_dec (month src) 2) as [|Hne]; [assumption|].
      rewrite (days_in_month_year Y (year src)) in Hgt by exact Hne. lia. }
    rewrite M in *. rewrite days_in_february in Hd, Hgt.
    destruct (is_leap Y) eqn:LY; [destruct (is_leap (year src)); lia|].
    assert (day src = 29) as D by (destruct (is_leap (year src)); lia).
    rewrite D. change (Z.to_nat (29 - 1)) with 28%nat.
    rewrite addDays_S, addDays_first_of_month
      by (rewrite days_in_february, LY; cbn; lia).
    unfold nextDay. cbn [year month day]. rewrite days_in_february, LY.
    cbn. unfold valid_date. cbn.
    split; [lia|]. split; [reflexivity|]. right. repeat split; reflexivity.
Qed.

Lemma instant_ltb_midnight (c today : date) (t : Z) :
  0 <= t ->
  (instant_ltb (c, 0) (today, t) = true -> date_le c today)
  /\ (instant_ltb (c, 0) (today, t) = false -> date_le today c)
  /\ (date_lt c today -> instant_ltb (c, 0) (today, t) = true)
  /\ (date_lt today c -> instant_ltb (c, 0) (today, t) = false).
Proof.
  intros Ht. unfold instant_ltb. cbn [fst snd].
  destruct (date_ltb c today) eqn:L; cbn [orb].
  - apply date_ltb_lt in L. repeat split; try discriminate; auto.
    + intros _. now left.
    + intros H. exfalso. exact (date_lt_irrefl _ (date_lt_trans _ _ _ L H)).
  - apply date_ltb_false_le in L.
    destruct (date_eqb c today) eqn:E; cbn [andb].
    + apply date_eqb_eq in E. subst c. repeat split; auto using date_le_refl.
      * intros H. exfalso. exact (date_lt_irrefl _ H).
      * intros H. exfalso. exact (date_lt_irrefl _ H).
    + repeat split; try discriminate; auto.
      intros H. exfalso. exact (date_lt_not_le _ _ H L).
Qed.

Lemma anniversary_date_utc (now : instant) (src : date) :
  valid_instant now -> valid_date src ->
  let c := MakeDay (year (fst now)) (month src - 1) (day src) in
  anniversary_date 0 now src
  = if instant_ltb (c, 0) now
    then MakeDay (year c + 1) (month c - 1) (day c)
    else c.
Proof.
  intros [Hd Ht] Hs c. unfold anniversary_date, Date_parse, Date_ymd, getFullYear,
    getMonth, getDate, setFullYear.
  assert (0 <= 0 < msPerDay) as H0 by (unfold msPerDay; lia).
  destruct now as [today t]. cbn [fst snd] in *.
  rewrite !LocalTime_utc by assumption. cbn [fst snd]. fold c.
  rewrite UTC_utc by assumption.
  destruct (instant_ltb (c, 0) (today, t)); [|reflexivity].
  rewrite LocalTime_utc by assumption. cbn [fst snd].
  now rewrite UTC_utc by assumption.
Qed.

Lemma anniversary_date_spec (now : instant) (src : date) :
  valid_instant now -> valid_date src ->
  let today := toISODate now in
  let e := anniversary_date 0 now src in
  let c := MakeDay (year today) (month src - 1) (day src) in
  valid_date e
  /\ (year e = year today \/ year e = year today + 1)
  /\ date_le today e
  /\ (~ (month src = 2 /\ day src = 29) -> month e = month src /\ day e = day src)
  /\ (month src = 2 -> day src = 29 ->
      (month e = 2 /\ day e = 29) \/ (month e = 3 /\ day e = 1))
  /\ (date_lt today c -> e = c)
  /\ (date_lt c today -> year e = year today + 1).
Proof.
  intros Hnow Hsrc. cbv zeta.
  rewrite (anniversary_date_utc now src Hnow Hsrc). unfold toISODate.
  destruct (MakeDay_in_year (year (fst now)) src Hsrc) as (Vc & Yc & Mc).
  remember (MakeDay (year (fst now)) (month src - 1) (day src)) as c eqn:Ec.
  destruct (MakeDay_in_year (year c + 1) c Vc) as (Vr & Yr & Mr).
  remember (MakeDay (year c + 1) (month c - 1) (day c)) as r eqn:Er.
  clear Ec Er.
  destruct Hnow as [Vt Ht]. destruct now as [d t]. cbn [fst snd] in *.
  destruct (instant_ltb_midnight c d t (proj1 Ht)) as (L1 & L2 & L3 & L4).
  destruct (instant_ltb (c, 0) (d, t)) eqn:B.
  - (* rolled over to next year *)
    split; [exact Vr|]. split; [right; lia|]. split.
    { left. left. lia. }
    split.
    { intros Hne. destruct Mc as [[M1 D1] | (M & D & _)]; [|tauto].
      destruct Mr as [[M2 D2] | (M & D & _)]; [lia | ]. exfalso. apply Hne. lia. }
    split.
    { intros M D. destruct Mc as [[M1 D1] | (_ & _ & _ & M1 & D1)];
        (destruct Mr as [[M2 D2] | (_ & _ & _ & M2 & D2)]; [|right; lia]).
      - left. lia.
      - right. lia. }
    split.
    { intros H. specialize (L4 H). discriminate. }
    intros _. lia.
  - (* this year's date is kept *)
    split; [exact Vc|]. split; [left; lia|]. split; [now apply L2|]. split.
    { intros Hne. destruct Mc as [[M1 D1] | (M & D & _)]; [lia | ]. exfalso. apply Hne. lia. }
    split.
    { intros M D. destruct Mc as [[M1 D1] | (_ & _ & _ & M1 & D1)]; [left | right]; lia. }
    split; [reflexivity|].
    intros H. specialize (L3 H). discriminate.
Qed.

Lemma dog_inserted (r : dog_row) (s s' : store) :
  insert_dog r s = Some s' -> has_dog s' (d_id r) = true.
Proof.
  intros H. apply insert_dog_frame in H as (D & _). unfold has_dog. rewrite D.
  rewrite existsb_app. cbn. now rewrite String.eqb_refl, orb_true_r.
Qed.

Lemma insert_event_succeeds (r : event_row) (s : store) :
  existsb (fun e => (e_id e =? e_id r)%string) (events s) = false ->
  event_type_ok (e_event_type r) = true ->
  (forall d, e_dog_id r = Some d -> has_dog s d = true) ->
  insert_event r s = Some (set_events s (events s ++ [r])).
Proof.
  intros Hid Ht Hd. unfold insert_event. rewrite Hid, Ht. cbn [negb].
  destruct (e_dog_id r) as [d|]; [|reflexivity].
  now rewrite (Hd d eq_refl).
Qed.

Lemma post_dog_succeeds (dogId birthdayId anniversaryId user name : string) (tz : Z)
    (now : instant) (rq : dog_request) (s : store) :
  dq_name rq = Some name -> name <> "" ->
  gender_ok (or_default (dq_gender rq) "unknown") = true ->
  has_dog s dogId = false ->
  existsb (fun e => (e_id e =? birthdayId)%string) (events s) = false ->
  existsb (fun e => (e_id e =? anniversaryId)%string) (events s) = false ->
  birthdayId <> anniversaryId ->
  status (fst (post_dog dogId birthdayId anniversaryId tz user now rq s)) = 201.
Proof.
  intros E N G Hd Hb Ha Hne. unfold post_dog. rewrite E. unfold truthy.
  destruct (String.eqb_spec name ""); [contradiction|]. cbn [negb].
  destruct (insert_dog _ s) as [s1|] eqn:I1.
  2:{ unfold insert_dog in I1. cbn [d_id d_gender] in I1.
      rewrite Hd, G in I1. discriminate. }
  pose proof (dog_inserted _ _ _ I1) as D1. cbn [d_id] in D1.
  apply insert_dog_frame in I1 as (_ & _ & Ev1 & _).
  destruct (insert_if_some (dq_date_of_birth rq) _ s1) as [s2|] eqn:I2.
  2:{ exfalso. destruct (dq_date_of_birth rq) as [b|]; [|discriminate].
      cbn [insert_if_some] in I2. rewrite insert_event_succeeds in I2; [discriminate | | |].
      - cbn [e_id birthday_event]. now rewrite Ev1.
      - reflexivity.
      - intros d [= <-]. exact D1. }
  apply insert_if_some_frame in I2 as (D2 & _ & Ev2).
  destruct (insert_if_some (dq_adoption_date rq) _ s2) as [s3|] eqn:I3; [reflexivity|].
  exfalso. destruct (dq_adoption_date rq) as [a|]; [|discriminate].
  cbn [insert_if_some] in I3. rewrite insert_event_succeeds in I3; [discriminate | | |].
  - cbn [e_id anniversary_event]. rewrite Ev2, Ev1, existsb_app, Ha. cbn [orb].
    destruct (dq_date_of_birth rq); [|reflexivity]. cbn.
    destruct (String.eqb_spec birthdayId anniversaryId); [contradiction | reflexivity].
  - reflexivity.
  - intros d [= <-]. unfold has_dog. rewrite D2. exact D1.
Qed.

(** C4, as the code has it on a server whose time zone is UTC.
    [POST /api/dogs] with a name, a valid gender and fresh identifiers
    answers 201.  A 201 answer has appended to the events table one recurring
    ['birthday'] event when the request has a [date_of_birth] and one
    recurring ['adoption_anniversary'] event when it has an
    [adoption_date], and nothing else.  The date of such an event is a
    calendar date in the current or the next year and is not before today;
    it has the month and day of the source date, except that a source of
    29 February gives 29 February or 1 March.  This year's date is kept
    when it is after today and replaced by next year's when it is before
    today. *)
Theorem post_dog_anniversary_events (dogId birthdayId anniversaryId user : string)
    (now : instant) (rq : dog_request) (s s' : store) (resp : response) :
  valid_instant now ->
  (forall src, dq_date_of_birth rq = Some src \/ dq_adoption_date rq = Some src ->
               valid_date src) ->
  post_dog dogId birthdayId anniversaryId 0 user now rq s = (resp, s') ->
  (forall name,
     dq_name rq = Some name -> name <> "" ->
     gender_ok (or_default (dq_gender rq) "unknown") = true ->
     has_dog s dogId = false ->
     existsb (fun e => (e_id e =? birthdayId)%string) (events s) = false ->
     existsb (fun e => (e_id e =? anniversaryId)%string) (events s) = false ->
     birthdayId <> anniversaryId ->
     status resp = 201)
  /\ (status resp = 201 ->
      exists name,
        dq_name rq = Some name
        /\ events s'
           = events s
             ++ match dq_date_of_birth rq with
                | Some b => [birthday_event birthdayId user dogId name
                               (anniversary_date 0 now b)]
                | None => []
                end
             ++ match dq_adoption_date rq with
                | Some a => [anniversary_event anniversaryId user dogId name
                               (anniversary_date 0 now a)]
                | None => []
                end)
  /\ (forall src, dq_date_of_birth rq = Some src \/ dq_adoption_date rq = Some src ->
        let today := toISODate now in
        let e := anniversary_date 0 now src in
        let c := MakeDay (year today) (month src - 1) (day src) in
        valid_date e
        /\ (year e = year today \/ year e = year today + 1)
        /\ date_le today e
        /\ (~ (month src = 2 /\ day src = 29) -> month e = month src /\ day e = day src)
        /\ (month src = 2 -> day src = 29 ->
            (month e = 2 /\ day e = 29) \/ (month e = 3 /\ day e = 1))
        /\ (date_lt today c -> e = c)
        /\ (date_lt c today -> year e = year today + 1)).
Proof.
  intros Hnow Hvalid Hpost. split; [|split].
  - intros name E N G Hd Hb Ha Hne.
    pose proof (post_dog_succeeds dogId birthdayId anniversaryId user name 0 now rq s
                  E N G Hd Hb Ha Hne) as H.
    now rewrite Hpost in H.
  - revert Hpost. unfold post_dog.
    destruct (dq_name rq) as [name|]; [|intros [= <- <-]; discriminate].
    destruct (negb _); [intros [= <- <-]; discriminate|].
    destruct (insert_dog _ s) as [s1|] eqn:E1; [|intros [= <- <-]; discriminate].
    apply insert_dog_frame in E1 as (_ & _ & Ev1 & _).
    destruct (insert_if_some (dq_date_of_birth rq) _ s1) as [s2|] eqn:E2;
      [|intros [= <- <-]; discriminate].
    apply insert_if_some_frame in E2 as (_ & _ & Ev2).
    destruct (insert_if_some (dq_adoption_date rq) _ s2) as [s3|] eqn:E3;
      [|intros [= <- <-]; discriminate].
    apply insert_if_some_frame in E3 as (_ & _ & Ev3).
    intros [= <- <-] _. exists name. split; [reflexivity|].
    now rewrite Ev3, Ev2, Ev1, <- app_assoc.
  - intros src Hsrc. apply anniversary_date_spec; auto.
Qed.

Lemma post_dog_anniversary_events_witness :
  let r := post_dog "dog-2" "ev-5" "ev-6" 0 "alice" example_now
             (new_dog_request (Some (mkDate 2020 1 10)) (Some (mkDate 2021 6 1)))
             example_store in
  events (snd r)
  = events example_store
    ++ [birthday_event "ev-5" "alice" "dog-2" "Bella" (mkDate 2025 1 10);
        anniversary_event "ev-6" "alice" "dog-2" "Bella" (mkDate 2024 6 1)].
Proof.
  intros r. subst r.
  destruct (post_dog "dog-2" "ev-5" "ev-6" 0 "alice" example_now
              (new_dog_request (Some (mkDate 2020 1 10)) (Some (mkDate 2021 6 1)))
              example_store) as [resp s'] eqn:E.
  assert (valid_instant example_now) as Hnow by calendar_facts.
  assert (forall src,
            dq_date_of_birth (new_dog_request (Some (mkDate 2020 1 10))
                                (Some (mkDate 2021 6 1))) = Some src
            \/ dq_adoption_date (new_dog_request (Some (mkDate 2020 1 10))
                                   (Some (mkDate 2021 6 1))) = Some src ->
            valid_date src) as Hsrc
    by (intros src [[= <-] | [= <-]]; calendar_facts).
  destruct (post_dog_anniversary_events "dog-2" "ev-5" "ev-6" "alice" example_now _
              example_store s' resp Hnow Hsrc E) as (Hok & Hev & _).
  destruct Hev as (name & Hname & Hev).
  { apply (Hok "Bella"); solve [reflexivity | discriminate]. }
  cbn [snd]. rewrite Hev. injection Hname as <-. vm_compute. reflexivity.
Defined.

(** C4 as stated fails.  A dog born on 29 February, created in a
    common year, gets a birthday event on 1 March: the month and day of
    the source are not kept.  And a dog whose birthday is today gets the
    event a year from now: this year's date is replaced although it has
    not passed. *)
Lemma anniversary_counterexample :
  events (snd (post_dog "dog-2" "ev-5" "ev-6" 0 "alice" (mkDate 2023 1 15, 32400000)
                 (new_dog_request (Some (mkDate 2020 2 29)) None) empty_store))
  = [birthday_event "ev-5" "alice" "dog-2" "Bella" (mkDate 2023 3 1)]
  /\ events (snd (post_dog "dog-2" "ev-5" "ev-6" 0 "alice" example_now
                    (new_dog_request (Some (mkDate 2020 1 15)) None) empty_store))
     = [birthday_event "ev-5" "alice" "dog-2" "Bella" (mkDate 2025 1 15)].
Proof. split; vm_compute; reflexivity. Qed.

(** Off UTC the stored date is a day early, east and west alike: the
    day comes from local getters and goes out through [toISOString]. *)
Example anniversary_off_utc :
  anniversary_date 60 example_now (mkDate 2020 6 10) = mkDate 2024 6 9
  /\ anniversary_date (-300) example_now (mkDate 2020 6 10) = mkDate 2024 6 9.
Proof. split; vm_compute; reflexivity. Qed.

(** ** Ownership *)

Lemma find_owned_dog_none (s : store) (user dogId : string) :
  (forall d, In d (dogs s) -> d_id d = dogId -> d_user_id d <> user) ->
  find_owned_dog s dogId user = None.
Proof.
  intros H. unfold find_owned_dog.
  destruct (find _ (dogs s)) as [d|] eqn:F; [|reflexivity].
  apply find_some in F as [Hd C]. apply andb_true_iff in C as [C1 C2].
  apply String.eqb_eq in C1, C2. exfalso. exact (H d Hd C1 C2).
Qed.

Lemma foreign_dog_not_owned (s : store) (user dogId : string) :
  dog_of_another_user s user dogId -> find_owned_dog s dogId user = None.
Proof. intros [_ H]. now apply find_owned_dog_none. Qed.

Lemma missing_dog_not_owned (s : store) (user dogId : string) :
  no_such_dog s dogId -> find_owned_dog s dogId user = None.
Proof.
  intros H. apply find_owned_dog_none. intros d Hd E. exfalso. exact (H d Hd E).
Qed.

Lemma find_owned_vaccination_none (s : store) (user vid : string) :
  (forall v, In v (vaccinations s) -> v_id v = vid ->
             find_owned_dog s (v_dog_id v) user = None) ->
  find_owned_vaccination s vid user = None.
Proof.
  intros H. unfold find_owned_vaccination.
  destruct (find _ (vaccinations s)) as [v|] eqn:F; [|reflexivity].
  apply find_some in F as [Hv C]. apply andb_true_iff in C as [C1 C2].
  apply String.eqb_eq in C1. specialize (H v Hv C1).
  apply existsb_exists in C2 as (d & Hd & C2).
  unfold find_owned_dog in H. pose proof (find_none _ _ H d Hd) as N.
  simpl in N. congruence.
Qed.

Section NotOwned.

Variables (s : store) (user dogId : string).
Hypothesis not_owned : find_owned_dog s dogId user = None.

Lemma get_dog_not_owned : get_dog user dogId s = dog_not_found.
Proof. unfold get_dog. now rewrite not_owned. Qed.

Lemma put_dog_not_owned (rq : dog_request) :
  put_dog user dogId rq s = (dog_not_found, s).
Proof. unfold put_dog. now rewrite not_owned. Qed.

Lemma delete_dog_not_owned : delete_dog user dogId s = (dog_not_found, s).
Proof. unfold delete_dog. now rewrite not_owned. Qed.

Lemma get_dog_vaccinations_not_owned (now : instant) :
  get_dog_vaccinations user dogId now s = dog_not_found.
Proof. unfold get_dog_vaccinations. now rewrite not_owned. Qed.

Lemma get_dog_events_not_owned : get_dog_events user dogId s = dog_not_found.
Proof. unfold get_dog_events. now rewrite not_owned. Qed.

Lemma post_vaccination_not_owned (id event_id : string) (rq : vaccination_request) :
  vq_dog_id rq = Some dogId ->
  post_vaccination id event_id user rq s
  = (if negb (truthy (vq_dog_id rq)) || negb (truthy (vq_vaccine_name rq))
        || negb (present (vq_date_administered rq))
     then mkResponse 400
            (JError "dog_id, vaccine_name, and date_administered are required")
     else dog_not_found, s).
Proof.
  intros E. unfold post_vaccination. rewrite E.
  destruct (truthy (Some dogId)); destruct (vq_vaccine_name rq) as [n|];
    try destruct (truthy (Some n)); destruct (vq_date_administered rq);
    cbn [negb orb present]; try reflexivity.
  now rewrite not_owned.
Qed.

Lemma post_event_not_owned (id : string) (rq : event_request) :
  eq_dog_id rq = Some dogId -> dogId <> "" ->
  post_event id user rq s
  = (if negb (truthy (eq_title rq)) || negb (present (eq_event_date rq))
     then mkResponse 400 (JError "Title and event_date are required")
     else dog_not_found, s).
Proof.
  intros E Hne. unfold post_event. rewrite E.
  assert (truthy (Some dogId) = true) as T.
  { unfold truthy. destruct (String.eqb_spec dogId ""); [contradiction | reflexivity]. }
  assert (or_default (Some dogId) "" = dogId) as D.
  { unfold or_default. destruct (String.eqb_spec dogId ""); [contradiction | reflexivity]. }
  rewrite T, D, not_owned.
  destruct (eq_title rq) as [n|]; try destruct (truthy (Some n));
    destruct (eq_event_date rq); cbn [negb orb andb present]; reflexivity.
Qed.

Lemma post_medication_not_owned (id event_id : string) (rq : medication_request) :
  mq_dog_id rq = Some dogId ->
  post_medication id event_id user rq s
  = (if negb (truthy (mq_dog_id rq)) || negb (truthy (mq_name rq))
        || negb (present (mq_start_date rq))
     then mkResponse 400 (JError "dog_id, name, and start_date are required")
     else dog_not_found, s).
Proof.
  intros E. unfold post_medication. rewrite E.
  destruct (truthy (Some dogId)); destruct (mq_name rq) as [n|];
    try destruct (truthy (Some n)); destruct (mq_start_date rq);
    cbn [negb orb present]; try reflexivity.
  now rewrite not_owned.
Qed.

Lemma ai_ask_not_owned (ask : ai_service) (id : string) (now : instant)
    (rq : ask_request) :
  aq_dog_id rq = Some dogId ->
  fst (ai_ask ask id user now rq s)
  = match aq_question rq with
    | Some question =>
        if negb (truthy (Some question))
        then mkResponse 400 (JError "Question is required")
        else match ask question (aq_provider rq) None with
             | None => mkResponse 500 (JError "Failed to process AI query")
             | Some r =>
                 if existsb (fun q => (q_id q =? id)%string) (ai_queries s)
                 then mkResponse 500 (JError "Failed to process AI query")
                 else mkResponse 200
                        (JAnswer (answer r) (sources r) (provider r) (model r))
             end
    | None => mkResponse 400 (JError "Question is required")
    end.
Proof.
  intros E. unfold ai_ask. rewrite E.
  destruct (aq_question rq) as [question|]; [|reflexivity].
  destruct (negb (truthy (Some question))); [reflexivity|].
  assert ((if truthy (Some dogId)
           then find_owned_dog s (or_default (Some dogId) "") user
           else None) = None) as ->.
  { unfold truthy, or_default. destruct (dogId =? "")%string; [reflexivity|].
    exact not_owned. }
  destruct (ask question (aq_provider rq) None) as [r|]; [|reflexivity].
  unfold insert_ai_query. cbn [q_id].
  destruct (existsb _ (ai_queries s)); reflexivity.
Qed.

End NotOwned.

(** The routes that keep a dog of another user hidden.  Take a world
    where the dog [dogId] belongs to another user and a world where there
    is no such dog.  The routes of the dogs, vaccinations, events and
    health routers that look the dog up answer the same thing in both,
    change nothing, and that answer is 404 ['Dog not found'] once the
    request passes validation; for a vaccination of such a dog, addressed
    by its own id, it is 404 ['Vaccination record not found'].
    [POST /api/ai/ask], where the dog is optional context, never answers
    404: it drops the context of a dog the caller does not own and answers
    as it does for an unknown id. *)
Lemma foreign_dog_is_not_found (user dogId : string) (s1 s2 : store) :
  dog_of_another_user s1 user dogId -> no_such_dog s2 dogId ->
  let not_found := mkResponse 404 (JError "Dog not found") in
  let no_record := mkResponse 404 (JError "Vaccination record not found") in
  (get_dog user dogId s1 = not_found /\ get_dog user dogId s2 = not_found)
  /\ (forall rq, put_dog user dogId rq s1 = (not_found, s1)
                 /\ put_dog user dogId rq s2 = (not_found, s2))
  /\ (delete_dog user dogId s1 = (not_found, s1)
      /\ delete_dog user dogId s2 = (not_found, s2))
  /\ (forall now, get_dog_vaccinations user dogId now s1 = not_found
                  /\ get_dog_vaccinations user dogId now s2 = not_found)
  /\ (get_dog_events user dogId s1 = not_found
      /\ get_dog_events user dogId s2 = not_found)
  /\ (forall id event_id rq, vq_dog_id rq = Some dogId ->
        exists r, post_vaccination id event_id user rq s1 = (r, s1)
                  /\ post_vaccination id event_id user rq s2 = (r, s2)
                  /\ (status r = 400 \/ r = not_found))
  /\ (forall id rq, eq_dog_id rq = Some dogId -> dogId <> "" ->
        exists r, post_event id user rq s1 = (r, s1)
                  /\ post_event id user rq s2 = (r, s2)
                  /\ (status r = 400 \/ r = not_found))
  /\ (forall id event_id rq, mq_dog_id rq = Some dogId ->
        exists r, post_medication id event_id user rq s1 = (r, s1)
                  /\ post_medication id event_id user rq s2 = (r, s2)
                  /\ (status r = 400 \/ r = not_found))
  /\ (forall vid rq,
        (forall v, In v (vaccinations s1) -> v_id v = vid -> v_dog_id v = dogId) ->
        (forall v, In v (vaccinations s2) -> v_id v <> vid) ->
        put_vaccination user vid rq s1 = (no_record, s1)
        /\ put_vaccination user vid rq s2 = (no_record, s2)
        /\ delete_vaccination user vid s1 = (no_record, s1)
        /\ delete_vaccination user vid s2 = (no_record, s2))
  /\ (forall ask id now rq, aq_dog_id rq = Some dogId ->
        (forall q, In q (ai_queries s1) \/ In q (ai_queries s2) -> q_id q <> id) ->
        fst (ai_ask ask id user now rq s1) = fst (ai_ask ask id user now rq s2)
        /\ status (fst (ai_ask ask id user now rq s1)) <> 404).
Proof.
  intros H1 H2 not_found no_record.
  pose proof (foreign_dog_not_owned _ _ _ H1) as N1.
  pose proof (missing_dog_not_owned _ user _ H2) as N2.
  split; [split; now apply get_dog_not_owned|].
  split; [intros rq; split; now apply put_dog_not_owned|].
  split; [split; now apply delete_dog_not_owned|].
  split; [intros now; split; now apply get_dog_vaccinations_not_owned|].
  split; [split; now apply get_dog_events_not_owned|].
  split.
  { intros id event_id rq E.
    rewrite (post_vaccination_not_owned s1 user dogId N1 id event_id rq E),
      (post_vaccination_not_owned s2 user dogId N2 id event_id rq E).
    eexists. split; [reflexivity|]. split; [reflexivity|].
    destruct (_ || _); [left | right]; reflexivity. }
  split.
  { intros id rq E Hne.
    rewrite (post_event_not_owned s1 user dogId N1 id rq E Hne),
      (post_event_not_owned s2 user dogId N2 id rq E Hne).
    eexists. split; [reflexivity|]. split; [reflexivity|].
    destruct (_ || _); [left | right]; reflexivity. }
  split.
  { intros id event_id rq E.
    rewrite (post_medication_not_owned s1 user dogId N1 id event_id rq E),
      (post_medication_not_owned s2 user dogId N2 id event_id rq E).
    eexists. split; [reflexivity|]. split; [reflexivity|].
    destruct (_ || _); [left | right]; reflexivity. }
  split.
  { intros vid rq Hv1 Hv2.
    assert (find_owned_vaccination s1 vid user = None) as F1.
    { apply find_owned_vaccination_none. intros v Hv E. now rewrite (Hv1 v Hv E). }
    assert (find_owned_vaccination s2 vid user = None) as F2.
    { apply find_owned_vaccination_none. intros v Hv E. exfalso. exact (Hv2 v Hv E). }
    unfold put_vaccination, delete_vaccination. rewrite F1, F2. auto. }
  intros ask id now rq E Hfresh.
  rewrite (ai_ask_not_owned s1 user dogId N1 ask id now rq E),
    (ai_ask_not_owned s2 user dogId N2 ask id now rq E).
  assert (forall s, (forall q, In q (ai_queries s) -> q_id q <> id) ->
                    existsb (fun q => (q_id q =? id)%string) (ai_queries s) = false) as X.
  { intros s Hs. destruct (existsb _ _) eqn:B; [|reflexivity].
    apply existsb_exists in B as (q & Hq & B). apply String.eqb_eq in B.
    exfalso. exact (Hs q Hq B). }
  rewrite (X s1), (X s2) by (intros q Hq; apply Hfresh; auto).
  split; [reflexivity|].
  destruct (aq_question rq) as [question|]; [|discriminate].
  destruct (negb _); [discriminate|].
  destruct (ask _ _ _); discriminate.
Qed.

Lemma foreign_dog_is_not_found_witness :
  get_dog "bob" "dog-1" world_with_foreign_dog = mkResponse 404 (JError "Dog not found")
  /\ get_dog "bob" "dog-1" world_without_dog = mkResponse 404 (JError "Dog not found").
Proof.
  apply (foreign_dog_is_not_found "bob" "dog-1" world_with_foreign_dog world_without_dog).
  - split.
    + exists rex. split; [now left | reflexivity].
    + intros d [<- | []] _. discriminate.
  - intros d [].
Defined.

(** C8.  The code at the failing input: [GET /api/ai/history] joins
    the dogs table without the owner check that every other look-up has.
    Bob asks a question and names Alice's dog as context; the answer is
    the same as in a world without that dog.  Bob then reads his history
    filtered by that dog id: the answer is 200, not 404, and its row
    carries the name of Alice's dog, where the world without the dog
    gives NULL.  The two worlds can be told apart. *)
Theorem history_discloses_foreign_dog :
  let w1 := snd (ai_ask canned_answer "q-1" "bob" example_now bob_question
                   world_with_foreign_dog) in
  let w2 := snd (ai_ask canned_answer "q-1" "bob" example_now bob_question
                   world_without_dog) in
  let row := mkAiQuery "q-1" "bob" (Some "dog-1") "Is rice safe?" "Ask your vet."
               "anthropic" "claude" ["AKC"] (mkDate 2024 1 15, 32400) in
  dog_of_another_user world_with_foreign_dog "bob" "dog-1"
  /\ no_such_dog world_without_dog "dog-1"
  /\ fst (ai_ask canned_answer "q-1" "bob" example_now bob_question world_with_foreign_dog)
     = fst (ai_ask canned_answer "q-1" "bob" example_now bob_question world_without_dog)
  /\ ai_history "bob" (Some "dog-1") None w1
     = mkResponse 200 (JHistory [(row, Some "Rex")])
  /\ ai_history "bob" (Some "dog-1") None w2
     = mkResponse 200 (JHistory [(row, None)])
  /\ ai_history "bob" (Some "dog-1") None w1 <> ai_history "bob" (Some "dog-1") None w2.
Proof.
  cbv zeta. split.
  { split.
    - exists rex. split; [left; reflexivity | reflexivity].
    - intros d [<- | []] _. discriminate. }
  split; [intros d []|].
  split; [vm_compute; reflexivity|].
  split; [vm_compute; reflexivity|]. split; [vm_compute; reflexivity|].
  vm_compute. discriminate.
Qed.

(** ** The food search *)

Lemma LOWER_app (a b : string) : LOWER (a ++ b) = (LOWER a ++ LOWER b)%string.
Proof. induction a as [|c a IH]; simpl; [reflexivity | now rewrite IH]. Qed.

Lemma LOWER_not_empty (q : string) : LOWER q <> "" -> truthy (Some q) = true.
Proof. destruct q; [intros H; now contradiction H | reflexivity]. Qed.

(** C9.  On the seeded database, a search for any spelling of
    ["chocolate"] that differs only in letter case answers 200 with
    exactly one result, the Chocolate entry, whose safety level is
    ['toxic'].  On any database, a non-empty search term that matches no
    row answers 200 with an empty result list. *)
Theorem chocolate_search (q : string) :
  LOWER q = "chocolate" ->
  food_search (Some q) seeded_store
  = mkResponse 200 (JFoodResults [mkFood "chocolate" "Chocolate" "toxic" false "toxic"] q)
  /\ (forall (s : store) (term : string),
        term <> "" ->
        (forall f, In f (food_database s) ->
           sql_like (LOWER (f_food_name f)) (LOWER ("%" ++ term ++ "%")) = false
           /\ sql_like (LOWER (f_category f)) (LOWER ("%" ++ term ++ "%")) = false) ->
        food_search (Some term) s = mkResponse 200 (JFoodResults [] term)).
Proof.
  intros Hq. split.
  - unfold food_search. rewrite LOWER_not_empty by (rewrite Hq; discriminate).
    cbn [negb]. rewrite !LOWER_app, Hq.
    set (foods := order_by _ _). vm_compute in foods. reflexivity.
  - intros s term Hne Hnone. unfold food_search.
    assert (truthy (Some term) = true) as ->.
    { unfold truthy. destruct (String.eqb_spec term ""); [contradiction | reflexivity]. }
    cbn [negb].
    replace (filter _ (food_database s)) with (@nil food_row); [reflexivity|].
    symmetry. induction (food_database s) as [|f l IH]; [reflexivity|].
    cbn [filter]. destruct (Hnone f (or_introl eq_refl)) as [-> ->]. cbn [orb].
    apply IH. intros g Hg. apply Hnone. now right.
Qed.

Lemma chocolate_search_witness :
  food_search (Some "CHOCOLATE") seeded_store
  = mkResponse 200
      (JFoodResults [mkFood "chocolate" "Chocolate" "toxic" false "toxic"] "CHOCOLATE")
  /\ food_search (Some "ChOcOlAtE") seeded_store
     = mkResponse 200
         (JFoodResults [mkFood "chocolate" "Chocolate" "toxic" false "toxic"] "ChOcOlAtE")
  /\ food_search (Some "zucchini") seeded_store
     = mkResponse 200 (JFoodResults [] "zucchini").
Proof.
  split; [apply (chocolate_search "CHOCOLATE"); reflexivity|].
  split; [apply (chocolate_search "ChOcOlAtE"); reflexivity|].
  apply (chocolate_search "CHOCOLATE"); [reflexivity | discriminate |].
  intros f Hf. vm_compute in Hf.
  repeat (destruct Hf as [<- | Hf]; [split; vm_compute; reflexivity|]).
  destruct Hf.
Defined.

(* ================================================================== *)
(** * Further properties of the code                                    *)
(* ================================================================== *)

(** ** Calendar arithmetic of the look-ahead bounds *)

Lemma next_month_index (m0 : Z) :
  (m0 mod 12 < 11 /\ (m0 + 1) / 12 = m0 / 12 /\ (m0 + 1) mod 12 = m0 mod 12 + 1)
  \/ (m0 mod 12 = 11 /\ (m0 + 1) / 12 = m0 / 12 + 1 /\ (m0 + 1) mod 12 = 0).
Proof.
  pose proof (Z.div_mod m0 12 ltac:(lia)) as H.
  pose proof (Z.mod_pos_bound m0 12 ltac:(lia)) as Hb.
  pose proof (Z.div_mod (m0 + 1) 12 ltac:(lia)) as H'.
  pose proof (Z.mod_pos_bound (m0 + 1) 12 ltac:(lia)) as Hb'.
  lia.
Qed.

(** A whole month after the first of a month is the first of the next
    month. *)
Lemma first_of_next_month (y m0 : Z) :
  addDays (mkDate (y + m0 / 12) (m0 mod 12 + 1) 1)
          (Z.to_nat (days_in_month (y + m0 / 12) (m0 mod 12 + 1)))
  = mkDate (y + (m0 + 1) / 12) ((m0 + 1) mod 12 + 1) 1.
Proof.
  pose proof (days_in_month_bounds (y + m0 / 12) (m0 mod 12 + 1)) as Hb.
  set (Y := y + m0 / 12) in *. set (M := m0 mod 12 + 1) in *.
  set (n := days_in_month Y M) in *.
  replace (Z.to_nat n) with (S (Z.to_nat (n - 1))) by lia.
  rewrite addDays_S, addDays_first_of_month by (fold n; lia).
  unfold nextDay; cbn [year month day]. fold n.
  replace (1 + Z.of_nat (Z.to_nat (n - 1))) with n by lia.
  rewrite Z.ltb_irrefl.
  pose proof (Z.mod_pos_bound m0 12 ltac:(lia)) as Hm.
  destruct (next_month_index m0) as [(H1 & H2 & H3) | (H1 & H2 & H3)];
    rewrite H2, H3; subst Y M.
  - destruct (Z.ltb_spec (m0 mod 12 + 1) 12); [reflexivity | lia].
  - destruct (Z.ltb_spec (m0 mod 12 + 1) 12); [lia|].
    apply date_ext; cbn [year month day]; lia.
Qed.

Lemma addDays_days_of_months (y m0 : Z) (k : nat) :
  addDays (mkDate (y + m0 / 12) (m0 mod 12 + 1) 1) (days_of_months y m0 k)
  = mkDate (y + (m0 + Z.of_nat k) / 12) ((m0 + Z.of_nat k) mod 12 + 1) 1.
Proof.
  revert m0. induction k as [|k IH]; intros m0.
  - cbn [days_of_months]. rewrite addDays_0, Z.add_0_r. reflexivity.
  - cbn [days_of_months]. rewrite addDays_add, first_of_next_month, IH.
    replace (m0 + 1 + Z.of_nat k) with (m0 + Z.of_nat (S k)) by lia.
    reflexivity.
Qed.

Lemma setMonth_getMonth_plus (tz : Z) (i : instant) (k : nat) :
  valid_tz tz -> valid_instant i ->
  setMonth tz i (getMonth tz i + Z.of_nat k)
  = (addDays (fst i)
       (days_of_months (year (fst (LocalTime tz i))) (month (fst (LocalTime tz i)) - 1) k),
     snd i).
Proof.
  intros Htz Hi.
  pose proof (valid_LocalTime tz i Htz Hi) as [[Hm Hd] _].
  unfold setMonth, getMonth. cbv zeta.
  set (l := LocalTime tz i) in *.
  set (n := days_of_months (year (fst l)) (month (fst l) - 1) k).
  assert (E : MakeDay (year (fst l)) (month (fst l) - 1 + Z.of_nat k) (day (fst l))
              = addDays (fst l) n).
  { unfold MakeDay. rewrite <- addDays_days_of_months. fold n.
    destruct (month_index (month (fst l)) Hm) as [E1 E2]. rewrite E1, E2, Z.add_0_r.
    rewrite <- addDays_add, Nat.add_comm, addDays_add.
    rewrite addDays_first_of_month by lia.
    replace (1 + Z.of_nat (Z.to_nat (day (fst l) - 1))) with (day (fst l)) by lia.
    rewrite <- (date_eta (fst l)). reflexivity. }
  rewrite E. subst l. apply UTC_addDays_LocalTime; assumption.
Qed.

Lemma days_of_one_month (y m : Z) :
  (28 <= days_of_months y (m - 1) 1 <= 31)%nat.
Proof.
  cbn [days_of_months].
  pose proof (days_in_month_bounds (y + (m - 1) / 12) ((m - 1) mod 12 + 1)). lia.
Qed.

Lemma days_of_three_months (y m : Z) :
  1 <= m <= 12 -> (89 <= days_of_months y (m - 1) 3 <= 92)%nat.
Proof.
  intros Hm.
  assert (C : m = 1 \/ m = 2 \/ m = 3 \/ m = 4 \/ m = 5 \/ m = 6 \/ m = 7 \/ m = 8
              \/ m = 9 \/ m = 10 \/ m = 11 \/ m = 12) by lia.
  cbn [days_of_months]. unfold days_in_month.
  repeat (destruct C as [C | C]; [subst m; cbn; repeat destruct (is_leap _); cbn; lia|]).
  subst m; cbn; repeat destruct (is_leap _); cbn; lia.
Qed.

(** X1.  [setMonth(getMonth() + k)], the "same day [k] months ahead" of
    [getUpcomingReminders] ([k = 1]) and of [GET /api/vaccinations/upcoming]
    ([k = 3]), moves the UTC date forward by the lengths of the [k]
    calendar months that start with the current local month and keeps the
    time of day: 28 to 31 days for one month, 89 to 92 days for three. *)
Theorem setMonth_adds_month_lengths (tz : Z) (now : instant) (k : nat) :
  valid_tz tz -> valid_instant now ->
  let l := fst (LocalTime tz now) in
  let n := days_of_months (year l) (month l - 1) k in
  setMonth tz now (getMonth tz now + Z.of_nat k) = (addDays (toISODate now) n, snd now)
  /\ (k = 1%nat -> (28 <= n <= 31)%nat)
  /\ (k = 3%nat -> (89 <= n <= 92)%nat).
Proof.
  intros Htz Hi l n. split; [|split].
  - apply setMonth_getMonth_plus; assumption.
  - intros ->. apply days_of_one_month.
  - intros ->. apply days_of_three_months.
    apply (valid_LocalTime tz now Htz Hi).
Qed.

Lemma setMonth_adds_month_lengths_witness :
  setMonth 120 (mkDate 2023 11 30, 79200000) (getMonth 120 (mkDate 2023 11 30, 79200000) + 3)
  = (mkDate 2024 2 29, 79200000).
Proof.
  assert (Htz : valid_tz 120) by calendar_facts.
  assert (Hi : valid_instant (mkDate 2023 11 30, 79200000)) by calendar_facts.
  destruct (setMonth_adds_month_lengths 120 (mkDate 2023 11 30, 79200000) 3 Htz Hi)
    as [E _].
  etransitivity; [exact E|]. vm_compute. reflexivity.
Defined.

(** ** The scheduler's look-ahead and the upcoming lists *)

Lemma In_upcoming_vaccination_rows (s : store) (user : string) (lower upper : date)
    (r : UpcomingVaccination) :
  In r (upcoming_vaccination_rows s user lower upper) <->
  exists v d nd,
    In v (vaccinations s) /\ In d (dogs s) /\ d_id d = v_dog_id v
    /\ d_user_id d = user /\ v_next_due_date v = Some nd
    /\ date_le lower nd /\ date_le nd upper
    /\ r = mkUpcomingVaccination (v_id v) (d_name d) (v_vaccine_name v)
             (v_next_due_date v) (d_user_id d).
Proof.
  unfold upcoming_vaccination_rows. rewrite in_flat_map. split.
  - intros (v & Hv & Hr). apply in_map_iff in Hr as (d & <- & Hd).
    apply filter_In in Hd as (Hd & Hc). apply andb_prop in Hc as (Hid & Hc).
    apply sql_where_and in Hc as (Hu & Hc). apply sql_where_and in Hc as (Hge & Hle).
    apply sql_where_ge in Hge as (nd & End & Hge).
    apply sql_where_le in Hle as (nd' & End' & Hle).
    rewrite End in End'. injection End' as <-.
    rewrite sql_where_Some in Hu.
    exists v, d, nd. apply String.eqb_eq in Hid.
    destruct (String.eqb_spec (d_user_id d) user) as [Eu|]; [|discriminate].
    repeat split; assumption.
  - intros (v & d & nd & Hv & Hd & Hid & Hu & End & Hge & Hle & ->).
    exists v. split; [assumption|]. apply in_map_iff. exists d. split; [reflexivity|].
    apply filter_In. split; [assumption|]. apply andb_true_intro. split.
    + apply String.eqb_eq. assumption.
    + apply sql_where_and. split.
      * rewrite sql_where_Some. apply String.eqb_eq in Hu. rewrite Hu. reflexivity.
      * apply sql_where_and. split.
        -- apply sql_where_ge. exists nd. split; assumption.
        -- apply sql_where_le. exists nd. split; assumption.
Qed.

(** X2.  Whatever vaccination reminder the daily scan prints for a dog
    of [user] is, at that instant, also in the [vaccinations] list that
    [getUpcomingReminders(user)] returns: the scan's 7-day window lies
    inside the helper's one-month window. *)
Theorem scan_reminders_in_upcoming (tz : Z) (now : instant) (s : store)
    (user : string) (r : UpcomingVaccination) :
  valid_tz tz -> valid_instant now ->
  In (VaccinationReminder r) (fst (checkVaccinationReminders tz now s)) ->
  uv_user_id r = user ->
  In r (fst (getUpcomingReminders tz user now s)).
Proof.
  intros Htz Hi Hr Hu.
  rewrite scan_log in Hr. apply in_map_iff in Hr as (r' & [= ->] & Hr).
  apply In_due_vaccination_query in Hr as (v & d & Hv & Hd & Hid & Hc & ->).
  apply due_vaccination_cond_spec in Hc as (_ & nd & End & Hlo & Hhi).
  cbn [uv_user_id] in Hu.
  unfold getUpcomingReminders. cbv zeta. cbn [fst].
  apply order_by_In. apply In_upcoming_vaccination_rows.
  exists v, d, nd. repeat split; try assumption.
  rewrite setDate_getDate_plus in Hhi by (assumption || lia).
  change (getMonth tz now + 1) with (getMonth tz now + Z.of_nat 1).
  rewrite setMonth_getMonth_plus by assumption.
  unfold toISODate in *. cbn [fst] in *.
  eapply date_le_trans; [exact Hhi|].
  apply addDays_le_mono; [apply Hi|].
  pose proof (days_of_one_month (year (fst (LocalTime tz now)))
                (month (fst (LocalTime tz now)))) as Hb.
  change (Z.to_nat 7) with 7%nat. lia.
Qed.

Lemma scan_reminders_in_upcoming_witness :
  In (mkUpcomingVaccination "vax-1" "Rex" "Rabies" (Some (mkDate 2024 1 20)) "alice")
     (fst (getUpcomingReminders 0 "alice" example_now example_store)).
Proof.
  apply scan_reminders_in_upcoming.
  - calendar_facts.
  - calendar_facts.
  - vm_compute. left. reflexivity.
  - reflexivity.
Defined.

Lemma In_joined_events (s : store) (cond : event_row -> bool)
    (p : event_row * option string) :
  In p (joined_events s cond) <->
  In (fst p) (events s) /\ cond (fst p) = true
  /\ In (snd p) (left_join_dog_names s (e_dog_id (fst p))).
Proof.
  unfold joined_events. rewrite in_flat_map. split.
  - intros (e & He & Hp). destruct (cond e) eqn:Hc; [|contradiction].
    apply in_map_iff in Hp as (n & <- & Hn). cbn [fst snd]. auto.
  - intros (He & Hc & Hn). exists (fst p). split; [assumption|].
    rewrite Hc. apply in_map_iff. exists (snd p). split; [|assumption].
    destruct p; reflexivity.
Qed.

Lemma active_between_spec (user : string) (lower upper : date) (e : event_row) :
  active_between user lower upper e = true <->
  e_user_id e = user /\ e_is_active e = true
  /\ date_le lower (e_event_date e) /\ date_le (e_event_date e) upper.
Proof.
  unfold active_between.
  rewrite !andb_true_iff, String.eqb_eq, !date_leb_le. tauto.
Qed.

(** X4.  [GET /api/events/upcoming]: every row of the [today] list
    is an event whose date SQLite's [date()] reads as today (UTC); when
    that date is in the calendar, the event is dated today and the row is
    also in the [upcoming] list.  Every row of the [upcoming] list is an
    active event of the caller dated, as text, from today to 30 days
    ahead, both ends included. *)
Theorem today_events_in_upcoming (tz : Z) (user : string) (now : instant) (s : store) :
  valid_tz tz -> valid_instant now ->
  let today := toISODate now in
  (forall p, In p (snd (get_upcoming_events tz user now s)) ->
             sql_date (Some (e_event_date (fst p))) = Some today
             /\ (valid_date (e_event_date (fst p)) ->
                 In p (fst (get_upcoming_events tz user now s))
                 /\ e_event_date (fst p) = today))
  /\ (forall p, In p (fst (get_upcoming_events tz user now s)) <->
                In (fst p) (events s)
                /\ In (snd p) (left_join_dog_names s (e_dog_id (fst p)))
                /\ e_user_id (fst p) = user /\ e_is_active (fst p) = true
                /\ date_le today (e_event_date (fst p))
                /\ date_le (e_event_date (fst p)) (addDays today 30)).
Proof.
  intros Htz Hi today.
  assert (Hup : forall p, In p (fst (get_upcoming_events tz user now s)) <->
                In (fst p) (events s)
                /\ In (snd p) (left_join_dog_names s (e_dog_id (fst p)))
                /\ e_user_id (fst p) = user /\ e_is_active (fst p) = true
                /\ date_le today (e_event_date (fst p))
                /\ date_le (e_event_date (fst p)) (addDays today 30)).
  { intros p. unfold get_upcoming_events. cbv zeta. cbn [fst].
    rewrite order_by_In, In_joined_events, active_between_spec.
    rewrite setDate_getDate_plus by (assumption || lia).
    change (Z.to_nat 30) with 30%nat. unfold toISODate. cbn [fst]. subst today.
    unfold toISODate. tauto. }
  split; [|exact Hup].
  intros p Hp. unfold get_upcoming_events in Hp. cbv zeta in Hp. cbn [snd] in Hp.
  apply In_joined_events in Hp as (He & Hc & Hn).
  apply andb_prop in Hc as (Hc & Hd). apply andb_prop in Hc as (Hu & Ha).
  apply String.eqb_eq in Hu.
  assert (Hv : valid_date today) by apply Hi.
  fold today in Hd. rewrite (sql_date_valid today Hv) in Hd.
  destruct (sql_date (Some (e_event_date (fst p)))) as [t|] eqn:Et; [|discriminate].
  cbn [sql_cmp] in Hd. rewrite sql_where_Some in Hd. apply date_eqb_eq in Hd. subst t.
  split; [reflexivity|]. intros Hvalid.
  rewrite (sql_date_valid _ Hvalid) in Et. injection Et as Et.
  split; [|assumption].
  apply Hup. rewrite Et. repeat split; try assumption.
  - apply date_le_refl.
  - apply le_addDays. assumption.
Qed.

Lemma today_events_in_upcoming_witness :
  In (pill_event, Some "Rex")
     (fst (get_upcoming_events 0 "alice" example_now example_store)).
Proof.
  assert (Htz : valid_tz 0) by calendar_facts.
  assert (Hi : valid_instant example_now) by calendar_facts.
  pose proof (today_events_in_upcoming 0 "alice" example_now example_store Htz Hi) as H.
  cbv zeta in H. destruct H as [H _].
  destruct (H (pill_event, Some "Rex")) as [_ H1].
  - vm_compute. left. reflexivity.
  - apply H1. calendar_facts.
Defined.

(** ** An event's reminder over the days *)




Lemma In_reminded_event_ids (now : instant) (s : store) (id : string) :
  In id (reminded_event_ids (checkEventReminders now s)) <->
  exists e, In e (events s) /\ e_id e = id
            /\ sql_where (event_window_cond (toISODate now) e) = true.
Proof.
  unfold checkEventReminders. cbv zeta. rewrite reminded_event_ids_events.
  rewrite in_map_iff. split.
  - intros (r & <- & Hr). apply In_event_window_query in Hr as (e & n & He & Hc & _ & ->).
    exists e. auto.
  - intros (e & He & <- & Hc).
    destruct (left_join_dog_names_inhabited s (e_dog_id e)) as [n Hn].
    exists (mkUpcomingEvent (e_id e) (e_title e) (e_event_date e) n (e_user_id e)).
    split; [reflexivity|]. apply In_event_window_query. exists e, n. auto.
Qed.



(** ** What an INSERT that went through did *)

Lemma insert_dog_Some (r : dog_row) (s s' : store) :
  insert_dog r s = Some s' ->
  s' = set_dogs s (dogs s ++ [r]) /\ has_dog s (d_id r) = false.
Proof.
  unfold insert_dog. destruct (has_dog s (d_id r)); [discriminate|].
  destruct (negb (gender_ok (d_gender r))); [discriminate|].
  intros [= <-]. auto.
Qed.

Lemma insert_vaccination_Some (r : vaccination_row) (s s' : store) :
  insert_vaccination r s = Some s' ->
  s' = set_vaccinations s (vaccinations s ++ [r])
  /\ has_dog s (v_dog_id r) = true
  /\ existsb (fun v => (v_id v =? v_id r)%string) (vaccinations s) = false.
Proof.
  unfold insert_vaccination.
  destruct (existsb _ (vaccinations s)); [discriminate|].
  destruct (has_dog s (v_dog_id r)); [|discriminate].
  intros [= <-]. auto.
Qed.

Lemma insert_event_Some (r : event_row) (s s' : store) :
  insert_event r s = Some s' ->
  s' = set_events s (events s ++ [r])
  /\ existsb (fun e => (e_id e =? e_id r)%string) (events s) = false.
Proof.
  unfold insert_event.
  destruct (existsb _ (events s)); [discriminate|].
  destruct (negb (event_type_ok (e_event_type r))); [discriminate|].
  destruct (match e_dog_id r with Some d => negb (has_dog s d) | None => false end);
    [discriminate|].
  intros [= <-]. auto.
Qed.

Lemma insert_if_some_Some {A : Type} (x : option A) (mk : A -> event_row) (s s' : store) :
  insert_if_some x mk s = Some s' ->
  s' = set_events s (events s ++ match x with Some a => [mk a] | None => [] end).
Proof.
  destruct x as [a|]; cbn [insert_if_some].
  - intros H. apply insert_event_Some in H. apply H.
  - intros [= <-]. destruct s. unfold set_events. cbn. rewrite app_nil_r. reflexivity.
Qed.

Lemma insert_medication_Some (r : medication_row) (s s' : store) :
  insert_medication r s = Some s' ->
  s' = set_medications s (medications s ++ [r]).
Proof.
  unfold insert_medication.
  destruct (existsb _ (medications s)); [discriminate|].
  destruct (negb (has_dog s (m_dog_id r))); [discriminate|].
  intros [= <-]. reflexivity.
Qed.

Lemma insert_ai_query_Some (r : ai_query_row) (s s' : store) :
  insert_ai_query r s = Some s' ->
  s' = set_ai_queries s (ai_queries s ++ [r]).
Proof.
  unfold insert_ai_query.
  destruct (existsb _ (ai_queries s)); [discriminate|].
  intros [= <-]. reflexivity.
Qed.

(** The state after a [POST /api/vaccinations] answered with 201. *)
Lemma post_vaccination_201 (id event_id user : string) (rq : vaccination_request)
    (s s' : store) (resp : response) :
  post_vaccination id event_id user rq s = (resp, s') -> status resp = 201 ->
  exists dog_id name administered d,
    vq_dog_id rq = Some dog_id /\ vq_vaccine_name rq = Some name
    /\ vq_date_administered rq = Some administered
    /\ find_owned_dog s dog_id user = Some d
    /\ dogs s' = dogs s /\ medications s' = medications s
    /\ vaccinations s' =
         vaccinations s ++
           [mkVaccination id dog_id name administered (vq_next_due_date rq)
              (or_null (vq_administered_by rq)) (or_null (vq_lot_number rq))
              (or_null (vq_notes rq)) false]
    /\ events s' =
         events s ++
           match vq_next_due_date rq with
           | Some nd =>
               [mkEvent event_id user (Some dog_id) (name ++ " Vaccination Due")
                  (Some "Vaccination reminder for your dog") "vet_appointment" nd
                  false None 14 true]
           | None => []
           end.
Proof.
  unfold post_vaccination.
  destruct (negb (truthy (vq_dog_id rq)) || negb (truthy (vq_vaccine_name rq))
            || negb (present (vq_date_administered rq)));
    [intros [= <- <-]; discriminate|].
  destruct (vq_dog_id rq) as [dog_id|]; [|intros [= <- <-]; discriminate].
  destruct (vq_vaccine_name rq) as [name|]; [|intros [= <- <-]; discriminate].
  destruct (vq_date_administered rq) as [administered|];
    [|intros [= <- <-]; discriminate].
  destruct (find_owned_dog s dog_id user) as [d|] eqn:Hd;
    [|intros [= <- <-]; discriminate].
  destruct (insert_vaccination _ s) as [s1|] eqn:H1; [|intros [= <- <-]; discriminate].
  apply insert_vaccination_Some in H1 as (-> & _ & _).
  destruct (vq_next_due_date rq) as [nd|].
  - destruct (insert_event _ _) as [s2|] eqn:H2; [|intros [= <- <-]; discriminate].
    apply insert_event_Some in H2 as (-> & _).
    intros [= <- <-] _. exists dog_id, name, administered, d. cbn. auto 10.
  - intros [= <- <-] _. exists dog_id, name, administered, d. cbn.
    rewrite app_nil_r. auto 10.
Qed.

(** ** Vaccinations router *)

Lemma insert_sorted_length {A : Type} (leb : A -> A -> bool) (x : A) (l : list A) :
  List.length (insert_sorted leb x l) = S (List.length l).
Proof.
  induction l as [|y l IH]; cbn; [reflexivity|].
  destruct (leb x y); cbn; [reflexivity|]. rewrite IH. reflexivity.
Qed.

Lemma order_by_length {A : Type} (leb : A -> A -> bool) (l : list A) :
  List.length (order_by leb l) = List.length l.
Proof.
  induction l as [|x l IH]; cbn; [reflexivity|].
  unfold order_by in IH. rewrite insert_sorted_length, IH. reflexivity.
Qed.

Lemma filter_three_way {A : Type} (p q r : A -> bool) (l : list A) :
  (forall x, In x l ->
     (p x = true /\ q x = false /\ r x = false)
     \/ (p x = false /\ q x = true /\ r x = false)
     \/ (p x = false /\ q x = false /\ r x = true)) ->
  (List.length (filter p l) + List.length (filter q l) + List.length (filter r l)
   = List.length l)%nat.
Proof.
  induction l as [|x l IH]; intros H; [reflexivity|].
  specialize (IH (fun y Hy => H y (or_intror Hy))).
  cbn [filter].
  destruct (H x (or_introl eq_refl)) as [(-> & -> & ->) | [(-> & -> & ->) | (-> & -> & ->)]];
    cbn [List.length]; lia.
Qed.

(** X5.  [GET /api/vaccinations/dog/:dogId] on a dog of the caller:
    [all] holds exactly the dog's vaccinations and [total] counts them;
    [upcoming] holds those due today or later, [overdue] those due before
    today, a vaccination is never in both, and one without a due date is
    in neither: the three groups add up to [total]. *)
Theorem dog_vaccinations_partition (user dogId : string) (now : instant) (s : store)
    (all upcoming overdue_rows : list vaccination_row) (total : nat) :
  get_dog_vaccinations user dogId now s
  = mkResponse 200 (JVaccinationList all upcoming overdue_rows total) ->
  total = List.length all
  /\ (forall v, In v all <-> In v (vaccinations s) /\ v_dog_id v = dogId)
  /\ (forall v, In v upcoming <->
                In v all /\ exists nd, v_next_due_date v = Some nd
                                       /\ date_le (toISODate now) nd)
  /\ (forall v, In v overdue_rows <->
                In v all /\ exists nd, v_next_due_date v = Some nd
                                       /\ date_lt nd (toISODate now))
  /\ (forall v, ~ (In v upcoming /\ In v overdue_rows))
  /\ (List.length upcoming + List.length overdue_rows
      + List.length (filter (fun v => (v_dog_id v =? dogId)%string
                                      && negb (present (v_next_due_date v)))
                            (vaccinations s))
      = total)%nat.
Proof.
  unfold get_dog_vaccinations.
  destruct (find_owned_dog s dogId user); [|discriminate].
  cbv zeta. intros [= <- <- <- <-].
  set (mine := filter (fun v => (v_dog_id v =? dogId)%string) (vaccinations s)).
  assert (Hall : forall v, In v (order_by
                   (fun a b => date_leb (v_date_administered b) (v_date_administered a))
                   mine) <-> In v (vaccinations s) /\ v_dog_id v = dogId).
  { intros v. rewrite order_by_In. unfold mine. rewrite filter_In, String.eqb_eq. tauto. }
  assert (Hup : forall v, In v (order_by
                   (fun a b => opt_date_leb (v_next_due_date a) (v_next_due_date b))
                   (filter (fun v => sql_where (sql_ge (v_next_due_date v)
                                                  (Some (toISODate now)))) mine))
                <-> (In v (vaccinations s) /\ v_dog_id v = dogId)
                    /\ exists nd, v_next_due_date v = Some nd
                                  /\ date_le (toISODate now) nd).
  { intros v. rewrite order_by_In, filter_In, sql_where_ge. unfold mine.
    rewrite filter_In, String.eqb_eq. tauto. }
  assert (Hov : forall v, In v (order_by
                   (fun a b => opt_date_leb (v_next_due_date a) (v_next_due_date b))
                   (filter (fun v => sql_where (overdue_cond (toISODate now)
                                                  (v_next_due_date v))) mine))
                <-> (In v (vaccinations s) /\ v_dog_id v = dogId)
                    /\ exists nd, v_next_due_date v = Some nd
                                  /\ date_lt nd (toISODate now)).
  { intros v. rewrite order_by_In, filter_In, overdue_cond_spec. unfold mine.
    rewrite filter_In, String.eqb_eq. tauto. }
  split; [reflexivity|]. split; [exact Hall|].
  split; [intros v; rewrite Hup, Hall; tauto|].
  split; [intros v; rewrite Hov, Hall; tauto|].
  split.
  - intros v [H1 H2]. apply Hup in H1 as (_ & nd & E & Hle).
    apply Hov in H2 as (_ & nd' & E' & Hlt). rewrite E in E'. injection E' as <-.
    exact (date_lt_not_le _ _ Hlt Hle).
  - rewrite !order_by_length.
    assert (E : filter (fun v => (v_dog_id v =? dogId)%string
                                 && negb (present (v_next_due_date v))) (vaccinations s)
                = filter (fun v => negb (present (v_next_due_date v))) mine).
    { unfold mine. clear. induction (vaccinations s) as [|v l IH]; [reflexivity|].
      cbn [filter]. destruct (v_dog_id v =? dogId)%string; cbn [andb filter];
        rewrite IH; reflexivity. }
    rewrite E. apply filter_three_way. intros v _.
    destruct (v_next_due_date v) as [nd|]; cbn [present negb].
    + cbn. destruct (date_leb (toISODate now) nd) eqn:Hle.
      * left. repeat split.
        apply date_leb_le in Hle.
        destruct (date_ltb nd (toISODate now)) eqn:Hlt; [|reflexivity].
        apply date_ltb_lt in Hlt. exfalso. exact (date_lt_not_le _ _ Hlt Hle).
      * right. left. repeat split.
        apply date_leb_false_lt in Hle. apply date_ltb_lt in Hle. rewrite Hle.
        reflexivity.
    + right. right. repeat split.
Qed.

Lemma dog_vaccinations_partition_witness :
  (1 = List.length [rabies_shot])%nat.
Proof.
  refine (proj1 (dog_vaccinations_partition "alice" "dog-1" example_now example_store
                   [rabies_shot] [rabies_shot] [] 1%nat _)).
  vm_compute. reflexivity.
Defined.

(** X6.  [PUT /api/vaccinations/:id] writes to the vaccinations table
    alone: whatever the answer, the dogs and the events are as before, so
    the reminder event created with the vaccination keeps its date and the
    event scan prints what it printed before.  A row keeps its id, its dog
    and its reminder flag, a request that sends no [next_due_date] (or
    [null]) leaves the due date as it is, and rows with another id are
    left as they were. *)
Theorem put_vaccination_effect (user id : string) (rq : vaccination_request) (s : store) :
  let s' := snd (put_vaccination user id rq s) in
  dogs s' = dogs s /\ events s' = events s
  /\ (forall now, checkEventReminders now s' = checkEventReminders now s)
  /\ map v_id (vaccinations s') = map v_id (vaccinations s)
  /\ forall v', In v' (vaccinations s') ->
       exists v, In v (vaccinations s)
                 /\ v_id v' = v_id v /\ v_dog_id v' = v_dog_id v
                 /\ v_reminder_sent v' = v_reminder_sent v
                 /\ (vq_next_due_date rq = None ->
                     v_next_due_date v' = v_next_due_date v)
                 /\ (v_id v <> id -> v' = v).
Proof.
  cbv zeta. unfold put_vaccination.
  destruct (find_owned_vaccination s id user) as [found|]; cbn [snd].
  - cbn [set_vaccinations dogs events vaccinations].
    split; [reflexivity|]. split; [reflexivity|].
    split; [intros now; apply checkEventReminders_same; reflexivity|].
    split.
    + rewrite map_map. apply map_ext. intros v.
      destruct (v_id v =? id)%string; reflexivity.
    + intros v' Hv'. apply in_map_iff in Hv' as (v & <- & Hv). exists v.
      split; [assumption|].
      destruct (String.eqb_spec (v_id v) id) as [E|N].
      * cbn. repeat split; try contradiction.
        intros ->. reflexivity.
      * repeat split; trivial.
  - split; [reflexivity|]. split; [reflexivity|]. split; [reflexivity|].
    split; [reflexivity|].
    intros v' Hv'. exists v'. repeat split; trivial.
Qed.

Lemma find_owned_vaccination_last (s : store) (user id : string) (r : vaccination_row)
    (l : list vaccination_row) :
  v_id r = id ->
  existsb (fun v => (v_id v =? id)%string) l = false ->
  existsb (fun d => (d_id d =? v_dog_id r)%string && (d_user_id d =? user)%string)
          (dogs s) = true ->
  find (fun v => (v_id v =? id)%string
                 && existsb (fun d => (d_id d =? v_dog_id v)%string
                                      && (d_user_id d =? user)%string) (dogs s))
       (l ++ [r]) = Some r.
Proof.
  intros <- Hl Hd. induction l as [|v l IH]; cbn [app find].
  - rewrite String.eqb_refl, Hd. reflexivity.
  - cbn [existsb] in Hl. apply orb_false_elim in Hl as (Hv & Hl).
    rewrite Hv. cbn [andb]. apply IH. assumption.
Qed.

Lemma find_owned_dog_existsb (s : store) (id user : string) (d : dog_row) :
  find_owned_dog s id user = Some d ->
  existsb (fun d => (d_id d =? id)%string && (d_user_id d =? user)%string) (dogs s) = true.
Proof.
  unfold find_owned_dog. intros H. apply existsb_exists. exists d.
  split; [eapply find_some; eassumption|].
  apply find_some in H. apply H.
Qed.

Lemma existsb_false_filter {A : Type} (key : A -> string) (x : string) (l : list A) :
  existsb (fun a => (key a =? x)%string) l = false ->
  filter (fun a => negb (key a =? x)%string) l = l.
Proof.
  induction l as [|a l IH]; cbn [existsb filter]; [reflexivity|].
  intros H. apply orb_false_elim in H as (Ha & Hl).
  rewrite Ha. cbn [negb]. rewrite (IH Hl). reflexivity.
Qed.

(** X7.  A vaccination logged with a due date and then deleted by the
    same user: the DELETE answers 200 and the table is what it was before
    the POST, but the vet-appointment event the POST created stays in the
    events table. *)
Theorem deleted_vaccination_leaves_event (id event_id user : string)
    (rq : vaccination_request) (s s1 : store) (resp : response) (nd : date) :
  post_vaccination id event_id user rq s = (resp, s1) -> status resp = 201 ->
  vq_next_due_date rq = Some nd ->
  let r := delete_vaccination user id s1 in
  status (fst r) = 200
  /\ vaccinations (snd r) = vaccinations s
  /\ events (snd r) = events s1
  /\ exists e, In e (events (snd r)) /\ e_id e = event_id /\ e_event_date e = nd
               /\ e_event_type e = "vet_appointment" /\ e_is_active e = true.
Proof.
  intros Hpost H201 Hnd.
  pose proof Hpost as Hins. unfold post_vaccination in Hins.
  destruct (post_vaccination_201 _ _ _ _ _ _ _ Hpost H201)
    as (dog_id & name & administered & d & E1 & E2 & E3 & Hd & Hdogs & _ & Hv & He).
  rewrite E1, E2, E3, Hd in Hins.
  destruct (negb (truthy (Some dog_id)) || negb (truthy (Some name))
            || negb (present (Some administered)));
    [injection Hins as <- <-; discriminate|].
  destruct (insert_vaccination _ s) as [s0|] eqn:H0;
    [|injection Hins as <- <-; discriminate].
  apply insert_vaccination_Some in H0 as (_ & _ & Hfresh). cbn [v_id] in Hfresh.
  clear Hins.
  cbv zeta. unfold delete_vaccination, find_owned_vaccination.
  rewrite Hv, Hdogs.
  rewrite (find_owned_vaccination_last s user id
             (mkVaccination id dog_id name administered (vq_next_due_date rq)
                (or_null (vq_administered_by rq)) (or_null (vq_lot_number rq))
                (or_null (vq_notes rq)) false) (vaccinations s) eq_refl Hfresh
             (find_owned_dog_existsb s dog_id user d Hd)).
  cbn [fst snd status set_vaccinations vaccinations events].
  split; [reflexivity|]. split.
  - rewrite filter_app. cbn [filter v_id]. rewrite String.eqb_refl. cbn [negb].
    rewrite app_nil_r. apply (existsb_false_filter v_id). assumption.
  - split; [reflexivity|]. rewrite He, Hnd.
    eexists. split; [apply in_or_app; right; left; reflexivity|].
    cbn. auto.
Qed.

Lemma deleted_vaccination_leaves_event_witness :
  exists e, In e (events (snd (delete_vaccination "alice" "vax-2"
                                 (snd (post_vaccination "vax-2" "ev-2" "alice"
                                         booster_request example_store)))))
            /\ e_id e = "ev-2".
Proof.
  destruct (deleted_vaccination_leaves_event "vax-2" "ev-2" "alice" booster_request
              example_store
              (snd (post_vaccination "vax-2" "ev-2" "alice" booster_request example_store))
              (fst (post_vaccination "vax-2" "ev-2" "alice" booster_request example_store))
              (mkDate 2025 1 15))
    as (_ & _ & _ & e & He & Hid & _).
  - vm_compute. reflexivity.
  - vm_compute. reflexivity.
  - reflexivity.
  - exists e. split; assumption.
Defined.

(** X8.  A vaccination logged with a valid due date that lies in the
    next seven days is announced twice by the next daily scan: once by the
    vaccination scan, and once by the event scan for the vet-appointment
    event that was created with it (lead time 14 days). *)
Theorem logged_vaccination_reminded_twice (id event_id user : string)
    (rq : vaccination_request) (s s1 : store) (resp : response) (nd : date)
    (tz : Z) (now : instant) :
  valid_tz tz -> valid_instant now ->
  post_vaccination id event_id user rq s = (resp, s1) -> status resp = 201 ->
  vq_next_due_date rq = Some nd -> valid_date nd ->
  date_le (toISODate now) nd -> date_le nd (addDays (toISODate now) 7) ->
  In id (reminded_ids (fst (dailyScan tz now s1)))
  /\ In event_id (reminded_event_ids (fst (dailyScan tz now s1))).
Proof.
  intros Htz Hi Hpost H201 Hnd Vnd Hlo Hhi.
  destruct (post_vaccination_201 _ _ _ _ _ _ _ Hpost H201)
    as (dog_id & name & administered & d & _ & _ & _ & Hd & Hdogs & _ & Hv & He).
  rewrite Hnd in Hv, He.
  rewrite dailyScan_reminded_ids, dailyScan_reminded_event_ids. split.
  - rewrite scan_log, reminded_ids_vaccinations. apply in_map_iff.
    unfold find_owned_dog in Hd. apply find_some in Hd as (Hin & Hc).
    apply andb_prop in Hc as (Hid & _). apply String.eqb_eq in Hid.
    exists (mkUpcomingVaccination id (d_name d) name (Some nd) (d_user_id d)).
    split; [reflexivity|].
    apply In_due_vaccination_query.
    exists (mkVaccination id dog_id name administered (Some nd)
              (or_null (vq_administered_by rq)) (or_null (vq_lot_number rq))
              (or_null (vq_notes rq)) false), d.
    split; [rewrite Hv; apply in_or_app; right; left; reflexivity|].
    split; [rewrite Hdogs; assumption|].
    split; [assumption|]. split; [|reflexivity].
    apply due_vaccination_cond_spec. split; [reflexivity|].
    exists nd. split; [reflexivity|]. split; [assumption|].
    rewrite setDate_getDate_plus by (assumption || lia).
    change (Z.to_nat 7) with 7%nat. exact Hhi.
  - apply In_reminded_event_ids.
    exists (mkEvent event_id user (Some dog_id) (name ++ " Vaccination Due")
              (Some "Vaccination reminder for your dog") "vet_appointment" nd
              false None 14 true).
    split; [rewrite He; apply in_or_app; right; left; reflexivity|].
    split; [reflexivity|].
    apply event_window_cond_unfold. split; [reflexivity|].
    apply window_cond_iff; [apply Hi|]. cbn [e_reminder_days_before e_event_date].
    split; [lia|]. exists nd. split; [apply sql_date_valid; assumption|].
    split; [assumption|].
    eapply date_le_trans; [exact Hhi|].
    change (Z.to_nat 14) with 14%nat.
    apply addDays_le_mono; [apply Hi | lia].
Qed.

Lemma logged_vaccination_reminded_twice_witness :
  In "vax-2" (reminded_ids (fst (dailyScan 0 example_now
       (snd (post_vaccination "vax-2" "ev-2" "alice"
               (mkVaccinationRequest (Some "dog-1") (Some "DHPP") (Some (mkDate 2023 1 18))
                  (Some (mkDate 2024 1 18)) None None None) example_store))))).
Proof.
  refine (proj1 (logged_vaccination_reminded_twice "vax-2" "ev-2" "alice"
            (mkVaccinationRequest (Some "dog-1") (Some "DHPP") (Some (mkDate 2023 1 18))
               (Some (mkDate 2024 1 18)) None None None)
            example_store _ _ (mkDate 2024 1 18) 0 example_now _ _
            (surjective_pairing _) _ eq_refl _ _ _)).
  - calendar_facts.
  - calendar_facts.
  - vm_compute. reflexivity.
  - calendar_facts.
  - apply date_leb_le. vm_compute. reflexivity.
  - apply date_leb_le. vm_compute. reflexivity.
Defined.

(** ** Dogs router *)

Lemma find_owned_dog_last (l : list dog_row) (r : dog_row) (id user : string) :
  d_id r = id ->
  existsb (fun d => (d_id d =? id)%string) l = false ->
  find (fun d => (d_id d =? id)%string && (d_user_id d =? user)%string) (l ++ [r])
  = if (d_user_id r =? user)%string then Some r else None.
Proof.
  intros <- Hl. induction l as [|d l IH]; cbn [app find].
  - rewrite String.eqb_refl. cbn [andb]. reflexivity.
  - cbn [existsb] in Hl. apply orb_false_elim in Hl as (Hd & Hl).
    rewrite Hd. cbn [andb]. apply IH. assumption.
Qed.

(** The state after a [POST /api/dogs] answered with 201. *)
Lemma post_dog_201 (dogId birthdayId anniversaryId : string) (tz : Z) (user : string)
    (now : instant) (rq : dog_request) (s s' : store) (resp : response) :
  post_dog dogId birthdayId anniversaryId tz user now rq s = (resp, s') ->
  status resp = 201 ->
  exists name,
    dq_name rq = Some name /\ has_dog s dogId = false
    /\ dogs s' = dogs s ++ [mkDog dogId user name (or_null (dq_breed rq))
                              (dq_date_of_birth rq) (or_default (dq_gender rq) "unknown")
                              (dq_adoption_date rq)]
    /\ vaccinations s' = vaccinations s /\ medications s' = medications s
    /\ ai_queries s' = ai_queries s /\ food_database s' = food_database s
    /\ events s' =
         (events s
          ++ match dq_date_of_birth rq with
             | Some b => [birthday_event birthdayId user dogId name
                            (anniversary_date tz now b)]
             | None => []
             end)
         ++ match dq_adoption_date rq with
            | Some a => [anniversary_event anniversaryId user dogId name
                           (anniversary_date tz now a)]
            | None => []
            end.
Proof.
  unfold post_dog. cbv zeta.
  destruct (dq_name rq) as [name|]; [|intros [= <- <-]; discriminate].
  destruct (negb (truthy (Some name))); [intros [= <- <-]; discriminate|].
  destruct (insert_dog _ s) as [s1|] eqn:H1; [|intros [= <- <-]; discriminate].
  apply insert_dog_Some in H1 as (-> & Hfresh). cbn [d_id] in Hfresh.
  destruct (insert_if_some (dq_date_of_birth rq) _ _) as [s2|] eqn:H2;
    [|intros [= <- <-]; discriminate].
  apply insert_if_some_Some in H2 as ->.
  destruct (insert_if_some (dq_adoption_date rq) _ _) as [s3|] eqn:H3;
    [|intros [= <- <-]; discriminate].
  apply insert_if_some_Some in H3 as ->.
  intros [= <- <-] _. exists name. cbn. auto 10.
Qed.

(** X9.  A dog created with [POST /api/dogs] (201) is the dog
    [GET /api/dogs/:id] then gives its owner, with the owner as [user_id],
    gender ["unknown"] when none was sent and an empty breed stored as
    NULL; it is in the owner's list of [GET /api/dogs], and every other
    user gets 404 for it. *)
Theorem created_dog_is_readable (dogId birthdayId anniversaryId : string) (tz : Z)
    (user : string) (now : instant) (rq : dog_request) (s s' : store) (resp : response) :
  post_dog dogId birthdayId anniversaryId tz user now rq s = (resp, s') ->
  status resp = 201 ->
  exists name,
    dq_name rq = Some name /\ name <> ""
    /\ let row := mkDog dogId user name (or_null (dq_breed rq)) (dq_date_of_birth rq)
                    (or_default (dq_gender rq) "unknown") (dq_adoption_date rq) in
       get_dog user dogId s' = mkResponse 200 (JDog row)
       /\ In row (list_dogs user s')
       /\ forall other, other <> user ->
            get_dog other dogId s' = mkResponse 404 (JError "Dog not found")
            /\ ~ In row (list_dogs other s').
Proof.
  intros Hpost H201.
  destruct (post_dog_201 _ _ _ _ _ _ _ _ _ _ Hpost H201)
    as (name & Hname & Hfresh & Hdogs & _).
  exists name. split; [assumption|]. split.
  { intros ->. unfold post_dog in Hpost. rewrite Hname in Hpost. cbn in Hpost.
    injection Hpost as <- _. discriminate. }
  cbv zeta. unfold get_dog, find_owned_dog, list_dogs, has_dog in *. rewrite Hdogs.
  set (row := mkDog dogId user name (or_null (dq_breed rq)) (dq_date_of_birth rq)
                (or_default (dq_gender rq) "unknown") (dq_adoption_date rq)).
  split; [|split].
  - rewrite (find_owned_dog_last (dogs s) row dogId user eq_refl Hfresh). cbn [d_user_id row].
    rewrite String.eqb_refl. reflexivity.
  - apply order_by_In. apply filter_In. split.
    + apply in_or_app. right. left. reflexivity.
    + cbn [d_user_id row]. apply String.eqb_refl.
  - intros other Hother. split.
    + rewrite (find_owned_dog_last (dogs s) row dogId other eq_refl Hfresh).
      cbn [d_user_id row].
      destruct (String.eqb_spec user other) as [E|_]; [congruence | reflexivity].
    + intros Hin. apply order_by_In in Hin. apply filter_In in Hin as (_ & Hu).
      cbn [d_user_id row] in Hu. apply String.eqb_eq in Hu. congruence.
Qed.

Lemma created_dog_is_readable_witness :
  exists name, dq_name (new_dog_request None None) = Some name /\ name <> "".
Proof.
  destruct (created_dog_is_readable "dog-2" "ev-b" "ev-a" 0 "bob" example_now
              (new_dog_request None None) example_store
              (snd (post_dog "dog-2" "ev-b" "ev-a" 0 "bob" example_now
                      (new_dog_request None None) example_store))
              (fst (post_dog "dog-2" "ev-b" "ev-a" 0 "bob" example_now
                      (new_dog_request None None) example_store)))
    as (name & H1 & H2 & _).
  - vm_compute. reflexivity.
  - vm_compute. reflexivity.
  - exists name. split; assumption.
Defined.

(** X10.  [PUT /api/dogs/:id] writes to the dogs table alone and moves
    no dog between users: whatever the answer, the events (so also the
    birthday and anniversary events computed when the dog was created),
    the vaccinations and the medications are as before, and the dogs keep
    their ids and owners, row by row. *)
Theorem put_dog_effect (user id : string) (rq : dog_request) (s : store) :
  let s' := snd (put_dog user id rq s) in
  events s' = events s /\ vaccinations s' = vaccinations s
  /\ medications s' = medications s
  /\ map d_id (dogs s') = map d_id (dogs s)
  /\ map d_user_id (dogs s') = map d_user_id (dogs s)
  /\ forall d, In d (dogs s) -> d_id d <> id -> In d (dogs s').
Proof.
  cbv zeta. unfold put_dog.
  destruct (find_owned_dog s id user) as [dog|]; cbn [snd]; [|auto 10].
  destruct (negb (gender_ok (coalesce (dq_gender rq) (d_gender dog)))); cbn [snd];
    [auto 10|].
  cbn [set_dogs dogs events vaccinations medications].
  split; [reflexivity|]. split; [reflexivity|]. split; [reflexivity|].
  split; [|split].
  - rewrite map_map. apply map_ext. intros d. destruct (d_id d =? id)%string; reflexivity.
  - rewrite map_map. apply map_ext. intros d. destruct (d_id d =? id)%string; reflexivity.
  - intros d Hd Hne. apply in_map_iff. exists d. split; [|assumption].
    destruct (String.eqb_spec (d_id d) id); [contradiction | reflexivity].
Qed.

Lemma delete_dog_cascade_event_cond (id : string) (s : store) (p : event_row -> Prop) :
  (forall e e', e_id e' = e_id e -> e_is_active e' = e_is_active e ->
                e_event_date e' = e_event_date e ->
                e_reminder_days_before e' = e_reminder_days_before e -> p e -> p e') ->
  (exists e, In e (events (delete_dog_cascade id s)) /\ p e)
  <-> (exists e, In e (events s) /\ p e).
Proof.
  intros Hp. unfold delete_dog_cascade. cbn [events]. split.
  - intros (e' & He' & Hpe). apply in_map_iff in He' as (e & <- & He).
    exists e. split; [assumption|].
    revert Hpe. destruct (e_dog_id e) as [d|]; [|trivial].
    destruct (d =? id)%string; [|trivial]. apply Hp; reflexivity.
  - intros (e & He & Hpe). eexists. split; [apply in_map; exact He|].
    destruct (e_dog_id e) as [d|]; [|assumption].
    destruct (d =? id)%string; [|assumption].
    revert Hpe. apply Hp; reflexivity.
Qed.

(** X11.  A [DELETE /api/dogs/:id] answered with 200 leaves no dog
    with that id and no vaccination or medication of that dog; the
    events all stay, none of them pointing at the dog any more, the
    question history stays as it is, and the event scan prints reminders
    for the same events as before the deletion. *)
Theorem delete_dog_effect (user id : string) (s : store) :
  status (fst (delete_dog user id s)) = 200 ->
  let s' := snd (delete_dog user id s) in
  has_dog s' id = false
  /\ (forall v, In v (vaccinations s') -> v_dog_id v <> id)
  /\ (forall m, In m (medications s') -> m_dog_id m <> id)
  /\ map e_id (events s') = map e_id (events s)
  /\ (forall e, In e (events s') -> e_dog_id e <> Some id)
  /\ ai_queries s' = ai_queries s
  /\ forall now i, In i (reminded_event_ids (checkEventReminders now s'))
                   <-> In i (reminded_event_ids (checkEventReminders now s)).
Proof.
  unfold delete_dog. destruct (find_owned_dog s id user) as [found|]; [|discriminate].
  intros _. cbv zeta. cbn [snd].
  split; [|split; [|split; [|split; [|split; [|split]]]]].
  - unfold has_dog, delete_dog_cascade. cbn [dogs].
    destruct (existsb _ _) eqn:E; [|reflexivity].
    apply existsb_exists in E as (d & Hd & Hid). apply filter_In in Hd as (_ & Hn).
    rewrite Hid in Hn. discriminate.
  - intros v Hv. unfold delete_dog_cascade in Hv. cbn [vaccinations] in Hv.
    apply filter_In in Hv as (_ & Hn). intros E. rewrite E, String.eqb_refl in Hn.
    discriminate.
  - intros m Hm. unfold delete_dog_cascade in Hm. cbn [medications] in Hm.
    apply filter_In in Hm as (_ & Hn). intros E. rewrite E, String.eqb_refl in Hn.
    discriminate.
  - unfold delete_dog_cascade. cbn [events]. rewrite map_map. apply map_ext.
    intros e. destruct (e_dog_id e) as [d|]; [|reflexivity].
    destruct (d =? id)%string; reflexivity.
  - intros e' He'. unfold delete_dog_cascade in He'. cbn [events] in He'.
    apply in_map_iff in He' as (e & <- & _).
    destruct (e_dog_id e) as [d|] eqn:Ed; [|rewrite Ed; discriminate].
    destruct (String.eqb_spec d id) as [E|N]; [discriminate|].
    rewrite Ed. congruence.
  - reflexivity.
  - intros now i. rewrite !In_reminded_event_ids.
    apply (delete_dog_cascade_event_cond id s
             (fun e => e_id e = i
                       /\ sql_where (event_window_cond (toISODate now) e) = true)).
    intros e e' E1 E2 E3 E4 [Hi Hc]. split; [congruence|].
    unfold event_window_cond in *. rewrite E2, E3, E4. exact Hc.
Qed.

Lemma delete_dog_effect_witness :
  has_dog (snd (delete_dog "alice" "dog-1" example_store)) "dog-1" = false.
Proof.
  refine (proj1 (delete_dog_effect "alice" "dog-1" example_store _)).
  vm_compute. reflexivity.
Defined.

(** ** No request writes to the rows of another user *)

Ltac grows_tables :=
  unfold grows; cbn;
  repeat match goal with
         | |- _ /\ _ => split
         | |- exists _, _ => eexists
         end;
  rewrite <- ?app_assoc;
  first [reflexivity | symmetry; apply app_nil_r].

Lemma grows_refl (s : store) : grows s s.
Proof. grows_tables. Qed.

Lemma grows_keeps (user : string) (s s' : store) :
  grows s s' -> others_rows_kept user s s'.
Proof.
  intros ([l1 E1] & [l2 E2] & [l3 E3] & [l4 E4] & [l5 E5] & _).
  unfold others_rows_kept. rewrite E1, E2, E3, E4, E5.
  repeat split; intros; apply in_or_app; left; assumption.
Qed.

Lemma post_dog_grows (dogId birthdayId anniversaryId : string) (tz : Z) (user : string)
    (now : instant) (rq : dog_request) (s : store) :
  grows s (snd (post_dog dogId birthdayId anniversaryId tz user now rq s)).
Proof.
  unfold post_dog. cbv zeta.
  destruct (dq_name rq) as [name|]; [|apply grows_refl].
  destruct (negb (truthy (Some name))); [apply grows_refl|].
  destruct (insert_dog _ s) as [s1|] eqn:H1; [|apply grows_refl].
  apply insert_dog_Some in H1 as (-> & _).
  destruct (insert_if_some (dq_date_of_birth rq) _ _) as [s2|] eqn:H2;
    [|grows_tables].
  apply insert_if_some_Some in H2 as ->.
  destruct (insert_if_some (dq_adoption_date rq) _ _) as [s3|] eqn:H3;
    [|grows_tables].
  apply insert_if_some_Some in H3 as ->.
  grows_tables.
Qed.

Lemma post_vaccination_grows (id event_id user : string) (rq : vaccination_request)
    (s : store) :
  grows s (snd (post_vaccination id event_id user rq s)).
Proof.
  unfold post_vaccination. cbv zeta.
  destruct (negb (truthy (vq_dog_id rq)) || negb (truthy (vq_vaccine_name rq))
            || negb (present (vq_date_administered rq))); [apply grows_refl|].
  destruct (vq_dog_id rq) as [dog_id|]; [|apply grows_refl].
  destruct (vq_vaccine_name rq) as [name|]; [|apply grows_refl].
  destruct (vq_date_administered rq) as [administered|]; [|apply grows_refl].
  destruct (find_owned_dog s dog_id user); [|apply grows_refl].
  destruct (insert_vaccination _ s) as [s1|] eqn:H1; [|apply grows_refl].
  apply insert_vaccination_Some in H1 as (-> & _).
  destruct (vq_next_due_date rq) as [nd|]; [|grows_tables].
  destruct (insert_event _ _) as [s2|] eqn:H2; [|grows_tables].
  apply insert_event_Some in H2 as (-> & _).
  grows_tables.
Qed.

Lemma post_event_grows (id user : string) (rq : event_request) (s : store) :
  grows s (snd (post_event id user rq s)).
Proof.
  unfold post_event. cbv zeta.
  destruct (negb (truthy (eq_title rq)) || negb (present (eq_event_date rq)));
    [apply grows_refl|].
  destruct (eq_title rq) as [title|]; [|apply grows_refl].
  destruct (eq_event_date rq) as [event_date|]; [|apply grows_refl].
  destruct (truthy (eq_dog_id rq) && _); [apply grows_refl|].
  destruct (insert_event _ s) as [s1|] eqn:H1; [|apply grows_refl].
  apply insert_event_Some in H1 as (-> & _).
  grows_tables.
Qed.

Lemma post_medication_grows (id event_id user : string) (rq : medication_request)
    (s : store) :
  grows s (snd (post_medication id event_id user rq s)).
Proof.
  unfold post_medication. cbv zeta.
  destruct (negb (truthy (mq_dog_id rq)) || negb (truthy (mq_name rq))
            || negb (present (mq_start_date rq))); [apply grows_refl|].
  destruct (mq_dog_id rq) as [dog_id|]; [|apply grows_refl].
  destruct (mq_name rq) as [name|]; [|apply grows_refl].
  destruct (mq_start_date rq) as [start_date|]; [|apply grows_refl].
  destruct (find_owned_dog s dog_id user); [|apply grows_refl].
  destruct (insert_medication _ s) as [s1|] eqn:H1; [|apply grows_refl].
  apply insert_medication_Some in H1 as ->.
  destruct (insert_if_some _ _ _) as [s2|] eqn:H2; [|grows_tables].
  apply insert_if_some_Some in H2 as ->.
  grows_tables.
Qed.

Lemma ai_ask_grows (ask : ai_service) (id user : string) (now : instant)
    (rq : ask_request) (s : store) :
  grows s (snd (ai_ask ask id user now rq s)).
Proof.
  unfold ai_ask.
  destruct (aq_question rq) as [question|]; [|apply grows_refl].
  destruct (negb (truthy (Some question))); [apply grows_refl|].
  destruct (ask question _ _) as [r|]; [|apply grows_refl].
  destruct (insert_ai_query _ s) as [s1|] eqn:H1; [|apply grows_refl].
  apply insert_ai_query_Some in H1 as ->.
  grows_tables.
Qed.

Lemma In_map_fixed {A : Type} (g : A -> A) (x : A) (l : list A) :
  In x l -> g x = x -> In x (map g l).
Proof. intros H E. rewrite <- E. apply in_map. assumption. Qed.

Lemma kept_refl (user : string) (s : store) : others_rows_kept user s s.
Proof. apply grows_keeps, grows_refl. Qed.

(** X12.  Whatever request a user sends among the modelled writing
    routes, and whatever it answers, the rows of the other users are
    still in the database afterwards, unchanged: the dogs of other users,
    the vaccinations and medications of dogs that are not the caller's,
    the events of other users on dogs that are not the caller's, and all
    logged questions (primary keys being unique). *)
Theorem step_keeps_others_rows (tz : Z) (s : store) (op : operation) (user : string) :
  caller op = Some user -> primary_keys_ok s ->
  others_rows_kept user s (step tz s op).
Proof.
  intros Hc (Kd & Kv & Ke).
  destruct op; cbn [caller] in Hc; try discriminate; injection Hc as ->; cbn [step].
  - apply grows_keeps, post_dog_grows.
  - (* PUT /api/dogs/:id *)
    unfold put_dog. destruct (find_owned_dog s id user) as [dog|] eqn:Hd;
      [|apply kept_refl].
    destruct (negb (gender_ok _)); [apply kept_refl|]. cbn [snd].
    apply find_some in Hd as (Hin & Hb). apply andb_prop in Hb as (Hid & Hu).
    apply String.eqb_eq in Hid, Hu.
    unfold others_rows_kept. cbn. repeat split; try (intros; assumption).
    intros d Hd Hf. apply In_map_fixed; [assumption|].
    destruct (String.eqb_spec (d_id d) id) as [E|]; [|reflexivity].
    exfalso. apply Hf. rewrite <- Hu. f_equal.
    apply (key_injective d_id (dogs s)); congruence.
  - (* DELETE /api/dogs/:id *)
    unfold delete_dog. destruct (find_owned_dog s id user) as [dog|] eqn:Hd;
      [|apply kept_refl].
    cbn [snd]. apply find_some in Hd as (Hin & Hb). apply andb_prop in Hb as (Hid & Hu).
    apply String.eqb_eq in Hid, Hu.
    unfold others_rows_kept, delete_dog_cascade. cbn.
    split; [|split; [|split; [|split]]]; try (intros; assumption).
    + intros d Hd Hf. apply filter_In. split; [assumption|].
      destruct (String.eqb_spec (d_id d) id) as [E|]; [|reflexivity].
      exfalso. apply Hf. rewrite <- Hu. f_equal.
      apply (key_injective d_id (dogs s)); congruence.
    + intros v Hv Hf. apply filter_In. split; [assumption|].
      destruct (String.eqb_spec (v_dog_id v) id) as [E|]; [|reflexivity].
      exfalso. apply (Hf dog Hin); congruence.
    + intros m Hm Hf. apply filter_In. split; [assumption|].
      destruct (String.eqb_spec (m_dog_id m) id) as [E|]; [|reflexivity].
      exfalso. apply (Hf dog Hin); congruence.
    + intros e He (_ & Hf). apply In_map_fixed; [assumption|].
      destruct (e_dog_id e) as [d|] eqn:Ed; [|reflexivity].
      destruct (String.eqb_spec d id) as [E|]; [|reflexivity].
      exfalso. apply (Hf d eq_refl dog Hin); congruence.
  - apply grows_keeps, post_vaccination_grows.
  - (* PUT /api/vaccinations/:id *)
    unfold put_vaccination.
    destruct (find_owned_vaccination s id user) as [v0|] eqn:H0; [|apply kept_refl].
    cbn [snd]. apply find_some in H0 as (Hin & Hb). apply andb_prop in Hb as (Hid & Hx).
    apply String.eqb_eq in Hid. apply existsb_exists in Hx as (d0 & Hd0 & Hb).
    apply andb_prop in Hb as (Hd & Hu). apply String.eqb_eq in Hd, Hu.
    unfold others_rows_kept. cbn. repeat split; try (intros; assumption).
    intros v Hv Hf. apply In_map_fixed; [assumption|].
    destruct (String.eqb_spec (v_id v) id) as [E|]; [|reflexivity].
    exfalso. assert (v = v0) by (apply (key_injective v_id (vaccinations s)); congruence).
    subst v0. exact (Hf d0 Hd0 Hd Hu).
  - (* DELETE /api/vaccinations/:id *)
    unfold delete_vaccination.
    destruct (find_owned_vaccination s id user) as [v0|] eqn:H0; [|apply kept_refl].
    cbn [snd]. apply find_some in H0 as (Hin & Hb). apply andb_prop in Hb as (Hid & Hx).
    apply String.eqb_eq in Hid. apply existsb_exists in Hx as (d0 & Hd0 & Hb).
    apply andb_prop in Hb as (Hd & Hu). apply String.eqb_eq in Hd, Hu.
    unfold others_rows_kept. cbn. repeat split; try (intros; assumption).
    intros v Hv Hf. apply filter_In. split; [assumption|].
    destruct (String.eqb_spec (v_id v) id) as [E|]; [|reflexivity].
    exfalso. assert (v = v0) by (apply (key_injective v_id (vaccinations s)); congruence).
    subst v0. exact (Hf d0 Hd0 Hd Hu).
  - apply grows_keeps, post_event_grows.
  - (* PUT /api/events/:id *)
    unfold put_event.
    destruct (find_owned_event s id user) as [e0|] eqn:H0; [|apply kept_refl].
    destruct (negb (event_type_ok _)); [apply kept_refl|]. cbn [snd].
    apply find_some in H0 as (Hin & Hb). apply andb_prop in Hb as (Hid & Hu).
    apply String.eqb_eq in Hid, Hu.
    unfold others_rows_kept. cbn. repeat split; try (intros; assumption).
    intros e He (Hf & _). apply In_map_fixed; [assumption|].
    destruct (String.eqb_spec (e_id e) id) as [E|]; [|reflexivity].
    exfalso. apply Hf. rewrite <- Hu. f_equal.
    apply (key_injective e_id (events s)); congruence.
  - (* DELETE /api/events/:id *)
    unfold delete_event.
    destruct (find_owned_event s id user) as [e0|] eqn:H0; [|apply kept_refl].
    cbn [snd].
    apply find_some in H0 as (Hin & Hb). apply andb_prop in Hb as (Hid & Hu).
    apply String.eqb_eq in Hid, Hu.
    unfold others_rows_kept. cbn. repeat split; try (intros; assumption).
    intros e He (Hf & _). apply filter_In. split; [assumption|].
    destruct (String.eqb_spec (e_id e) id) as [E|]; [|reflexivity].
    exfalso. apply Hf. rewrite <- Hu. f_equal.
    apply (key_injective e_id (events s)); congruence.
  - apply grows_keeps, post_medication_grows.
  - apply grows_keeps, ai_ask_grows.
Qed.

Lemma step_keeps_others_rows_witness :
  In rex (dogs (step 0 world_with_foreign_dog
                  (OpPutDog "bob" "dog-1" (new_dog_request None None)))).
Proof.
  refine (proj1 (step_keeps_others_rows 0 world_with_foreign_dog
                   (OpPutDog "bob" "dog-1" (new_dog_request None None)) "bob" eq_refl _)
            rex _ _).
  - unfold primary_keys_ok. cbn. repeat split; repeat constructor; cbn; tauto.
  - left. reflexivity.
  - unfold foreign_dog. cbn. discriminate.
Defined.

(** ** Events router *)

(** X13.  An event switched off with [PUT /api/events/:id]
    ([is_active: false], answer 200) or removed with
    [DELETE /api/events/:id] (answer 200) gets no reminder from the event
    scan any more, on any day; the reminders of the events with another
    id are what they were. *)
Theorem silenced_event_not_reminded (user id : string) (s : store) (now : instant) :
  (forall rq, eu_is_active rq = Some false ->
              status (fst (put_event user id rq s)) = 200 ->
              let s' := snd (put_event user id rq s) in
              ~ In id (reminded_event_ids (checkEventReminders now s'))
              /\ forall i, i <> id ->
                   (In i (reminded_event_ids (checkEventReminders now s'))
                    <-> In i (reminded_event_ids (checkEventReminders now s))))
  /\ (status (fst (delete_event user id s)) = 200 ->
      let s' := snd (delete_event user id s) in
      ~ In id (reminded_event_ids (checkEventReminders now s'))
      /\ forall i, i <> id ->
           (In i (reminded_event_ids (checkEventReminders now s'))
            <-> In i (reminded_event_ids (checkEventReminders now s)))).
Proof.
  split.
  - intros rq Hoff. unfold put_event.
    destruct (find_owned_event s id user) as [old|]; [|discriminate].
    destruct (negb (event_type_ok _)); [discriminate|].
    intros _. cbv zeta. cbn [snd]. split.
    + intros Hin. apply In_reminded_event_ids in Hin as (e' & He' & Hid & Hc).
      cbn [set_events events] in He'. apply in_map_iff in He' as (e & <- & He).
      destruct (String.eqb_spec (e_id e) id) as [E|N]; [|contradiction].
      apply event_window_cond_unfold in Hc as (Ha & _).
      cbn [update_event e_is_active] in Ha. rewrite Hoff in Ha. discriminate.
    + intros i Hi. rewrite !In_reminded_event_ids. cbn [set_events events]. split.
      * intros (e' & He' & Hid & Hc). apply in_map_iff in He' as (e & <- & He).
        destruct (String.eqb_spec (e_id e) id) as [E|N].
        -- cbn [update_event e_id] in Hid. congruence.
        -- exists e. auto.
      * intros (e & He & Hid & Hc). exists e. split; [|auto].
        apply In_map_fixed; [assumption|].
        destruct (String.eqb_spec (e_id e) id) as [E|N]; [congruence | reflexivity].
  - unfold delete_event.
    destruct (find_owned_event s id user) as [old|]; [|discriminate].
    intros _. cbv zeta. cbn [snd]. split.
    + intros Hin. apply In_reminded_event_ids in Hin as (e & He & Hid & _).
      cbn [set_events events] in He. apply filter_In in He as (_ & Hn).
      rewrite Hid, String.eqb_refl in Hn. discriminate.
    + intros i Hi. rewrite !In_reminded_event_ids. cbn [set_events events]. split.
      * intros (e & He & Hid & Hc). apply filter_In in He as (He & _).
        exists e. auto.
      * intros (e & He & Hid & Hc). exists e. split; [|auto].
        apply filter_In. split; [assumption|].
        destruct (String.eqb_spec (e_id e) id) as [E|N]; [congruence | reflexivity].
Qed.

Lemma silenced_event_not_reminded_witness :
  ~ In "ev-1" (reminded_event_ids
                 (checkEventReminders example_now
                    (snd (delete_event "alice" "ev-1" example_store)))).
Proof.
  refine (proj1 (proj2 (silenced_event_not_reminded "alice" "ev-1" example_store
                          example_now) _)).
  vm_compute. reflexivity.
Defined.

(** ** Health router: medications *)

Lemma insert_sorted_actives_first (x : medication_row) (l : list medication_row) :
  actives_first l -> actives_first (insert_sorted by_active_then_start x l).
Proof.
  induction l as [|y l IH]; cbn [insert_sorted actives_first].
  - intros _. split; [intros _; constructor | exact I].
  - intros [Hy Hl]. destruct (by_active_then_start x y) eqn:Hxy;
      cbn [actives_first]; unfold by_active_then_start in Hxy.
    + split; [|split; assumption].
      intros Hx. rewrite Hx in Hxy.
      destruct (m_is_active y) eqn:Ey; cbn in Hxy; [discriminate|].
      constructor; [assumption | apply Hy; reflexivity].
    + split; [|apply IH; assumption].
      intros Ey. rewrite Ey in Hxy.
      destruct (m_is_active x) eqn:Ex; cbn in Hxy; [discriminate|].
      apply Forall_forall. intros z Hz. apply insert_sorted_In in Hz as [-> | Hz].
      * assumption.
      * specialize (Hy Ey). rewrite Forall_forall in Hy. apply Hy. assumption.
Qed.

Lemma order_by_actives_first (l : list medication_row) :
  actives_first (order_by by_active_then_start l).
Proof.
  induction l as [|x l IH]; cbn; [exact I|].
  apply insert_sorted_actives_first. exact IH.
Qed.

Lemma all_inactive_filters (l : list medication_row) :
  Forall (fun y => m_is_active y = false) l ->
  filter (fun m => m_is_active m) l = []
  /\ filter (fun m => negb (m_is_active m)) l = l.
Proof.
  induction 1 as [|y l Hy _ [IH1 IH2]]; cbn [filter]; [split; reflexivity|].
  rewrite Hy. cbn [negb]. rewrite IH2. split; [exact IH1 | reflexivity].
Qed.

Lemma actives_first_split (l : list medication_row) :
  actives_first l ->
  filter (fun m => m_is_active m) l ++ filter (fun m => negb (m_is_active m)) l = l.
Proof.
  induction l as [|x l IH]; cbn [actives_first filter]; [reflexivity|].
  intros [Hx Hl]. destruct (m_is_active x) eqn:Ex; cbn [negb].
  - cbn [app]. rewrite (IH Hl). reflexivity.
  - destruct (all_inactive_filters l (Hx eq_refl)) as [E1 E2].
    rewrite E1, E2. reflexivity.
Qed.

(** X14.  [GET /api/health/medications/dog/:dogId] on a dog of the
    caller: [medications] holds exactly the medications of that dog, and
    it is the [active] list followed by the [inactive] list, because the
    query sorts the active rows first. *)
Theorem dog_medications_active_first (user dogId : string) (s : store)
    (all active inactive : list medication_row) :
  get_dog_medications user dogId s = Sent 200 (all, active, inactive) ->
  all = active ++ inactive
  /\ (forall m, In m all <-> In m (medications s) /\ m_dog_id m = dogId)
  /\ (forall m, In m active <-> In m all /\ m_is_active m = true)
  /\ (forall m, In m inactive <-> In m all /\ m_is_active m = false).
Proof.
  unfold get_dog_medications.
  destruct (find_owned_dog s dogId user); [|discriminate].
  cbv zeta. intros [= <- <- <-].
  split; [|split; [|split]].
  - symmetry. apply actives_first_split, order_by_actives_first.
  - intros m. rewrite order_by_In, filter_In, String.eqb_eq. tauto.
  - intros m. rewrite filter_In. tauto.
  - intros m. rewrite filter_In, negb_true_iff. tauto.
Qed.

Lemma dog_medications_active_first_witness :
  [mkMedication "med-2" "dog-1" "Apoquel" None None (mkDate 2024 1 10) None true;
   mkMedication "med-1" "dog-1" "Rimadyl" None None (mkDate 2023 6 1) None false]
  = [mkMedication "med-2" "dog-1" "Apoquel" None None (mkDate 2024 1 10) None true]
    ++ [mkMedication "med-1" "dog-1" "Rimadyl" None None (mkDate 2023 6 1) None false].
Proof.
  refine (proj1 (dog_medications_active_first "alice" "dog-1"
                   (mkStore [rex] [] []
                      [mkMedication "med-1" "dog-1" "Rimadyl" None None (mkDate 2023 6 1)
                                    None false;
                       mkMedication "med-2" "dog-1" "Apoquel" None None (mkDate 2024 1 10)
                                    None true] [] [])
                   _ _ _ _)).
  vm_compute. reflexivity.
Defined.

(** X15.  [PUT] and [DELETE /api/health/medication/:id] write to the
    medications table alone: whatever the answer, the events are as
    before, so the ["Give ... medication"] event created with a medication
    stays and the event scan prints what it printed before, also when the
    medication is switched off or deleted.  After a DELETE answered with
    200 no medication has the id, and both routes leave the rows with
    another id as they were. *)
Theorem medication_writes_keep_events (user id : string) (rq : medication_update)
    (s : store) :
  let after_put := snd (put_medication user id rq s) in
  let deleted := delete_medication user id s in
  (events after_put = events s /\ dogs after_put = dogs s
   /\ (forall now, checkEventReminders now after_put = checkEventReminders now s)
   /\ (forall m, In m (medications s) -> m_id m <> id -> In m (medications after_put)))
  /\ (events (snd deleted) = events s /\ dogs (snd deleted) = dogs s
      /\ (forall now, checkEventReminders now (snd deleted) = checkEventReminders now s)
      /\ (forall m, In m (medications s) -> m_id m <> id ->
                    In m (medications (snd deleted)))
      /\ (fst deleted = Sent 200 "Medication deleted" ->
          forall m, In m (medications (snd deleted)) -> m_id m <> id)).
Proof.
  cbv zeta. unfold put_medication, delete_medication.
  destruct (find_owned_medication s id user) as [found|]; cbn [fst snd].
  - cbn [set_medications events dogs medications].
    split; [split; [reflexivity | split; [reflexivity | split]]
           |split; [reflexivity | split; [reflexivity | split; [|split]]]].
    + intros now. apply checkEventReminders_same; reflexivity.
    + intros m Hm Hn. apply In_map_fixed; [assumption|].
      destruct (String.eqb_spec (m_id m) id); [contradiction | reflexivity].
    + intros now. apply checkEventReminders_same; reflexivity.
    + intros m Hm Hn. apply filter_In. split; [assumption|].
      destruct (String.eqb_spec (m_id m) id); [contradiction | reflexivity].
    + intros _ m Hm. apply filter_In in Hm as (_ & Hn). intros E.
      rewrite E, String.eqb_refl in Hn. discriminate.
  - repeat split; try (intros; assumption). discriminate.
Qed.

(** ** Food database *)

Lemma seed_fold_ignored (fs : list food_seed) (s : store) :
  let s' := fold_left (fun acc food => insert_or_ignore_food (seed_row food) acc) fs s in
  (exists l, food_database s' = food_database s ++ l)
  /\ dogs s' = dogs s /\ vaccinations s' = vaccinations s /\ events s' = events s
  /\ medications s' = medications s /\ ai_queries s' = ai_queries s
  /\ (forall r, food_row_ignored r s = true -> food_row_ignored r s' = true)
  /\ (forall food, In food fs -> food_row_ignored (seed_row food) s' = true).
Proof.
  cbv zeta. revert s. induction fs as [|food fs IH]; intros s; cbn [fold_left].
  - split; [exists []; symmetry; apply app_nil_r|].
    repeat split; try tauto. intros food [].
  - destruct (IH (insert_or_ignore_food (seed_row food) s))
      as ([l Hl] & Hd & Hv & He & Hm & Hq & Hmono & Hall).
    assert (Hstep : (exists l0, food_database (insert_or_ignore_food (seed_row food) s)
                                = food_database s ++ l0)
                    /\ dogs (insert_or_ignore_food (seed_row food) s) = dogs s
                    /\ vaccinations (insert_or_ignore_food (seed_row food) s)
                       = vaccinations s
                    /\ events (insert_or_ignore_food (seed_row food) s) = events s
                    /\ medications (insert_or_ignore_food (seed_row food) s)
                       = medications s
                    /\ ai_queries (insert_or_ignore_food (seed_row food) s)
                       = ai_queries s
                    /\ food_row_ignored (seed_row food)
                         (insert_or_ignore_food (seed_row food) s) = true).
    { unfold insert_or_ignore_food. fold (food_row_ignored (seed_row food) s).
      destruct (food_row_ignored (seed_row food) s) eqn:E.
      - repeat split; try assumption. exists []. symmetry. apply app_nil_r.
      - cbn. repeat split. + eexists; reflexivity.
        + unfold food_row_ignored. cbn [set_food_database food_database].
          rewrite existsb_app. cbn [existsb]. rewrite String.eqb_refl.
          cbn. rewrite orb_true_r. reflexivity. }
    destruct Hstep as ([l0 Hl0] & Hd0 & Hv0 & He0 & Hm0 & Hq0 & Hself).
    assert (Hmono0 : forall r, food_row_ignored r s = true ->
                       food_row_ignored r (insert_or_ignore_food (seed_row food) s) = true).
    { intros r. unfold food_row_ignored. rewrite Hl0, existsb_app.
      intros H. apply orb_prop in H as [H | H].
      - rewrite H. reflexivity.
      - rewrite H. apply orb_true_r. }
    split; [exists (l0 ++ l); rewrite Hl, Hl0, app_assoc; reflexivity|].
    repeat split; try congruence.
    + intros r Hr. apply Hmono, Hmono0, Hr.
    + intros f [<- | Hf]; [apply Hmono, Hself | apply Hall, Hf].
Qed.

Lemma seed_fold_fixed (fs : list food_seed) (s : store) :
  (forall food, In food fs -> food_row_ignored (seed_row food) s = true) ->
  fold_left (fun acc food => insert_or_ignore_food (seed_row food) acc) fs s = s.
Proof.
  induction fs as [|food fs IH]; intros H; cbn [fold_left]; [reflexivity|].
  assert (E : insert_or_ignore_food (seed_row food) s = s).
  { unfold insert_or_ignore_food. fold (food_row_ignored (seed_row food) s).
    rewrite (H food (or_introl eq_refl)). reflexivity. }
  rewrite E. apply IH. intros f Hf. apply H. right. assumption.
Qed.

(** X16.  [populateFoodDatabase], run at every start of the server, is
    idempotent on every database: a second run changes nothing.  A run
    only appends to the food table: the rows that were there stay first
    and as they are, and no other table is written. *)
Theorem populateFoodDatabase_idempotent (s : store) :
  populateFoodDatabase (populateFoodDatabase s) = populateFoodDatabase s
  /\ (exists l, food_database (populateFoodDatabase s) = food_database s ++ l)
  /\ dogs (populateFoodDatabase s) = dogs s
  /\ vaccinations (populateFoodDatabase s) = vaccinations s
  /\ events (populateFoodDatabase s) = events s
  /\ medications (populateFoodDatabase s) = medications s
  /\ ai_queries (populateFoodDatabase s) = ai_queries s.
Proof.
  change populateFoodDatabase
    with (fold_left (fun acc food => insert_or_ignore_food (seed_row food) acc) foodData).
  destruct (seed_fold_ignored foodData s) as (Hl & Hd & Hv & He & Hm & Hq & _ & Hall).
  cbv zeta in *. split; [|auto 10].
  apply seed_fold_fixed. exact Hall.
Qed.

(** ** [POST /api/food] and the look-up by name *)

Lemma find_food_last (l : list food_row) (r : food_row) (q : string) :
  (forall f, In f l -> LOWER (f_food_name f) <> LOWER q) ->
  LOWER (f_food_name r) = LOWER q ->
  find (fun f => (LOWER (f_food_name f) =? LOWER q)%string) (l ++ [r]) = Some r.
Proof.
  intros Hl Hr. induction l as [|f l IH]; cbn [app find].
  - rewrite Hr, String.eqb_refl. reflexivity.
  - destruct (String.eqb_spec (LOWER (f_food_name f)) (LOWER q)) as [E|_].
    + exfalso. exact (Hl f (or_introl eq_refl) E).
    + apply IH. intros g Hg. apply Hl. right. assumption.
Qed.

(** X17.  In a food table whose ids are derived from the names, a food
    added with [POST /api/food] (201) was not found by
    [GET /api/food/:foodName] before, under any spelling of the name that
    differs in letter case only, and is the row found under every such
    spelling afterwards; its category is ["other"] when none was sent.
    The ids stay derived from the names. *)
Theorem posted_food_is_found (rq : food_request) (s s' : store) (msg id : string) :
  food_ids_derived s ->
  post_food rq s = (Sent 201 (msg, id), s') ->
  exists name safe level,
    fq_food_name rq = Some name /\ fq_is_safe rq = Some safe
    /\ fq_safety_level rq = Some level /\ id = food_id name
    /\ food_ids_derived s'
    /\ forall q, LOWER q = LOWER name ->
         get_food q s = Refused 404 "Food not found in database"
         /\ get_food q s' =
              Sent 200 (mkFood id name (or_default (fq_category rq) "other") safe level).
Proof.
  intros Hder. unfold post_food. cbv zeta.
  destruct (negb (truthy (fq_food_name rq)) || negb (present (fq_is_safe rq))
            || negb (truthy (fq_safety_level rq))); [discriminate|].
  destruct (fq_food_name rq) as [name|]; [|discriminate].
  destruct (fq_is_safe rq) as [safe|]; [|discriminate].
  destruct (fq_safety_level rq) as [level|]; [|discriminate].
  destruct (existsb _ (food_database s)) eqn:Hfresh; [discriminate|].
  unfold insert_food.
  destruct (existsb _ (food_database s) || _); [discriminate|].
  intros [= <- <- <-]. exists name, safe, level.
  assert (Hnone : forall q f, LOWER q = LOWER name -> In f (food_database s) ->
                              LOWER (f_food_name f) <> LOWER q).
  { intros q f Hq Hf E.
    assert (Hex : existsb (fun f => (f_id f =? food_id name)%string) (food_database s)
                  = true).
    { apply existsb_exists. exists f. split; [assumption|]. apply String.eqb_eq.
      rewrite (Hder f Hf). unfold food_id. congruence. }
    congruence. }
  repeat split.
  - intros f Hf. cbn [set_food_database food_database] in Hf.
    apply in_app_or in Hf as [Hf | [<- | []]]; [apply Hder; assumption | reflexivity].
  - unfold get_food, find_food_by_name.
    destruct (find _ (food_database s)) as [f|] eqn:Hf; [|reflexivity].
    apply find_some in Hf as (Hin & E). apply String.eqb_eq in E.
    exfalso. exact (Hnone q f H Hin E).
  - unfold get_food, find_food_by_name. cbn [set_food_database food_database].
    rewrite find_food_last.
    + destruct safe; reflexivity.
    + intros f Hf. apply Hnone; assumption.
    + cbn [f_food_name]. congruence.
Qed.

Lemma posted_food_is_found_witness :
  get_food "MANGO"
    (snd (post_food (mkFoodRequest (Some "Mango") None (Some true) (Some "safe"))
            seeded_store))
  = Sent 200 (mkFood "mango" "Mango" "other" true "safe").
Proof.
  destruct (posted_food_is_found
              (mkFoodRequest (Some "Mango") None (Some true) (Some "safe"))
              seeded_store
              (snd (post_food (mkFoodRequest (Some "Mango") None (Some true) (Some "safe"))
                      seeded_store))
              "Food added to database" "mango")
    as (name & safe & level & E1 & E2 & E3 & _ & _ & H).
  - intros f Hf. vm_compute in Hf.
    repeat (destruct Hf as [<- | Hf]; [vm_compute; reflexivity|]). destruct Hf.
  - vm_compute. reflexivity.
  - cbn in E1, E2, E3. injection E1 as <-. injection E2 as <-. injection E3 as <-.
    apply (H "MANGO"). vm_compute. reflexivity.
Defined.

(** X18.  After a [POST /api/food] answered with 201, every further
    POST of a name that gives the same id (the same name up to letter
    case and runs of white space) is answered with 409 and changes
    nothing. *)
Theorem posted_food_conflicts (rq rq' : food_request) (s s' : store) (msg id : string)
    (name' level' : string) (safe' : bool) :
  post_food rq s = (Sent 201 (msg, id), s') ->
  fq_food_name rq' = Some name' -> name' <> "" ->
  fq_is_safe rq' = Some safe' ->
  fq_safety_level rq' = Some level' -> level' <> "" ->
  food_id name' = id ->
  post_food rq' s' = (Refused 409 "Food already exists in database", s').
Proof.
  unfold post_food at 1. cbv zeta.
  destruct (negb (truthy (fq_food_name rq)) || negb (present (fq_is_safe rq))
            || negb (truthy (fq_safety_level rq))); [discriminate|].
  destruct (fq_food_name rq) as [name|]; [|discriminate].
  destruct (fq_is_safe rq) as [safe|]; [|discriminate].
  destruct (fq_safety_level rq) as [level|]; [|discriminate].
  destruct (existsb _ (food_database s)); [discriminate|].
  unfold insert_food.
  destruct (existsb _ (food_database s) || _); [discriminate|].
  intros [= <- <- <-] E1 N1 E2 E3 N3 Eid.
  unfold post_food. rewrite E1, E2, E3. cbn [truthy present negb orb].
  apply String.eqb_neq in N1, N3. rewrite N1, N3. cbn [negb orb].
  cbn [set_food_database food_database]. rewrite existsb_app. cbn [existsb f_id].
  rewrite Eid, String.eqb_refl. cbn. rewrite orb_true_r. reflexivity.
Qed.

Lemma posted_food_conflicts_witness :
  fst (post_food (mkFoodRequest (Some "MANGO") (Some "fruit") (Some false) (Some "toxic"))
         (snd (post_food (mkFoodRequest (Some "Mango") None (Some true) (Some "safe"))
                 seeded_store)))
  = Refused 409 "Food already exists in database".
Proof.
  rewrite (posted_food_conflicts
             (mkFoodRequest (Some "Mango") None (Some true) (Some "safe"))
             (mkFoodRequest (Some "MANGO") (Some "fruit") (Some false) (Some "toxic"))
             seeded_store
             (snd (post_food (mkFoodRequest (Some "Mango") None (Some true) (Some "safe"))
                     seeded_store))
             "Food added to database" "mango" "MANGO" "toxic" false).
  - reflexivity.
  - vm_compute. reflexivity.
  - reflexivity.
  - discriminate.
  - reflexivity.
  - reflexivity.
  - discriminate.
  - vm_compute. reflexivity.
Defined.

(** X19.  [GET /api/food/safe] and [GET /api/food/toxic] split the
    food table in two: the first answers exactly the rows whose
    [is_safe] is set, the second exactly the others, each row as it is
    stored, and together they have as many rows as the table. *)
Theorem safe_and_toxic_split (s : store) :
  (forall f, In f (get_safe_foods s) <-> In f (food_database s) /\ f_is_safe f = true)
  /\ (forall f, In f (get_toxic_foods s) <->
                In f (food_database s) /\ f_is_safe f = false)
  /\ (List.length (get_safe_foods s) + List.length (get_toxic_foods s)
      = List.length (food_database s))%nat.
Proof.
  unfold get_safe_foods, get_toxic_foods. split; [|split].
  - intros f. rewrite in_map_iff. split.
    + intros (g & <- & Hg). apply order_by_In in Hg. apply filter_In in Hg as (Hg & Hs).
      unfold with_is_safe. rewrite <- Hs. destruct g; cbn. auto.
    + intros (Hf & Hs). exists f. split.
      * unfold with_is_safe. rewrite <- Hs. destruct f; reflexivity.
      * apply order_by_In. apply filter_In. auto.
  - intros f. rewrite in_map_iff. split.
    + intros (g & <- & Hg). apply order_by_In in Hg. apply filter_In in Hg as (Hg & Hs).
      apply negb_true_iff in Hs.
      unfold with_is_safe. rewrite <- Hs. destruct g; cbn. auto.
    + intros (Hf & Hs). exists f. split.
      * unfold with_is_safe. rewrite <- Hs. destruct f; reflexivity.
      * apply order_by_In. apply filter_In. rewrite Hs. auto.
  - rewrite !length_map, !order_by_length.
    induction (food_database s) as [|f l IH]; [reflexivity|].
    cbn [filter]. destruct (f_is_safe f); cbn [negb List.length]; lia.
Qed.

(** ** The search of the food database *)

Lemma lower_ascii_idem (c : ascii) : lower_ascii (lower_ascii c) = lower_ascii c.
Proof. destruct c as [[] [] [] [] [] [] [] []]; vm_compute; reflexivity. Qed.

Lemma lower_ascii_wildcard (c : ascii) :
  (lower_ascii c = "%"%char -> c = "%"%char) /\ (lower_ascii c = "_"%char -> c = "_"%char).
Proof.
  destruct c as [[] [] [] [] [] [] [] []]; vm_compute;
    split; intros H; first [reflexivity | discriminate H].
Qed.

Lemma like_match_percent (p s : list ascii) :
  like_match ("%"%char :: p) s
  = like_match p s
    || match s with [] => false | _ :: s' => like_match ("%"%char :: p) s' end.
Proof. destruct s; reflexivity. Qed.

Lemma like_match_cons (c : ascii) (p s : list ascii) :
  Ascii.eqb c "%" = false ->
  like_match (c :: p) s
  = match s with
    | [] => false
    | x :: s' =>
        (Ascii.eqb c "_" || Ascii.eqb (lower_ascii c) (lower_ascii x)) && like_match p s'
    end.
Proof. intros H. destruct s; cbn [like_match]; rewrite H; reflexivity. Qed.

Lemma like_percent_spec (p s : list ascii) :
  like_match ("%"%char :: p) s = true <->
  exists pre rest, s = pre ++ rest /\ like_match p rest = true.
Proof.
  induction s as [|x s IH]; rewrite like_match_percent, orb_true_iff.
  - split.
    + intros [H | H]; [|discriminate]. exists [], []. auto.
    + intros (pre & rest & E & H). left.
      symmetry in E. apply app_eq_nil in E as (-> & ->). assumption.
  - rewrite IH. split.
    + intros [H | (pre & rest & -> & H)].
      * exists [], (x :: s). auto.
      * exists (x :: pre), rest. auto.
    + intros (pre & rest & E & H). destruct pre as [|y pre]; cbn [app] in E.
      * left. subst rest. assumption.
      * right. injection E as <- ->. exists pre, rest. auto.
Qed.

Lemma like_literal_spec (p s : list ascii) :
  (forall c, In c p -> c <> "%"%char /\ c <> "_"%char) ->
  like_match (p ++ ["%"%char]) s = true <->
  exists mid suf, s = mid ++ suf /\ map lower_ascii mid = map lower_ascii p.
Proof.
  revert s. induction p as [|c p IH]; intros s Hp; cbn [app].
  - split.
    + intros _. exists [], s. auto.
    + intros _. apply like_percent_spec. exists s, []. split; [|reflexivity].
      symmetry. apply app_nil_r.
  - destruct (Hp c (or_introl eq_refl)) as [N1 N2].
    apply Ascii.eqb_neq in N1, N2.
    rewrite (like_match_cons _ _ _ N1), N2. cbn [orb].
    destruct s as [|x s].
    + split; [discriminate|]. intros (mid & suf & E & H).
      symmetry in E. apply app_eq_nil in E as (-> & _). discriminate.
    + rewrite andb_true_iff, Ascii.eqb_eq, (IH s (fun c' H => Hp c' (or_intror H))).
      split.
      * intros (Ec & mid & suf & -> & H). exists (x :: mid), suf.
        cbn [app map]. rewrite H, Ec. auto.
      * intros (mid & suf & E & H). destruct mid as [|y mid]; [discriminate|].
        cbn [app map] in E, H. injection E as <- ->. injection H as Ec H.
        split; [congruence|]. exists mid, suf. auto.
Qed.

Lemma list_ascii_of_string_app (a b : string) :
  list_ascii_of_string (a ++ b)
  = list_ascii_of_string a ++ list_ascii_of_string b.
Proof. induction a as [|c a IH]; cbn; [reflexivity|]. rewrite IH. reflexivity. Qed.

Lemma string_of_list_ascii_app (a b : list ascii) :
  string_of_list_ascii (a ++ b)
  = (string_of_list_ascii a ++ string_of_list_ascii b)%string.
Proof. induction a as [|c a IH]; cbn; [reflexivity|]. rewrite IH. reflexivity. Qed.

Lemma list_ascii_of_LOWER (s : string) :
  list_ascii_of_string (LOWER s) = map lower_ascii (list_ascii_of_string s).
Proof. induction s as [|c s IH]; cbn; [reflexivity|]. rewrite IH. reflexivity. Qed.

Lemma map_lower_fixed (l : list ascii) :
  Forall (fun c => lower_ascii c = c) l -> map lower_ascii l = l.
Proof.
  induction 1 as [|c l Hc _ IH]; cbn [map]; [reflexivity|]. rewrite Hc, IH. reflexivity.
Qed.

Lemma lowered_fixed (l : list ascii) :
  Forall (fun c => lower_ascii c = c) (map lower_ascii l).
Proof.
  apply Forall_forall. intros c Hc. apply in_map_iff in Hc as (x & <- & _).
  apply lower_ascii_idem.
Qed.

(** On lowered text, LIKE with a pattern [%q%] whose [q] has no
    wildcard is the search for the lowered [q] as a substring. *)
Lemma sql_like_contains (v q : string) :
  no_wildcard q ->
  sql_like (LOWER v) (LOWER ("%" ++ q ++ "%")) = true <-> contains (LOWER v) (LOWER q).
Proof.
  intros Hq. unfold sql_like, contains.
  rewrite !LOWER_app, !list_ascii_of_string_app, !list_ascii_of_LOWER.
  change (map lower_ascii (list_ascii_of_string "%")) with ["%"%char].
  cbn [app].
  set (P := map lower_ascii (list_ascii_of_string q)).
  set (S := map lower_ascii (list_ascii_of_string v)).
  assert (HP : forall c, In c P -> c <> "%"%char /\ c <> "_"%char).
  { intros c Hc. apply in_map_iff in Hc as (x & <- & Hx).
    destruct (Hq x Hx) as [N1 N2]. destruct (lower_ascii_wildcard x) as [W1 W2].
    split; intros E; [apply N1, W1, E | apply N2, W2, E]. }
  assert (PL : string_of_list_ascii P = LOWER q).
  { subst P. rewrite <- list_ascii_of_LOWER. apply string_of_list_ascii_of_string. }
  assert (SL : string_of_list_ascii S = LOWER v).
  { subst S. rewrite <- list_ascii_of_LOWER. apply string_of_list_ascii_of_string. }
  rewrite like_percent_spec. split.
  - intros (pre & rest & ES & H).
    apply (like_literal_spec P rest HP) in H as (mid & suf & -> & Hmid).
    assert (Hfix : Forall (fun c => lower_ascii c = c) S) by apply lowered_fixed.
    rewrite ES in Hfix. apply Forall_app in Hfix as (_ & Hfix).
    apply Forall_app in Hfix as (Hfix & _).
    rewrite (map_lower_fixed mid Hfix) in Hmid.
    rewrite (map_lower_fixed P (lowered_fixed _)) in Hmid. subst mid.
    exists (string_of_list_ascii pre), (string_of_list_ascii suf).
    rewrite <- SL, ES, !string_of_list_ascii_app, PL. reflexivity.
  - intros (pre & suf & E).
    exists (list_ascii_of_string pre), (P ++ list_ascii_of_string suf). split.
    + rewrite <- (list_ascii_of_string_of_list_ascii S), SL, E.
      rewrite !list_ascii_of_string_app, <- PL, list_ascii_of_string_of_list_ascii.
      reflexivity.
    + apply (like_literal_spec P _ HP). exists P, (list_ascii_of_string suf). auto.
Qed.

(** X20.  For a non-empty search text without the wildcards [%] and
    [_], [GET /api/food/search] answers 200 with exactly the rows whose
    name or whose category, lowered, contains the lowered text as a
    substring, and echoes the text as it was sent. *)
Theorem food_search_is_substring (q : string) (s : store) :
  q <> "" -> no_wildcard q ->
  exists foods,
    food_search (Some q) s = mkResponse 200 (JFoodResults foods q)
    /\ forall f, In f foods <->
                 In f (food_database s)
                 /\ (contains (LOWER (f_food_name f)) (LOWER q)
                     \/ contains (LOWER (f_category f)) (LOWER q)).
Proof.
  intros Hne Hq. unfold food_search. cbn [truthy].
  apply String.eqb_neq in Hne. rewrite Hne. cbn [negb].
  eexists. split; [reflexivity|].
  intros f. rewrite order_by_In, filter_In, orb_true_iff.
  rewrite !(sql_like_contains _ q Hq). tauto.
Qed.

Lemma food_search_is_substring_witness :
  exists foods,
    food_search (Some "Nut") seeded_store = mkResponse 200 (JFoodResults foods "Nut").
Proof.
  destruct (food_search_is_substring "Nut" seeded_store) as (foods & E & _).
  - discriminate.
  - intros c Hc. vm_compute in Hc.
    repeat (destruct Hc as [<- | Hc]; [split; discriminate|]). destruct Hc.
  - exists foods. exact E.
Defined.

(** ** AI router and service *)









(** X23.  On every food table that starts with the seeded rows
    (rows added later come after them), [GET /api/ai/food-check/:foodName]
    answers a seeded food from the table, under any letter case of its
    name and without asking the AI service: the verdict is the seeded
    [is_safe] and [safety_level], whatever the service would say. *)
Theorem food_check_seeded (ask : ai_service) (s : store) (l : list food_row)
    (food : food_seed) (q : string) :
  food_database s = food_database seeded_store ++ l ->
  In food foodData ->
  LOWER q = LOWER (food_name food) ->
  food_check ask q s = Sent 200 (FromDatabase q (is_safe food) (safety_level food)).
Proof.
  intros Hs Hfood Hq. unfold food_check, find_food_by_name. rewrite Hs, Hq.
  assert (E : find (fun f => (LOWER (f_food_name f) =? LOWER (food_name food))%string)
                   (food_database seeded_store)
              = Some (seed_row food)).
  { clear -Hfood. unfold foodData in Hfood.
    repeat (destruct Hfood as [<- | Hfood]; [vm_compute; reflexivity|]).
    destruct Hfood. }
  rewrite (find_app_Some _ _ l _ E). reflexivity.
Qed.

Lemma food_check_seeded_witness :
  food_check canned_answer "CHOCOLATE" seeded_store
  = Sent 200 (FromDatabase "CHOCOLATE" false "toxic").
Proof.
  apply (food_check_seeded canned_answer seeded_store []
           (mkSeed "Chocolate" "toxic" false "toxic") "CHOCOLATE").
  - vm_compute. reflexivity.
  - vm_compute. tauto.
  - vm_compute. reflexivity.
Defined.

(** X24.  The provider [askQuestion] uses: the call throws exactly
    when [getAvailableProviders] is empty; otherwise the provider is one
    of the available ones.  With both keys set it is OpenAI exactly when
    the selected name, the requested one or else the environment default
    or else ["anthropic"], is ["openai"], and Anthropic for any other
    name; a requested name makes the environment default irrelevant. *)
Theorem askQuestion_provider_spec (this : AIService)
    (requested default_provider : option string) :
  (askQuestion_provider this requested default_provider = None
   <-> getAvailableProviders this = [])
  /\ (forall c, askQuestion_provider this requested default_provider = Some c ->
                In c (getAvailableProviders this))
  /\ (openai this = true -> anthropic this = true ->
      askQuestion_provider this requested default_provider
      = Some (if (or_default requested (or_default default_provider "anthropic")
                  =? "openai")%string
              then OpenAI else Anthropic))
  /\ (truthy requested = true ->
      forall other_default,
        askQuestion_provider this requested other_default
        = askQuestion_provider this requested default_provider).
Proof.
  unfold askQuestion_provider, getAvailableProviders. cbv zeta.
  split; [|split; [|split]].
  - destruct (openai this), (anthropic this);
      destruct (_ =? "openai")%string; destruct (_ =? "anthropic")%string;
      cbn; split; intros H; try reflexivity; discriminate H.
  - intros c.
    destruct (openai this), (anthropic this);
      destruct (_ =? "openai")%string; destruct (_ =? "anthropic")%string;
      cbn; intros [= <-]; tauto.
  - intros -> ->. rewrite !andb_true_r.
    destruct (_ =? "openai")%string; [reflexivity|].
    destruct (_ =? "anthropic")%string; reflexivity.
  - intros Ht other_default.
    destruct requested as [r|]; [|discriminate]. cbn in Ht. cbn [or_default].
    destruct (r =? "")%string; [discriminate | reflexivity].
Qed.

Lemma askQuestion_provider_spec_witness :
  askQuestion_provider (mkAIService true true) (Some "gemini") (Some "openai")
  = Some Anthropic.
Proof.
  destruct (askQuestion_provider_spec (mkAIService true true) (Some "gemini")
              (Some "openai")) as (_ & _ & H & _).
  rewrite H; reflexivity.
Defined.

(** ** Across routes *)

Lemma In_user_vaccinations_where (s : store) (user : string)
    (cond : vaccination_row -> option bool) (p : vaccination_row * string) :
  In p (user_vaccinations_where s user cond) <->
  exists d, In (fst p) (vaccinations s) /\ In d (dogs s)
            /\ d_id d = v_dog_id (fst p) /\ d_user_id d = user
            /\ snd p = d_name d /\ sql_where (cond (fst p)) = true.
Proof.
  unfold user_vaccinations_where. rewrite in_flat_map. split.
  - intros (v & Hv & Hp). apply in_map_iff in Hp as (d & <- & Hd).
    apply filter_In in Hd as (Hd & Hc). apply andb_prop in Hc as (Hid & Hc).
    apply sql_where_and in Hc as (Hu & Hc). rewrite sql_where_Some in Hu.
    apply String.eqb_eq in Hid.
    destruct (String.eqb_spec (d_user_id d) user) as [Eu|]; [|discriminate].
    exists d. cbn [fst snd]. auto 10.
  - intros (d & Hv & Hd & Hid & Hu & Hn & Hc). exists (fst p). split; [assumption|].
    apply in_map_iff. exists d. split; [destruct p; cbn [fst snd] in *; congruence|].
    apply filter_In. split; [assumption|]. apply andb_true_intro. split.
    + apply String.eqb_eq. assumption.
    + apply sql_where_and. split; [|assumption].
      rewrite sql_where_Some. apply String.eqb_eq in Hu. rewrite Hu. reflexivity.
Qed.

(** X25.  [GET /api/vaccinations/upcoming] answers only vaccinations
    of dogs of the caller, each with the name of its dog: [upcoming] holds
    exactly those due from today (UTC) to the same day three months ahead,
    which is 89 to 92 days from today, both ends included, and [overdue]
    exactly those due before today. *)
Theorem upcoming_vaccinations_of_caller (tz : Z) (user : string) (now : instant)
    (s : store) :
  valid_tz tz -> valid_instant now ->
  exists upcoming overdue_rows n,
    get_upcoming_vaccinations tz user now s
    = mkResponse 200 (JUpcomingVaccinations upcoming overdue_rows)
    /\ (89 <= n <= 92)%nat
    /\ (forall p, In p upcoming <->
          exists d nd, In (fst p) (vaccinations s) /\ In d (dogs s)
                       /\ d_id d = v_dog_id (fst p) /\ d_user_id d = user
                       /\ snd p = d_name d /\ v_next_due_date (fst p) = Some nd
                       /\ date_le (toISODate now) nd
                       /\ date_le nd (addDays (toISODate now) n))
    /\ (forall p, In p overdue_rows <->
          exists d nd, In (fst p) (vaccinations s) /\ In d (dogs s)
                       /\ d_id d = v_dog_id (fst p) /\ d_user_id d = user
                       /\ snd p = d_name d /\ v_next_due_date (fst p) = Some nd
                       /\ date_lt nd (toISODate now)).
Proof.
  intros Htz Hi. unfold get_upcoming_vaccinations. cbv zeta.
  change (getMonth tz now + 3) with (getMonth tz now + Z.of_nat 3).
  rewrite setMonth_getMonth_plus by assumption.
  set (n := days_of_months (year (fst (LocalTime tz now)))
              (month (fst (LocalTime tz now)) - 1) 3).
  eexists _, _, n. split; [reflexivity|]. split; [|split].
  - apply days_of_three_months. apply (valid_LocalTime tz now Htz Hi).
  - intros p. rewrite order_by_In, In_user_vaccinations_where. unfold toISODate at 2.
    cbn [fst]. split.
    + intros (d & H1 & H2 & H3 & H4 & H5 & Hc).
      apply sql_where_and in Hc as (Hge & Hle).
      apply sql_where_ge in Hge as (nd & End & Hge).
      apply sql_where_le in Hle as (nd' & End' & Hle).
      rewrite End in End'. injection End' as <-.
      exists d, nd. auto 10.
    + intros (d & nd & H1 & H2 & H3 & H4 & H5 & End & Hge & Hle).
      exists d. repeat split; try assumption.
      apply sql_where_and. split.
      * apply sql_where_ge. exists nd. auto.
      * apply sql_where_le. exists nd. auto.
  - intros p. rewrite order_by_In, In_user_vaccinations_where. split.
    + intros (d & H1 & H2 & H3 & H4 & H5 & Hc).
      apply overdue_cond_spec in Hc as (nd & End & Hlt).
      exists d, nd. auto 10.
    + intros (d & nd & H1 & H2 & H3 & H4 & H5 & End & Hlt).
      exists d. repeat split; try assumption.
      apply overdue_cond_spec. exists nd. auto.
Qed.

Lemma upcoming_vaccinations_of_caller_witness :
  exists upcoming overdue_rows,
    get_upcoming_vaccinations 0 "alice" example_now example_store
    = mkResponse 200 (JUpcomingVaccinations upcoming overdue_rows).
Proof.
  destruct (upcoming_vaccinations_of_caller 0 "alice" example_now example_store)
    as (upcoming & overdue_rows & n & E & _).
  - calendar_facts.
  - calendar_facts.
  - exists upcoming, overdue_rows. exact E.
Defined.

Lemma filter_filter_andb {A : Type} (f g : A -> bool) (l : list A) :
  filter g (filter f l) = filter (fun x => f x && g x) l.
Proof.
  induction l as [|x l IH]; cbn [filter]; [reflexivity|].
  destruct (f x); cbn [andb filter]; [destruct (g x)|]; rewrite IH; reflexivity.
Qed.

(** X26.  At one instant the overdue count that
    [GET /api/health/summary] shows for a dog is the number of rows in the
    [overdue] list of [GET /api/vaccinations/dog/:dogId] for that dog. *)
Theorem overdue_count_matches_list (user dogId : string) (now : instant) (s : store)
    (all upcoming overdue_rows : list vaccination_row) (total : nat) :
  get_dog_vaccinations user dogId now s
  = mkResponse 200 (JVaccinationList all upcoming overdue_rows total) ->
  overdue_vaccination_count s dogId now = List.length overdue_rows.
Proof.
  unfold get_dog_vaccinations, overdue_vaccination_count.
  destruct (find_owned_dog s dogId user); [|discriminate].
  cbv zeta. intros [= _ _ <- _].
  rewrite order_by_length, filter_filter_andb. reflexivity.
Qed.

Lemma overdue_count_matches_list_witness :
  overdue_vaccination_count example_store "dog-1" (mkDate 2024 2 1, 0) = 1%nat.
Proof.
  apply (overdue_count_matches_list "alice" "dog-1" (mkDate 2024 2 1, 0) example_store
           [rabies_shot] [] [rabies_shot] 1%nat).
  vm_compute. reflexivity.
Defined.

(** X27.  The reminder event that [POST /api/health/medication]
    creates for a medication with a frequency has a lead time of 0 days
    and is never moved: the event scan prints a reminder for it on the
    start date of the medication and on no other day, whatever the
    frequency. *)
Theorem medication_reminded_on_start_date_only (id event_id user : string)
    (rq : medication_request) (s s1 : store) (resp : response)
    (frequency : string) (start : date) (now : instant) :
  post_medication id event_id user rq s = (resp, s1) -> status resp = 201 ->
  mq_frequency rq = Some frequency -> frequency <> "" ->
  mq_start_date rq = Some start -> valid_date start -> valid_instant now ->
  (In event_id (reminded_event_ids (checkEventReminders now s1))
   <-> toISODate now = start).
Proof.
  intros Hpost H201 Hf Hne Hs Vs Hi.
  unfold post_medication in Hpost. cbv zeta in Hpost. rewrite Hf, Hs in Hpost.
  destruct (negb (truthy (mq_dog_id rq)) || negb (truthy (mq_name rq))
            || negb (present (Some start)));
    [injection Hpost as <- _; discriminate|].
  destruct (mq_dog_id rq) as [dog_id|]; [|injection Hpost as <- _; discriminate].
  destruct (mq_name rq) as [name|]; [|injection Hpost as <- _; discriminate].
  destruct (find_owned_dog s dog_id user); [|injection Hpost as <- _; discriminate].
  destruct (insert_medication _ s) as [s0|] eqn:H0;
    [|injection Hpost as <- _; discriminate].
  apply insert_medication_Some in H0 as ->.
  assert (Efreq : or_null (Some frequency) = Some frequency).
  { unfold or_null, truthy. apply String.eqb_neq in Hne. rewrite Hne. reflexivity. }
  rewrite Efreq in Hpost. cbn [insert_if_some] in Hpost.
  destruct (insert_event _ _) as [s2|] eqn:H2; [|injection Hpost as <- _; discriminate].
  apply insert_event_Some in H2 as (-> & Hfresh).
  injection Hpost as _ <-. clear H201.
  cbn [set_medications set_events events e_id medication_event] in Hfresh.
  assert (Vn : valid_date (toISODate now)) by apply Hi.
  rewrite In_reminded_event_ids. cbn [set_medications set_events events]. split.
  - intros (e & He & Hid & Hc). apply in_app_or in He as [He | [<- | []]].
    + exfalso. assert (Hex : existsb (fun e => (e_id e =? event_id)%string) (events s)
                             = true).
      { apply existsb_exists. exists e. split; [assumption|]. apply String.eqb_eq.
        assumption. }
      congruence.
    + apply event_window_cond_unfold in Hc as (_ & Hw).
      cbn [medication_event e_reminder_days_before e_event_date] in Hw.
      apply (window_cond_iff _ _ _ Vn) in Hw as (_ & t & Ht & Hlo & Hhi).
      rewrite (sql_date_valid _ Vs) in Ht. injection Ht as <-.
      change (Z.to_nat 0) with 0%nat in Hhi. rewrite addDays_0 in Hhi.
      apply date_le_antisym; assumption.
  - intros E. eexists. split; [apply in_or_app; right; left; reflexivity|].
    split; [reflexivity|].
    apply event_window_cond_unfold. split; [reflexivity|].
    cbn [medication_event e_reminder_days_before e_event_date].
    apply (window_cond_iff _ _ _ Vn). rewrite E.
    split; [lia|]. exists start. split; [apply sql_date_valid; assumption|].
    split; [apply date_le_refl|].
    change (Z.to_nat 0) with 0%nat. rewrite addDays_0. apply date_le_refl.
Qed.

Lemma medication_reminded_on_start_date_only_witness :
  In "ev-7" (reminded_event_ids
               (checkEventReminders example_now
                  (snd (post_medication "med-7" "ev-7" "alice" pill_request
                          example_store)))).
Proof.
  refine (proj2 (medication_reminded_on_start_date_only "med-7" "ev-7" "alice"
                   pill_request example_store _ _ "daily" (mkDate 2024 1 15) example_now
                   (surjective_pairing _) _ eq_refl _ eq_refl _ _) _).
  - vm_compute. reflexivity.
  - discriminate.
  - calendar_facts.
  - calendar_facts.
  - reflexivity.
Defined.

(** ** The constraints of the schema along a run *)

Lemma NoDup_map_app_fresh {A : Type} (key : A -> string) (l : list A) (r : A) :
  NoDup (map key l) ->
  existsb (fun a => (key a =? key r)%string) l = false ->
  NoDup (map key (l ++ [r])).
Proof.
  intros Hn Hf. rewrite map_app. cbn [map].
  apply NoDup_app; [assumption | repeat constructor; intros [] |].
  intros x Hx [<- | []]. apply in_map_iff in Hx as (a & E & Ha).
  assert (Hex : existsb (fun a => (key a =? key r)%string) l = true).
  { apply existsb_exists. exists a. split; [assumption|]. apply String.eqb_eq.
    assumption. }
  congruence.
Qed.

Lemma has_dog_In (s : store) (id : string) :
  has_dog s id = true <-> In id (map d_id (dogs s)).
Proof.
  unfold has_dog. rewrite existsb_exists, in_map_iff. split.
  - intros (d & Hd & E). apply String.eqb_eq in E. exists d. auto.
  - intros (d & E & Hd). exists d. split; [assumption|]. apply String.eqb_eq.
    assumption.
Qed.

Lemma references_same_dogs (s s' : store) :
  (forall id, has_dog s id = true -> has_dog s' id = true) ->
  vaccinations s' = vaccinations s -> medications s' = medications s ->
  events s' = events s ->
  references_ok s -> references_ok s'.
Proof.
  intros Hd Ev Em Ee (Hv & Hm & He). unfold references_ok. rewrite Ev, Em, Ee.
  repeat split; intros.
  - apply Hd, Hv. assumption.
  - apply Hd, Hm. assumption.
  - eapply Hd, He; eassumption.
Qed.

Lemma consistent_insert_dog (r : dog_row) (s s' : store) :
  consistent s -> insert_dog r s = Some s' -> consistent s'.
Proof.
  intros ((Kd & Kv & Ke) & Km & Kq & Hr) H. apply insert_dog_Some in H as (-> & Hf).
  split; [split; [|split]|split; [|split]]; try assumption.
  - cbn. apply NoDup_map_app_fresh; assumption.
  - revert Hr. apply references_same_dogs; try reflexivity.
    intros id. rewrite !has_dog_In. cbn. rewrite map_app, in_app_iff. auto.
Qed.

Lemma consistent_insert_vaccination (r : vaccination_row) (s s' : store) :
  consistent s -> insert_vaccination r s = Some s' -> consistent s'.
Proof.
  intros ((Kd & Kv & Ke) & Km & Kq & (Hv & Hm & He)) H.
  apply insert_vaccination_Some in H as (-> & Hd & Hf).
  split; [split; [|split]|split; [|split; [|split; [|split]]]]; try assumption.
  - cbn. apply NoDup_map_app_fresh; assumption.
  - cbn. intros v Hin. apply in_app_or in Hin as [Hin | [<- | []]].
    + apply Hv. assumption.
    + assumption.
Qed.

Lemma consistent_insert_event (r : event_row) (s s' : store) :
  consistent s -> insert_event r s = Some s' -> consistent s'.
Proof.
  intros ((Kd & Kv & Ke) & Km & Kq & (Hv & Hm & He)) H.
  pose proof H as H0. apply insert_event_Some in H as (-> & Hf).
  unfold insert_event in H0. rewrite Hf in H0.
  destruct (negb (event_type_ok (e_event_type r))); [discriminate|].
  split; [split; [|split]|split; [|split; [|split; [|split]]]]; try assumption.
  - cbn. apply NoDup_map_app_fresh; assumption.
  - cbn. intros e d Hin Ed. apply in_app_or in Hin as [Hin | [<- | []]].
    + eapply He; eassumption.
    + rewrite Ed in H0. unfold has_dog in H0. cbn in H0.
      destruct (existsb _ (dogs s)) eqn:Ex; [|discriminate].
      first [exact Ex | reflexivity].
Qed.

Lemma consistent_insert_if_some {A : Type} (x : option A) (mk : A -> event_row)
    (s s' : store) :
  consistent s -> insert_if_some x mk s = Some s' -> consistent s'.
Proof.
  destruct x as [a|]; cbn [insert_if_some].
  - apply consistent_insert_event.
  - intros H [= <-]. assumption.
Qed.

Lemma consistent_insert_medication (r : medication_row) (s s' : store) :
  consistent s -> insert_medication r s = Some s' -> consistent s'.
Proof.
  intros ((Kd & Kv & Ke) & Km & Kq & (Hv & Hm & He)) H.
  unfold insert_medication in H.
  destruct (existsb _ (medications s)) eqn:Hf; [discriminate|].
  destruct (has_dog s (m_dog_id r)) eqn:Hd; [|discriminate].
  injection H as <-.
  split; [split; [|split]|split; [|split; [|split; [|split]]]]; try assumption.
  - cbn. apply NoDup_map_app_fresh; assumption.
  - cbn. intros m Hin. apply in_app_or in Hin as [Hin | [<- | []]].
    + apply Hm. assumption.
    + assumption.
Qed.

Lemma consistent_insert_ai_query (r : ai_query_row) (s s' : store) :
  consistent s -> insert_ai_query r s = Some s' -> consistent s'.
Proof.
  intros ((Kd & Kv & Ke) & Km & Kq & Hr) H.
  unfold insert_ai_query in H.
  destruct (existsb _ (ai_queries s)) eqn:Hf; [discriminate|].
  injection H as <-.
  split; [split; [|split]|split; [|split]]; try assumption.
  cbn. apply NoDup_map_app_fresh; assumption.
Qed.

Lemma map_key_update {A : Type} (key : A -> string) (g : A -> A) (id : string)
    (idk : A -> string) (l : list A) :
  (forall a, key (g a) = key a) ->
  map key (map (fun a => if (idk a =? id)%string then g a else a) l) = map key l.
Proof.
  intros Hg. rewrite map_map. apply map_ext. intros a.
  destruct (idk a =? id)%string; [apply Hg | reflexivity].
Qed.

Lemma consistent_post_dog (dogId birthdayId anniversaryId : string) (tz : Z)
    (user : string) (now : instant) (rq : dog_request) (s : store) :
  consistent s ->
  consistent (snd (post_dog dogId birthdayId anniversaryId tz user now rq s)).
Proof.
  intros H. unfold post_dog. cbv zeta.
  destruct (dq_name rq) as [name|]; [|assumption].
  destruct (negb (truthy (Some name))); [assumption|].
  destruct (insert_dog _ s) as [s1|] eqn:H1; [|assumption].
  apply (consistent_insert_dog _ _ _ H) in H1.
  destruct (insert_if_some (dq_date_of_birth rq) _ _) as [s2|] eqn:H2; [|assumption].
  apply (consistent_insert_if_some _ _ _ _ H1) in H2.
  destruct (insert_if_some (dq_adoption_date rq) _ _) as [s3|] eqn:H3; [|assumption].
  apply (consistent_insert_if_some _ _ _ _ H2) in H3. assumption.
Qed.

Lemma consistent_post_vaccination (id event_id user : string) (rq : vaccination_request)
    (s : store) :
  consistent s -> consistent (snd (post_vaccination id event_id user rq s)).
Proof.
  intros H. unfold post_vaccination. cbv zeta.
  destruct (negb (truthy (vq_dog_id rq)) || negb (truthy (vq_vaccine_name rq))
            || negb (present (vq_date_administered rq))); [assumption|].
  destruct (vq_dog_id rq) as [dog_id|]; [|assumption].
  destruct (vq_vaccine_name rq) as [name|]; [|assumption].
  destruct (vq_date_administered rq) as [administered|]; [|assumption].
  destruct (find_owned_dog s dog_id user); [|assumption].
  destruct (insert_vaccination _ s) as [s1|] eqn:H1; [|assumption].
  apply (consistent_insert_vaccination _ _ _ H) in H1.
  destruct (vq_next_due_date rq) as [nd|]; [|assumption].
  destruct (insert_event _ _) as [s2|] eqn:H2; [|assumption].
  apply (consistent_insert_event _ _ _ H1) in H2. assumption.
Qed.

Lemma consistent_post_event (id user : string) (rq : event_request) (s : store) :
  consistent s -> consistent (snd (post_event id user rq s)).
Proof.
  intros H. unfold post_event. cbv zeta.
  destruct (negb (truthy (eq_title rq)) || negb (present (eq_event_date rq)));
    [assumption|].
  destruct (eq_title rq) as [title|]; [|assumption].
  destruct (eq_event_date rq) as [event_date|]; [|assumption].
  destruct (truthy (eq_dog_id rq) && _); [assumption|].
  destruct (insert_event _ s) as [s1|] eqn:H1; [|assumption].
  apply (consistent_insert_event _ _ _ H) in H1. assumption.
Qed.

Lemma consistent_post_medication (id event_id user : string) (rq : medication_request)
    (s : store) :
  consistent s -> consistent (snd (post_medication id event_id user rq s)).
Proof.
  intros H. unfold post_medication. cbv zeta.
  destruct (negb (truthy (mq_dog_id rq)) || negb (truthy (mq_name rq))
            || negb (present (mq_start_date rq))); [assumption|].
  destruct (mq_dog_id rq) as [dog_id|]; [|assumption].
  destruct (mq_name rq) as [name|]; [|assumption].
  destruct (mq_start_date rq) as [start_date|]; [|assumption].
  destruct (find_owned_dog s dog_id user); [|assumption].
  destruct (insert_medication _ s) as [s1|] eqn:H1; [|assumption].
  apply (consistent_insert_medication _ _ _ H) in H1.
  destruct (insert_if_some _ _ _) as [s2|] eqn:H2; [|assumption].
  apply (consistent_insert_if_some _ _ _ _ H1) in H2. assumption.
Qed.

Lemma consistent_ai_ask (ask : ai_service) (id user : string) (now : instant)
    (rq : ask_request) (s : store) :
  consistent s -> consistent (snd (ai_ask ask id user now rq s)).
Proof.
  intros H. unfold ai_ask.
  destruct (aq_question rq) as [question|]; [|assumption].
  destruct (negb (truthy (Some question))); [assumption|].
  destruct (ask question _ _) as [r|]; [|assumption].
  destruct (insert_ai_query _ s) as [s1|] eqn:H1; [|assumption].
  apply (consistent_insert_ai_query _ _ _ H) in H1. assumption.
Qed.

Lemma has_dog_same_ids (s s' : store) (id : string) :
  map d_id (dogs s') = map d_id (dogs s) -> has_dog s' id = has_dog s id.
Proof.
  intros E. destruct (has_dog s id) eqn:H.
  - apply has_dog_In. rewrite E. apply has_dog_In. assumption.
  - destruct (has_dog s' id) eqn:H'; [|reflexivity].
    apply has_dog_In in H'. rewrite E in H'. apply has_dog_In in H'. congruence.
Qed.

Lemma consistent_put_dog (user id : string) (rq : dog_request) (s : store) :
  consistent s -> consistent (snd (put_dog user id rq s)).
Proof.
  intros H. unfold put_dog.
  destruct (find_owned_dog s id user) as [dog|]; [|assumption].
  destruct (negb (gender_ok _)); [assumption|]. cbn [snd].
  destruct H as ((Kd & Kv & Ke) & Km & Kq & Hr).
  assert (E : map d_id (dogs (set_dogs s
                 (map (fun d => if (d_id d =? id)%string then update_dog rq d else d)
                      (dogs s)))) = map d_id (dogs s)).
  { cbn. apply map_key_update. reflexivity. }
  split; [split; [|split]|split; [|split]]; try assumption.
  - rewrite E. assumption.
  - revert Hr. apply references_same_dogs; try reflexivity.
    intros x Hx. rewrite (has_dog_same_ids _ _ _ E). assumption.
Qed.

Lemma consistent_put_vaccination (user id : string) (rq : vaccination_request)
    (s : store) :
  consistent s -> consistent (snd (put_vaccination user id rq s)).
Proof.
  intros H. unfold put_vaccination.
  destruct (find_owned_vaccination s id user) as [found|]; [|assumption]. cbn [snd].
  destruct H as ((Kd & Kv & Ke) & Km & Kq & (Hv & Hm & He)).
  split; [split; [|split]|split; [|split; [|split; [|split]]]]; try assumption.
  - cbn. rewrite map_key_update; [assumption | reflexivity].
  - cbn. intros v' Hin. apply in_map_iff in Hin as (v & <- & Hin).
    destruct (v_id v =? id)%string; apply (Hv v Hin).
Qed.

Lemma consistent_delete_vaccination (user id : string) (s : store) :
  consistent s -> consistent (snd (delete_vaccination user id s)).
Proof.
  intros H. unfold delete_vaccination.
  destruct (find_owned_vaccination s id user) as [found|]; [|assumption]. cbn [snd].
  destruct H as ((Kd & Kv & Ke) & Km & Kq & (Hv & Hm & He)).
  split; [split; [|split]|split; [|split; [|split; [|split]]]]; try assumption.
  - cbn. apply NoDup_map_filter. assumption.
  - cbn. intros v Hin. apply filter_In in Hin as (Hin & _). apply (Hv v Hin).
Qed.

Lemma consistent_put_event (user id : string) (rq : event_update) (s : store) :
  consistent s -> consistent (snd (put_event user id rq s)).
Proof.
  intros H. unfold put_event.
  destruct (find_owned_event s id user) as [old|]; [|assumption].
  destruct (negb (event_type_ok _)); [assumption|]. cbn [snd].
  destruct H as ((Kd & Kv & Ke) & Km & Kq & (Hv & Hm & He)).
  split; [split; [|split]|split; [|split; [|split; [|split]]]]; try assumption.
  - cbn. rewrite map_key_update; [assumption | reflexivity].
  - cbn. intros e' d Hin Ed. apply in_map_iff in Hin as (e & <- & Hin).
    destruct (e_id e =? id)%string; apply (He e d Hin Ed).
Qed.

Lemma consistent_delete_event (user id : string) (s : store) :
  consistent s -> consistent (snd (delete_event user id s)).
Proof.
  intros H. unfold delete_event.
  destruct (find_owned_event s id user) as [old|]; [|assumption]. cbn [snd].
  destruct H as ((Kd & Kv & Ke) & Km & Kq & (Hv & Hm & He)).
  split; [split; [|split]|split; [|split; [|split; [|split]]]]; try assumption.
  - cbn. apply NoDup_map_filter. assumption.
  - cbn. intros e d Hin Ed. apply filter_In in Hin as (Hin & _). apply (He e d Hin Ed).
Qed.

Lemma has_dog_after_delete (s : store) (id x : string) :
  has_dog s x = true -> x <> id -> has_dog (delete_dog_cascade id s) x = true.
Proof.
  unfold has_dog, delete_dog_cascade. cbn [dogs]. intros H Hne.
  apply existsb_exists in H as (d & Hd & E). apply existsb_exists. exists d.
  split; [|assumption]. apply filter_In. split; [assumption|].
  apply String.eqb_eq in E. apply negb_true_iff. apply String.eqb_neq. congruence.
Qed.

Lemma consistent_delete_dog (user id : string) (s : store) :
  consistent s -> consistent (snd (delete_dog user id s)).
Proof.
  intros H. unfold delete_dog.
  destruct (find_owned_dog s id user) as [dog|]; [|assumption]. cbn [snd].
  destruct H as ((Kd & Kv & Ke) & Km & Kq & (Hv & Hm & He)).
  split; [split; [|split]|split; [|split; [|split; [|split]]]].
  - cbn. apply NoDup_map_filter. assumption.
  - cbn. apply NoDup_map_filter. assumption.
  - cbn. rewrite map_map.
    erewrite map_ext; [exact Ke|]. intros e. destruct (e_dog_id e) as [d|]; [|reflexivity].
    destruct (d =? id)%string; reflexivity.
  - cbn. apply NoDup_map_filter. assumption.
  - assumption.
  - intros v Hin. cbn [delete_dog_cascade vaccinations] in Hin.
    apply filter_In in Hin as (Hin & Hn). apply has_dog_after_delete; [apply Hv, Hin|].
    intros E. rewrite E, String.eqb_refl in Hn. discriminate.
  - intros m Hin. cbn [delete_dog_cascade medications] in Hin.
    apply filter_In in Hin as (Hin & Hn). apply has_dog_after_delete; [apply Hm, Hin|].
    intros E. rewrite E, String.eqb_refl in Hn. discriminate.
  - intros e' d Hin Ed. cbn [delete_dog_cascade events] in Hin.
    apply in_map_iff in Hin as (e & <- & Hin).
    destruct (e_dog_id e) as [d0|] eqn:E0.
    + destruct (String.eqb_spec d0 id) as [E|N].
      * cbn in Ed. discriminate.
      * rewrite E0 in Ed. injection Ed as <-.
        apply has_dog_after_delete; [apply (He e d0 Hin E0) | assumption].
    + rewrite E0 in Ed. discriminate.
Qed.

Lemma consistent_dailyScan (tz : Z) (now : instant) (s : store) :
  consistent s -> consistent (snd (dailyScan tz now s)).
Proof.
  intros (K & Km & Kq & (Hv & Hm & He)). unfold dailyScan. cbv zeta. cbn [snd].
  pose proof (scan_others tz now s) as Ho. cbv zeta in Ho.
  destruct Ho as (Ed & Ee & Emed & Eq & _).
  pose proof (scan_vaccinations tz now s) as Ev.
  assert (Hd : forall id, has_dog (snd (checkVaccinationReminders tz now s)) id
                          = has_dog s id).
  { intros id. apply has_dog_same_ids. rewrite Ed. reflexivity. }
  split; [apply scan_keeps_primary_keys; assumption|].
  split; [rewrite Emed; assumption|]. split; [rewrite Eq; assumption|].
  unfold references_ok. rewrite Ev, Emed, Ee. split; [|split].
  - intros v' Hin. apply in_map_iff in Hin as (v & <- & Hin). rewrite Hd.
    destruct (str_in _ _); apply (Hv v Hin).
  - intros m Hin. rewrite Hd. apply Hm, Hin.
  - intros e d Hin E. rewrite Hd. apply (He e d Hin E).
Qed.

Lemma consistent_step (tz : Z) (s : store) (op : operation) :
  consistent s -> consistent (step tz s op).
Proof.
  intros H. destruct op; cbn [step].
  - apply consistent_post_dog, H.
  - apply consistent_put_dog, H.
  - apply consistent_delete_dog, H.
  - apply consistent_post_vaccination, H.
  - apply consistent_put_vaccination, H.
  - apply consistent_delete_vaccination, H.
  - apply consistent_post_event, H.
  - apply consistent_put_event, H.
  - apply consistent_delete_event, H.
  - apply consistent_post_medication, H.
  - apply consistent_ai_ask, H.
  - apply consistent_dailyScan, H.
Qed.

(** X28.  The modelled requests and the daily scan keep the
    constraints of the schema: if ids are unique in the dogs,
    vaccinations, events, medications and question tables and no
    vaccination, medication or event points at a missing dog, the same
    holds after any one of them, whatever ids it was handed and whatever
    it answered, and so in every state of every run. *)
Theorem run_keeps_database_consistent (tz : Z) (s : store) (ops : list operation) :
  consistent s -> forall s', In s' (trace tz s ops) -> consistent s'.
Proof.
  revert s. induction ops as [|op ops IH]; intros s H s' Hin; cbn [trace] in Hin.
  - destruct Hin as [<- | []]. assumption.
  - destruct Hin as [<- | Hin]; [assumption|].
    apply (IH (step tz s op)); [apply consistent_step; assumption | assumption].
Qed.

Lemma run_keeps_database_consistent_witness :
  consistent (step 0 (step 0 empty_store
                        (OpPostDog "dog-2" "ev-b" "ev-a" "bob" example_now
                           (new_dog_request (Some (mkDate 2020 5 1)) None)))
                (OpDeleteDog "bob" "dog-2")).
Proof.
  apply (run_keeps_database_consistent 0 empty_store
           [OpPostDog "dog-2" "ev-b" "ev-a" "bob" example_now
              (new_dog_request (Some (mkDate 2020 5 1)) None);
            OpDeleteDog "bob" "dog-2"]).
  - unfold consistent, primary_keys_ok, references_ok. cbn.
    repeat split; try constructor; intros; contradiction.
  - cbn [trace]. right. right. left. reflexivity.
Defined.

(** X29.  [PUT /api/events/:id] stores the lead time as it is sent,
    zero and negative numbers included: after a PUT answered with 200
    every event with the id has that lead time.  With a negative lead
    time the event scan never prints a reminder for the event again; with
    the lead time 0 it prints one only on the day SQLite's [date()] reads
    the date of the event as, which is that date when it is in the
    calendar. *)
Theorem put_event_stores_lead_time (user id : string) (rq : event_update) (s : store)
    (n : Z) (now : instant) :
  eu_reminder_days_before rq = Some n ->
  status (fst (put_event user id rq s)) = 200 ->
  let s' := snd (put_event user id rq s) in
  (forall e, In e (events s') -> e_id e = id -> e_reminder_days_before e = n)
  /\ (n < 0 -> ~ In id (reminded_event_ids (checkEventReminders now s')))
  /\ (n = 0 -> valid_instant now ->
      In id (reminded_event_ids (checkEventReminders now s')) ->
      exists e, In e (events s') /\ e_id e = id
                /\ sql_date (Some (e_event_date e)) = Some (toISODate now)
                /\ (valid_date (e_event_date e) -> e_event_date e = toISODate now)).
Proof.
  intros Hn. unfold put_event.
  destruct (find_owned_event s id user) as [old|]; [|discriminate].
  destruct (negb (event_type_ok _)); [discriminate|].
  intros _. cbv zeta. cbn [snd set_events events].
  assert (Hlead : forall e,
            In e (map (fun e => if (e_id e =? id)%string then update_event rq e else e)
                      (events s)) ->
            e_id e = id -> e_reminder_days_before e = n).
  { intros e' Hin Hid. apply in_map_iff in Hin as (e & <- & _).
    destruct (String.eqb_spec (e_id e) id) as [E|N]; [|contradiction].
    cbn [update_event e_reminder_days_before]. rewrite Hn. reflexivity. }
  split; [exact Hlead|]. split.
  - intros Hneg Hin. apply In_reminded_event_ids in Hin as (e & He & Hid & Hc).
    cbn [set_events events] in He.
    apply event_window_cond_unfold in Hc as (_ & Hw).
    rewrite (Hlead e He Hid), window_cond_negative in Hw by assumption. discriminate.
  - intros Hz Hi Hin. apply In_reminded_event_ids in Hin as (e & He & Hid & Hc).
    cbn [set_events events] in He. exists e. split; [assumption|].
    split; [assumption|].
    apply event_window_cond_unfold in Hc as (_ & Hw).
    rewrite (Hlead e He Hid), Hz in Hw.
    apply window_cond_iff in Hw as (_ & t & Ht & Hlo & Hhi); [|apply Hi].
    change (Z.to_nat 0) with 0%nat in Hhi. rewrite addDays_0 in Hhi.
    assert (t = toISODate now) as -> by (apply date_le_antisym; assumption).
    split; [assumption|]. intros V.
    symmetry. apply (sql_date_normalised _ _ Ht). assumption.
Qed.

Lemma put_event_stores_lead_time_witness :
  ~ In "ev-1"
      (reminded_event_ids
         (checkEventReminders example_now
            (snd (put_event "alice" "ev-1"
                    (mkEventUpdate None None None None None None (Some (-1)) None)
                    example_store)))).
Proof.
  refine (proj1 (proj2 (put_event_stores_lead_time "alice" "ev-1"
                          (mkEventUpdate None None None None None None (Some (-1)) None)
                          example_store (-1) example_now eq_refl _)) _).
  - vm_compute. reflexivity.
  - lia.
Defined.
